(** * A shallow embedding of the WebGL fluid simulator (src/liquids)

    The development follows the TypeScript sources file by file:
    - [GLSL]       : the vector types and built-ins the shaders use;
    - [WebglUtils] : framebuffers, ping-pong pairs, sampling, [blit] and
                     [getSupportedFormat] (webglUtils.ts);
    - [Shaders]    : the fragment shaders of t.ts, one function each;
    - [FluidSimulation] : configuration, [getResolution], [correctRadius],
                     [wrap], [updateColors], [splat], [step], [applyInputs]
                     (fluidSimulation.ts);
    - [Main]       : pointer bookkeeping and [calcDeltaTime] (main.ts);
    - [Rendering]  : the final draw of a frame into the canvas: [render],
                     [drawColor], [drawCheckerboard], [drawDisplay]
                     (fluidSimulation.ts) and [blit] on the default
                     framebuffer (webglUtils.ts).

    Modelling conventions.
    - A JavaScript or GLSL number is an exact rational ([Q]); rounding of
      IEEE doubles and of half-float textures is not modelled, so every
      equation below is about the exact value the code denotes.  Division is
      [Qdiv], which is total ([x / 0 == 0]); the shaders guard their
      denominators with [max].
    - The transcendental built-ins ([exp], [sqrt], [pow]) are parameters of
      the shader section.
    - A texture holds one [vec4] per texel, row by row; sampling clamps to
      the edge as [createFBO] configures it, and expands the stored channels
      according to the texture format.
    - Rendering is done with blending disabled everywhere the simulation
      draws into a framebuffer object, so a full-screen [blit] replaces every
      texel of its target with the fragment shader's output.
    - The framebuffer objects hold half-float textures, which store what a
      shader writes without a clamp.  The drawing buffer of the canvas is a
      fixed-point colour buffer (8 bits per channel): there the fragment
      colour is clamped to [[0, 1]] before it is blended, and the blended
      colour is clamped again when it is written (OpenGL ES 2.0, sections
      3.8.2 and 4.1.6); the rounding to a multiple of 1/255 is not
      modelled. *)

From Stdlib Require Import QArith Qround Qminmax Qabs Lqa ZArith List Lia Bool.
Import ListNotations.
Open Scope Q_scope.

(** ** Comparisons on numbers, as booleans *)

Definition Qltb (x y : Q) : bool := negb (Qle_bool y x).
Definition Qgtb (x y : Q) : bool := Qltb y x.

(** [Math.round]: the nearest integer, ties towards plus infinity. *)
Definition Math_round (x : Q) : Z := Qfloor (x + (1 # 2)).

(** [Math.floor]. *)
Definition Math_floor (x : Q) : Z := Qfloor x.

(** * GLSL vectors and built-in functions *)

Module GLSL.

Record vec2 := Vec2 { x2 : Q; y2 : Q }.
Record vec3 := Vec3 { r3 : Q; g3 : Q; b3 : Q }.
Record vec4 := Vec4 { r4 : Q; g4 : Q; b4 : Q; a4 : Q }.

Definition zero4 : vec4 := Vec4 0 0 0 0.

Definition add2 (a b : vec2) := Vec2 (x2 a + x2 b) (y2 a + y2 b).
Definition sub2 (a b : vec2) := Vec2 (x2 a - x2 b) (y2 a - y2 b).
Definition scale2 (k : Q) (a : vec2) := Vec2 (k * x2 a) (k * y2 a).
Definition mul2 (a b : vec2) := Vec2 (x2 a * x2 b) (y2 a * y2 b).
Definition dot2 (a b : vec2) : Q := x2 a * x2 b + y2 a * y2 b.

Definition add3 (a b : vec3) := Vec3 (r3 a + r3 b) (g3 a + g3 b) (b3 a + b3 b).
Definition scale3 (k : Q) (a : vec3) := Vec3 (k * r3 a) (k * g3 a) (k * b3 a).
Definition dot3 (a b : vec3) : Q := r3 a * r3 b + g3 a * g3 b + b3 a * b3 b.
Definition max3 (a b : vec3) := Vec3 (Qmax (r3 a) (r3 b)) (Qmax (g3 a) (g3 b)) (Qmax (b3 a) (b3 b)).

Definition scale4 (k : Q) (a : vec4) := Vec4 (k * r4 a) (k * g4 a) (k * b4 a) (k * a4 a).

Definition rgb (c : vec4) : vec3 := Vec3 (r4 c) (g4 c) (b4 c).
Definition xy (c : vec4) : vec2 := Vec2 (r4 c) (g4 c).
Definition vec4_of3 (c : vec3) (a : Q) : vec4 := Vec4 (r3 c) (g3 c) (b3 c) a.
Definition vec4_of2 (c : vec2) (z w : Q) : vec4 := Vec4 (x2 c) (y2 c) z w.

(** [clamp(x, lo, hi) = min(max(x, lo), hi)]. *)
Definition clamp (x lo hi : Q) : Q := Qmin (Qmax x lo) hi.

(** [mix(a, b, t) = a * (1 - t) + b * t]. *)
Definition mix (a b t : Q) : Q := a * (1 - t) + b * t.
Definition mix4 (a b : vec4) (t : Q) : vec4 :=
  Vec4 (mix (r4 a) (r4 b) t) (mix (g4 a) (g4 b) t)
       (mix (b4 a) (b4 b) t) (mix (a4 a) (a4 b) t).

Definition floor (x : Q) : Q := inject_Z (Qfloor x).
Definition fract (x : Q) : Q := x - floor x.
Definition floor2 (a : vec2) := Vec2 (floor (x2 a)) (floor (y2 a)).
Definition fract2 (a : vec2) := Vec2 (fract (x2 a)) (fract (y2 a)).

(** [step(edge, x)] is [0.0] when [x < edge] and [1.0] otherwise. *)
Definition step (edge x : Q) : Q := if Qltb x edge then 0 else 1.

(** [mod(x, y) = x - y * floor(x / y)]. *)
Definition modulo (x y : Q) : Q := x - y * floor (x / y).

(** A bound sampler: what [texture2D(sam, .)] returns at a coordinate. *)
Definition sampler2D := vec2 -> vec4.

End GLSL.
Import GLSL.

(** * webglUtils.ts: framebuffers, sampling, blit *)

Module WebglUtils.

(** The texture filter given to [createFBO] as [param]. *)
Inductive Filter := NEAREST | LINEAR.

(** The channels a texture format stores. *)
Inductive Format := FormatR | FormatRG | FormatRGBA.

Record IFBO := mkFBO {
  texture : nat;           (* the WebGLTexture handle *)
  width : Q;
  height : Q;
  texelSizeX : Q;
  texelSizeY : Q;
  format : Format;
  param : Filter;
  pixels : list (list vec4)  (* texel contents, [nth x (nth y pixels)] *)
}.

Definition set_pixels (f : IFBO) (p : list (list vec4)) : IFBO :=
  mkFBO (texture f) (width f) (height f) (texelSizeX f) (texelSizeY f)
        (format f) (param f) p.

(** The error [createFBO] throws. *)
Inductive FBOError := InvalidDimensions (w h : Q).

(** [createFBO]: the dimension guard, then a texture of [w] by [h] texels
    (contents zero) whose handle is [handle]. *)
Definition createFBO (handle : nat) (w h : Q) (fmt : Format) (prm : Filter)
  : FBOError + IFBO :=
  if Qle_bool w 0 || Qle_bool h 0 then inl (InvalidDimensions w h)
  else inr (mkFBO handle w h (1 / w) (1 / h) fmt prm
              (repeat (repeat zero4 (Z.to_nat (Qfloor w))) (Z.to_nat (Qfloor h)))).

(** Number of texel columns and rows of the texture image. *)
Definition cols (f : IFBO) : Z := Qfloor (width f).
Definition rows (f : IFBO) : Z := Qfloor (height f).

(** CLAMP_TO_EDGE on a texel index. *)
Definition clampIndex (i n : Z) : Z := Z.max 0 (Z.min i (n - 1)).

(** What a sampler sees of a stored texel: missing channels read as
    [0, 0, 1]. *)
Definition expand (fmt : Format) (c : vec4) : vec4 :=
  match fmt with
  | FormatR => Vec4 (r4 c) 0 0 1
  | FormatRG => Vec4 (r4 c) (g4 c) 0 1
  | FormatRGBA => c
  end.

Definition stored (f : IFBO) (i j : nat) : vec4 :=
  nth i (nth j (pixels f) []) zero4.

(** The texel at column [i], row [j], clamped to the edge. *)
Definition texel (f : IFBO) (i j : Z) : vec4 :=
  expand (format f)
    (stored f (Z.to_nat (clampIndex i (cols f))) (Z.to_nat (clampIndex j (rows f)))).

(** [texture2D] on a texture with the filter of its FBO. *)
Definition texture2D (f : IFBO) : sampler2D := fun uv =>
  let u := x2 uv * inject_Z (cols f) in
  let v := y2 uv * inject_Z (rows f) in
  match param f with
  | NEAREST => texel f (Qfloor u) (Qfloor v)
  | LINEAR =>
      let i0 := Qfloor (u - (1 # 2)) in
      let j0 := Qfloor (v - (1 # 2)) in
      let a := fract (u - (1 # 2)) in
      let b := fract (v - (1 # 2)) in
      mix4 (mix4 (texel f i0 j0) (texel f (i0 + 1) j0) a)
           (mix4 (texel f i0 (j0 + 1)) (texel f (i0 + 1) (j0 + 1)) a) b
  end.

(** [attach(id)]: bind the texture to a unit; the sampler uniform set to
    that unit then reads this texture. *)
Definition attach (f : IFBO) : sampler2D := texture2D f.

Record IDoubleFBO := mkDoubleFBO {
  dwidth : Q;
  dheight : Q;
  dtexelSizeX : Q;
  dtexelSizeY : Q;
  _fbo1 : IFBO;
  _fbo2 : IFBO
}.

Definition read (d : IDoubleFBO) : IFBO := _fbo1 d.
Definition write (d : IDoubleFBO) : IFBO := _fbo2 d.

Definition swap (d : IDoubleFBO) : IDoubleFBO :=
  mkDoubleFBO (dwidth d) (dheight d) (dtexelSizeX d) (dtexelSizeY d)
              (_fbo2 d) (_fbo1 d).

Definition set_write (d : IDoubleFBO) (f : IFBO) : IDoubleFBO :=
  mkDoubleFBO (dwidth d) (dheight d) (dtexelSizeX d) (dtexelSizeY d)
              (_fbo1 d) f.

Definition createDoubleFBO (h1 h2 : nat) (w h : Q) (fmt : Format) (prm : Filter)
  : FBOError + IDoubleFBO :=
  match createFBO h1 w h fmt prm with
  | inl e => inl e
  | inr fbo1 =>
      match createFBO h2 w h fmt prm with
      | inl e => inl e
      | inr fbo2 =>
          inr (mkDoubleFBO w h (texelSizeX fbo1) (texelSizeY fbo1) fbo1 fbo2)
      end
  end.

(** What the base vertex shader hands to the fragment shader. *)
Record Varyings := mkVaryings {
  vUv : vec2; vL : vec2; vR : vec2; vT : vec2; vB : vec2
}.

(** [baseVertexShaderSource] (t.ts), at an interpolated quad position. *)
Definition baseVertexShader (texelSize : vec2) (aPosition : vec2) : Varyings :=
  let uv := add2 (scale2 (1 # 2) aPosition) (Vec2 (1 # 2) (1 # 2)) in
  mkVaryings uv
    (sub2 uv (Vec2 (x2 texelSize) 0))
    (add2 uv (Vec2 (x2 texelSize) 0))
    (add2 uv (Vec2 0 (y2 texelSize)))
    (sub2 uv (Vec2 0 (y2 texelSize))).

(** Clip-space coordinate of the centre of pixel [i] in a viewport of
    [n] pixels. *)
Definition pixelCentre (n : Q) (i : nat) : Q :=
  2 * ((inject_Z (Z.of_nat i) + (1 # 2)) / n) - 1.

(** The fragment of pixel [(i, j)] when the quad is drawn into [target]. *)
Definition fragment (target : IFBO) (texelSize : vec2) (i j : nat) : Varyings :=
  baseVertexShader texelSize
    (Vec2 (pixelCentre (width target) i) (pixelCentre (height target) j)).

(** [blit(target, clear)] with the bound program [frag] and its
    [texelSize] uniform: the viewport is set to the target, the target is
    optionally cleared, and the quad is drawn over all of it.  Blending is
    off, so clearing first does not change the result. *)
Definition blit (target : IFBO) (clear : bool)
           (texelSize : vec2) (frag : Varyings -> vec4) : IFBO :=
  set_pixels target
    (map (fun j => map (fun i => frag (fragment target texelSize i j))
                       (seq 0 (Z.to_nat (cols target))))
         (seq 0 (Z.to_nat (rows target)))).

(** ** Render-target formats *)

(** The sized formats [getSupportedFormat] distinguishes, and the others
    by their code. *)
Inductive InternalFormat := R16F | RG16F | RGBA16F | OtherInternalFormat (code : Z).

Inductive PixelFormat := RED | RG | RGBA | OtherPixelFormat (code : Z).

Record ISupportedFormat := mkSupportedFormat {
  sf_internalFormat : InternalFormat;
  sf_format : PixelFormat
}.

Section SupportedFormat.

(** [supportRenderTextureFormat] asks the context whether a framebuffer
    with such a texture is complete; [isWebGL2] is
    [glContext instanceof WebGL2RenderingContext]. *)
Variable supportRenderTextureFormat : InternalFormat -> PixelFormat -> Z -> bool.
Variable isWebGL2 : bool.

(** [getSupportedFormat], which calls itself on the next wider format;
    [fuel] bounds the depth of the calls. *)
Fixpoint getSupportedFormat_calls (fuel : nat) (internalFormat : InternalFormat)
         (format : PixelFormat) (type : Z) : option ISupportedFormat :=
  match fuel with
  | O => None
  | S k =>
      if negb (supportRenderTextureFormat internalFormat format type) then
        if isWebGL2 then
          match internalFormat with
          | R16F => getSupportedFormat_calls k RG16F RG type
          | RG16F => getSupportedFormat_calls k RGBA16F RGBA type
          | _ => None
          end
        else None
      else Some (mkSupportedFormat internalFormat format)
  end.

(** Three calls are the deepest chain: R16F, RG16F, RGBA16F. *)
Definition getSupportedFormat : InternalFormat -> PixelFormat -> Z -> option ISupportedFormat :=
  getSupportedFormat_calls 3.

End SupportedFormat.

End WebglUtils.
Import WebglUtils.

(** * t.ts: the fragment shaders *)

Module Shaders.

Section Builtins.

(** The GLSL built-ins that have no rational value in general. *)
Variable glsl_exp : Q -> Q.
Variable glsl_sqrt : Q -> Q.
Variable glsl_pow : Q -> Q -> Q.

Definition length2 (v : vec2) : Q := glsl_sqrt (dot2 v v).
Definition length3 (v : vec3) : Q := glsl_sqrt (dot3 v v).
Definition normalize2 (v : vec2) : vec2 := Vec2 (x2 v / length2 v) (y2 v / length2 v).
Definition normalize3 (v : vec3) : vec3 :=
  Vec3 (r3 v / length3 v) (g3 v / length3 v) (b3 v / length3 v).

(** [clearShaderSource] *)
Definition clearShader (uTexture : sampler2D) (value : Q) (v : Varyings) : vec4 :=
  let color := uTexture (vUv v) in
  Vec4 (r4 color * value) (g4 color * value) (b4 color * value) (a4 color).

(** [splatShaderSource].  The line [p.x *= aspectRatio] is commented out
    in the source, so the [aspectRatio] uniform is not used. *)
Definition splatShader (uTarget : sampler2D) (aspectRatio : Q) (color : vec3)
           (point : vec2) (radius : Q) (v : Varyings) : vec4 :=
  let p := sub2 (vUv v) point in
  let sqDist := dot2 p p in
  let safeRadiusSq := Qmax (radius * radius) 0.000001 in
  let splatValue := glsl_exp (- sqDist / safeRadiusSq) in
  let splat := scale3 splatValue color in
  let base := rgb (uTarget (vUv v)) in
  vec4_of3 (add3 base splat) 1.

(** [bilerp] of [advectionShaderSource] *)
Definition bilerp (sam : sampler2D) (uv tsize : vec2) : vec4 :=
  let st := Vec2 (x2 uv / x2 tsize - 0.5) (y2 uv / y2 tsize - 0.5) in
  let iuv := floor2 st in
  let fuv := fract2 st in
  let a := sam (mul2 (add2 iuv (Vec2 0.5 0.5)) tsize) in
  let b := sam (mul2 (add2 iuv (Vec2 1.5 0.5)) tsize) in
  let c := sam (mul2 (add2 iuv (Vec2 0.5 1.5)) tsize) in
  let d := sam (mul2 (add2 iuv (Vec2 1.5 1.5)) tsize) in
  mix4 (mix4 a b (x2 fuv)) (mix4 c d (x2 fuv)) (y2 fuv).

(** [advectionShaderSource]; [MANUAL_FILTERING] is its compile-time
    keyword. *)
Definition advectionShader (MANUAL_FILTERING : bool)
           (uVelocity uSource : sampler2D) (texelSize dyeTexelSize : vec2)
           (dt dissipation : Q) (v : Varyings) : vec4 :=
  let vel := xy (uVelocity (vUv v)) in
  let coord := sub2 (vUv v) (scale2 dt vel) in
  let result :=
    if MANUAL_FILTERING then
      let sourceTexelSize := dyeTexelSize in
      bilerp uSource coord sourceTexelSize
    else uSource coord in
  let decayFactor := 1 / (1 + dissipation * dt) in
  Vec4 (r4 result * decayFactor) (g4 result * decayFactor)
       (b4 result * decayFactor) (a4 result * decayFactor).

(** [divergenceShaderSource] *)
Definition divergenceShader (uVelocity : sampler2D) (v : Varyings) : vec4 :=
  let L := r4 (uVelocity (vL v)) in
  let R := r4 (uVelocity (vR v)) in
  let T := g4 (uVelocity (vT v)) in
  let B := g4 (uVelocity (vB v)) in
  let C := xy (uVelocity (vUv v)) in
  let eps := 0.01 in
  let L := if Qltb (x2 (vL v)) eps then x2 C else L in
  let R := if Qgtb (x2 (vR v)) (1.0 - eps) then x2 C else R in
  let B := if Qltb (y2 (vB v)) eps then y2 C else B in
  let T := if Qgtb (y2 (vT v)) (1.0 - eps) then y2 C else T in
  let div := 0.5 * (R - L + T - B) in
  Vec4 div 0 0 1.

(** [curlShaderSource] *)
Definition curlShader (uVelocity : sampler2D) (v : Varyings) : vec4 :=
  let L := g4 (uVelocity (vL v)) in
  let R := g4 (uVelocity (vR v)) in
  let T := r4 (uVelocity (vT v)) in
  let B := r4 (uVelocity (vB v)) in
  let vorticity := R - L - (T - B) in
  Vec4 (0.5 * vorticity) 0 0 1.

(** [vorticityShaderSource] *)
Definition vorticityShader (uVelocity uCurl : sampler2D) (curl dt : Q)
           (v : Varyings) : vec4 :=
  let L := r4 (uCurl (vL v)) in
  let R := r4 (uCurl (vR v)) in
  let T := r4 (uCurl (vT v)) in
  let B := r4 (uCurl (vB v)) in
  let C := r4 (uCurl (vUv v)) in
  let gradient := scale2 0.5 (Vec2 (Qabs R - Qabs L) (Qabs T - Qabs B)) in
  let N := normalize2 (add2 gradient (Vec2 1e-5 1e-5)) in
  let force := scale2 C (scale2 curl (Vec2 (y2 N) (- x2 N))) in
  let velocity := xy (uVelocity (vUv v)) in
  let velocity := add2 velocity (scale2 dt force) in
  vec4_of2 velocity 0 1.

(** [pressureShaderSource].  The four conditional assignments run in
    the order of the source, so [R = L] reads the [L] the first one may
    have replaced. *)
Definition pressureShader (uPressure uDivergence : sampler2D) (v : Varyings) : vec4 :=
  let L := r4 (uPressure (vL v)) in
  let R := r4 (uPressure (vR v)) in
  let T := r4 (uPressure (vT v)) in
  let B := r4 (uPressure (vB v)) in
  let divergence := r4 (uDivergence (vUv v)) in
  let eps := 0.01 in
  let L := if Qltb (x2 (vL v)) eps then R else L in
  let R := if Qgtb (x2 (vR v)) (1.0 - eps) then L else R in
  let B := if Qltb (y2 (vB v)) eps then T else B in
  let T := if Qgtb (y2 (vT v)) (1.0 - eps) then B else T in
  let pressure := (L + R + B + T - divergence) * 0.25 in
  Vec4 pressure 0 0 1.

(** [gradientSubtractShaderSource] *)
Definition gradientSubtractShader (uPressure uVelocity : sampler2D)
           (v : Varyings) : vec4 :=
  let L := r4 (uPressure (vL v)) in
  let R := r4 (uPressure (vR v)) in
  let T := r4 (uPressure (vT v)) in
  let B := r4 (uPressure (vB v)) in
  let gradient := scale2 0.5 (Vec2 (R - L) (T - B)) in
  let velocity := xy (uVelocity (vUv v)) in
  let velocity := sub2 velocity gradient in
  vec4_of2 velocity 0 1.

(** [bloomPrefilterShaderSource] *)
Definition bloomPrefilterShader (uTexture : sampler2D) (curve : vec3)
           (threshold : Q) (v : Varyings) : vec4 :=
  let c := rgb (uTexture (vUv v)) in
  let br := Qmax (r3 c) (Qmax (g3 c) (b3 c)) in
  let rq := clamp (br - r3 curve) 0 (g3 curve) in
  let rq := b3 curve * rq * rq in
  let c := scale3 (Qmax rq (step threshold br) / Qmax br 0.0001) c in
  vec4_of3 c 1.

(** [linearToGamma] of [displayShaderSource] *)
Definition linearToGamma (color : vec3) : vec3 :=
  let color := max3 color (Vec3 0 0 0) in
  let e := 1 / 2.4 in
  max3 (Vec3 (1.055 * glsl_pow (r3 color) e - 0.055)
             (1.055 * glsl_pow (g3 color) e - 0.055)
             (1.055 * glsl_pow (b3 color) e - 0.055))
       (Vec3 0 0 0).

(** [displayShaderSource]; [SHADING], [BLOOM] and [SUNRAYS] are its
    compile-time keywords. *)
Definition displayShader (SHADING BLOOM SUNRAYS : bool)
           (uTexture uBloom uSunrays uDithering : sampler2D)
           (ditherScale texelSize : vec2) (v : Varyings) : vec4 :=
  let c := rgb (uTexture (vUv v)) in
  let c :=
    if SHADING then
      let lc := rgb (uTexture (vL v)) in
      let rc := rgb (uTexture (vR v)) in
      let tc := rgb (uTexture (vT v)) in
      let bc := rgb (uTexture (vB v)) in
      let dx := length3 rc - length3 lc in
      let dy := length3 tc - length3 bc in
      let n := normalize3 (Vec3 dx dy (Qmax (length2 texelSize * 2.0) 0.0001)) in
      let l := normalize3 (Vec3 0 0 1) in
      let diffuse := clamp (dot3 n l * 0.3 + 0.7) 0.7 1.0 in
      scale3 diffuse c
    else c in
  let bloom := if BLOOM then rgb (uBloom (vUv v)) else Vec3 0 0 0 in
  let sunrays := r4 (uSunrays (vUv v)) in
  let c := if SUNRAYS then scale3 sunrays c else c in
  let bloom := if SUNRAYS && BLOOM then scale3 sunrays bloom else bloom in
  let c :=
    if BLOOM then
      let noise := r4 (uDithering (mul2 (vUv v) ditherScale)) in
      let noise := noise * 2.0 - 1.0 in
      let bloom := add3 bloom (Vec3 (noise / 255) (noise / 255) (noise / 255)) in
      let bloom := linearToGamma bloom in
      add3 c bloom
    else c in
  let a := Qmax (r3 c) (Qmax (g3 c) (b3 c)) in
  vec4_of3 c (clamp a 0.0 1.0).

End Builtins.


(** [checkerboardShaderSource]; [SCALE] is 25.0. *)
Definition checkerboardShader (aspectRatio : Q) (v : Varyings) : vec4 :=
  let uv := floor2 (Vec2 (x2 (vUv v) * 25.0 * aspectRatio) (y2 (vUv v) * 25.0 * 1.0)) in
  let v := modulo (x2 uv + y2 uv) 2.0 in
  let v := v * 0.1 + 0.8 in
  Vec4 v v v 1.0.

(** [sunraysMaskShaderSource] *)
Definition sunraysMaskShader (uTexture : sampler2D) (v : Varyings) : vec4 :=
  let c := uTexture (vUv v) in
  let br := Qmax (r4 c) (Qmax (g4 c) (b4 c)) in
  let maskValue := 1.0 - clamp (br * 20.0) 0.0 0.8 in
  Vec4 maskValue maskValue maskValue 1.0.

(** The ray-marching loop of [sunraysShaderSource], [n] iterations to go. *)
Fixpoint sunraysLoop (n : nat) (uTexture : sampler2D) (weight Decay : Q)
         (deltaTexCoord coord : vec2) (color illuminationDecay : Q) : Q :=
  match n with
  | O => color
  | S k =>
      let coord := sub2 coord deltaTexCoord in
      let sample := r4 (uTexture coord) in
      let color := color + sample * illuminationDecay * weight in
      let illuminationDecay := illuminationDecay * Decay in
      sunraysLoop k uTexture weight Decay deltaTexCoord coord color illuminationDecay
  end.

(** [sunraysShaderSource]; [ITERATIONS] is 16. *)
Definition sunraysShader (uTexture : sampler2D) (weight : Q) (v : Varyings) : vec4 :=
  let Density := 0.3 in
  let Decay := 0.95 in
  let Exposure := 0.7 in
  let coord := vUv v in
  let lightPos := Vec2 0.5 0.5 in
  let deltaTexCoord := sub2 coord lightPos in
  let deltaTexCoord := scale2 (1.0 / 16 * Density) deltaTexCoord in
  let illuminationDecay := 1.0 in
  let color := r4 (uTexture (vUv v)) in
  let color :=
    sunraysLoop 16 uTexture weight Decay deltaTexCoord coord color illuminationDecay in
  Vec4 (color * Exposure) 0.0 0.0 1.0.

End Shaders.
Import Shaders.

(** * fluidSimulation.ts *)

Module FluidSimulation.

Record IColor := mkColor { r : Q; g : Q; b : Q }.

Record IConfig := mkConfig {
  SIM_RESOLUTION : Q;
  DYE_RESOLUTION : Q;
  CAPTURE_RESOLUTION : Q;
  DENSITY_DISSIPATION : Q;
  VELOCITY_DISSIPATION : Q;
  PRESSURE : Q;
  PRESSURE_ITERATIONS : nat;   (* a loop bound: a non-negative integer *)
  CURL : Q;
  SPLAT_RADIUS : Q;
  SPLAT_FORCE : Q;
  SHADING : bool;
  COLORFUL : bool;
  COLOR_UPDATE_SPEED : Q;
  PAUSED : bool;
  BACK_COLOR : IColor;
  TRANSPARENT : bool;
  BLOOM : bool;
  BLOOM_ITERATIONS : nat;
  BLOOM_RESOLUTION : Q;
  BLOOM_INTENSITY : Q;
  BLOOM_THRESHOLD : Q;
  BLOOM_SOFT_KNEE : Q;
  SUNRAYS : bool;
  SUNRAYS_RESOLUTION : Q;
  SUNRAYS_WEIGHT : Q
}.

(** The exported [config] object, with its initial values. *)
Definition defaultConfig : IConfig :=
  mkConfig 128 1024 512 1.0 0.2 0.8 20 30 0.25 6000 true true 10 false
           (mkColor 0 0 0) false true 8 256 0.8 0.6 0.7 true 196 1.0.

(** What the simulation reads of the canvas element: its buffer size. *)
Record Canvas := mkCanvas { canvas_width : Z; canvas_height : Z }.

Definition aspectRatioOf (c : Canvas) : Q :=
  inject_Z (canvas_width c) / inject_Z (canvas_height c).

Record IPointer := mkPointer {
  id : Z;
  texcoordX : Q;
  texcoordY : Q;
  prevTexcoordX : Q;
  prevTexcoordY : Q;
  deltaX : Q;
  deltaY : Q;
  down : bool;
  moved : bool;
  color : list Q
}.

Definition set_moved (p : IPointer) (m : bool) : IPointer :=
  mkPointer (id p) (texcoordX p) (texcoordY p) (prevTexcoordX p) (prevTexcoordY p)
            (deltaX p) (deltaY p) (down p) m (color p).

Definition set_color (p : IPointer) (c : list Q) : IPointer :=
  mkPointer (id p) (texcoordX p) (texcoordY p) (prevTexcoordX p) (prevTexcoordY p)
            (deltaX p) (deltaY p) (down p) (moved p) c.

Record IResolution := mkResolution { res_width : Q; res_height : Q }.

(** One invocation of [splat], with its arguments. *)
Record SplatCall := mkSplatCall {
  splat_x : Q; splat_y : Q; splat_dx : Q; splat_dy : Q;
  splat_color : IColor; splat_radiusMultiplier : Q
}.

(** The module's state: the canvas reference, the configuration, the
    pointer registry, the splat stack and the framebuffers.  [glReady]
    says that [gl], [ext] and the compiled programs are all present.
    [randomCalls] counts the calls of [Math.random] made so far, and
    [splatCalls] records the invocations of [splat] in order; both are
    bookkeeping of the model. *)
Record State := mkState {
  canvas : option Canvas;
  config : IConfig;
  pointers : list IPointer;
  splatStack : list Z;
  dye : option IDoubleFBO;
  velocity : option IDoubleFBO;
  divergence : option IFBO;
  curl : option IFBO;
  pressure : option IDoubleFBO;
  glReady : bool;
  supportLinearFiltering : bool;
  randomCalls : nat;
  splatCalls : list SplatCall
}.

Definition set_pointers (s : State) (ps : list IPointer) : State :=
  mkState (canvas s) (config s) ps (splatStack s) (dye s) (velocity s)
          (divergence s) (curl s) (pressure s) (glReady s)
          (supportLinearFiltering s) (randomCalls s) (splatCalls s).

Definition set_splatStack (s : State) (st : list Z) : State :=
  mkState (canvas s) (config s) (pointers s) st (dye s) (velocity s)
          (divergence s) (curl s) (pressure s) (glReady s)
          (supportLinearFiltering s) (randomCalls s) (splatCalls s).

Definition set_fields (s : State) (d v : option IDoubleFBO)
           (dv c : option IFBO) (p : option IDoubleFBO) : State :=
  mkState (canvas s) (config s) (pointers s) (splatStack s) d v dv c p
          (glReady s) (supportLinearFiltering s) (randomCalls s) (splatCalls s).

Definition log_splat (s : State) (c : SplatCall) : State :=
  mkState (canvas s) (config s) (pointers s) (splatStack s) (dye s) (velocity s)
          (divergence s) (curl s) (pressure s) (glReady s)
          (supportLinearFiltering s) (randomCalls s) (splatCalls s ++ [c]).

Definition tick_random (s : State) : State :=
  mkState (canvas s) (config s) (pointers s) (splatStack s) (dye s) (velocity s)
          (divergence s) (curl s) (pressure s) (glReady s)
          (supportLinearFiltering s) (S (randomCalls s)) (splatCalls s).

(** ** Utilities *)

Definition HSVtoRGB (h s v : Q) : IColor :=
  let i := Math_floor (h * 6) in
  let f := h * 6 - inject_Z i in
  let p := v * (1 - s) in
  let q := v * (1 - f * s) in
  let t := v * (1 - (1 - f) * s) in
  match Z.rem i 6 with
  | 0%Z => mkColor v t p
  | 1%Z => mkColor q v p
  | 2%Z => mkColor p v t
  | 3%Z => mkColor p q v
  | 4%Z => mkColor t p v
  | 5%Z => mkColor v p q
  | _ => mkColor 0 0 0
  end.

(** The operator [%] on numbers: the quotient is truncated towards zero,
    so the remainder has the sign of the dividend. *)
Definition truncate (x : Q) : Z := if Qltb x 0 then Qceiling x else Qfloor x.

Definition remainder (a b : Q) : Q := a - b * inject_Z (truncate (a / b)).

Definition wrap (value min max : Q) : Q :=
  let range := max - min in
  if Qeq_bool range 0 then min
  else remainder (remainder (value - min) range + range) range + min.

Definition getResolution (cv : option Canvas) (resolution : Q) : IResolution :=
  match cv with
  | None => mkResolution resolution resolution
  | Some c =>
      let aspectRatio := aspectRatioOf c in
      let (width, height) :=
        if Qgtb aspectRatio 1
        then (inject_Z (Math_round (resolution * aspectRatio)),
              inject_Z (Math_round resolution))
        else (inject_Z (Math_round resolution),
              inject_Z (Math_round (resolution / aspectRatio))) in
      let width := Qmax width 1 in
      let height := Qmax height 1 in
      mkResolution width height
  end.

Definition correctRadius (cv : option Canvas) (radius : Q) : Q :=
  match cv with
  | None => radius
  | Some c =>
      let aspectRatio := aspectRatioOf c in
      if Qgtb aspectRatio 1 then radius * aspectRatio else radius
  end.

(** ** Framebuffer allocation (the part of [initFramebuffersAndEffects],
    [initBloomFramebuffers] and [initSunraysFramebuffers] that chooses the
    sizes handed to [createFBO]) *)

(** The sizes of the simulation, dye, bloom and sunrays textures. *)
Definition gridSizes (cv : option Canvas) (cfg : IConfig) : list IResolution :=
  [ getResolution cv (SIM_RESOLUTION cfg);
    getResolution cv (DYE_RESOLUTION cfg);
    getResolution cv (BLOOM_RESOLUTION cfg);
    getResolution cv (SUNRAYS_RESOLUTION cfg) ].

(** [ToInt32], which the operator [>>] applies to its left operand:
    truncate towards zero, then wrap into the signed 32-bit range. *)
Definition ToInt32 (x : Q) : Z :=
  let t := if Qltb x 0 then Qceiling x else Qfloor x in
  ((t + 2 ^ 31) mod 2 ^ 32 - 2 ^ 31)%Z.

(** The loop of [initBloomFramebuffers]: the sizes of the bloom chain,
    each half of the last one, until a side would fall below 2. *)
Fixpoint bloomChain (iterations : nat) (lastWidth lastHeight : Q) : list (Q * Q) :=
  match iterations with
  | O => []
  | S k =>
      let width := inject_Z (Z.shiftr (ToInt32 lastWidth) 1) in
      let height := inject_Z (Z.shiftr (ToInt32 lastHeight) 1) in
      if Qltb width 2 || Qltb height 2 then []
      else (width, height) :: bloomChain k width height
  end.

(** Every size [createFBO] is called with when the framebuffers are
    (re)created: the four grids and the bloom chain. *)
Definition allocationSizes (cv : option Canvas) (cfg : IConfig) : list (Q * Q) :=
  map (fun res => (res_width res, res_height res)) (gridSizes cv cfg)
  ++ (let res := getResolution cv (BLOOM_RESOLUTION cfg) in
      bloomChain (BLOOM_ITERATIONS cfg) (res_width res) (res_height res)).

Section Simulation.

Variable glsl_exp : Q -> Q.
Variable glsl_sqrt : Q -> Q.

(** [Math.random]: the [n]-th call returns [random n]. *)
Variable random : nat -> Q.

Definition Math_random (s : State) : Q * State :=
  (random (randomCalls s), tick_random s).

Definition generateColorHSV (s : State) : IColor * State :=
  let (h, s) := Math_random s in
  let c := HSVtoRGB h 1.0 1.0 in
  (mkColor (r c * 0.15) (g c * 0.15) (b c * 0.15), s).

(** Draw the bound program into [d.write], then [d.swap()]. *)
Definition drawAndSwap (d : IDoubleFBO) (clear : bool) (texelSize : vec2)
           (frag : Varyings -> vec4) : IDoubleFBO :=
  swap (set_write d (blit (write d) clear texelSize frag)).

(** ** Splatting *)

Definition splat (x y dx dy : Q) (color : IColor) (radiusMultiplier : Q)
           (s : State) : State :=
  let s := log_splat s (mkSplatCall x y dx dy color radiusMultiplier) in
  match canvas s, velocity s, dye s with
  | Some cv, Some velocity0, Some dye0 =>
      if negb (glReady s) then s else
      let aspectRatio := aspectRatioOf cv in
      let baseRadius := SPLAT_RADIUS (config s) / 100.0 in
      let correctedRadius := correctRadius (canvas s) baseRadius * radiusMultiplier in
      let velocity1 :=
        drawAndSwap velocity0 false (Vec2 0 0)
          (splatShader glsl_exp (attach (read velocity0)) aspectRatio
             (Vec3 dx dy 0.0) (Vec2 x y) correctedRadius) in
      let dye1 :=
        drawAndSwap dye0 false (Vec2 0 0)
          (splatShader glsl_exp (attach (read dye0)) aspectRatio
             (Vec3 (r color) (g color) (b color)) (Vec2 x y) correctedRadius) in
      set_fields s (Some dye1) (Some velocity1) (divergence s) (curl s) (pressure s)
  | _, _, _ => s
  end.

Definition splatPointer (pointer : IPointer) (s : State) : State :=
  let dx := deltaX pointer * SPLAT_FORCE (config s) in
  let dy := deltaY pointer * SPLAT_FORCE (config s) in
  let color := mkColor (nth 0 (color pointer) 0) (nth 1 (color pointer) 0)
                       (nth 2 (color pointer) 0) in
  splat (texcoordX pointer) (texcoordY pointer) dx dy color 1.0 s.

Fixpoint multipleSplats_loop (n : nat) (s : State) : State :=
  match n with
  | O => s
  | S k =>
      let (colorHSV, s) := generateColorHSV s in
      let color := mkColor (r colorHSV * 10.0) (g colorHSV * 10.0) (b colorHSV * 10.0) in
      let (x, s) := Math_random s in
      let (y, s) := Math_random s in
      let (rx, s) := Math_random s in
      let dx := 1000 * (rx - 0.5) in
      let (ry, s) := Math_random s in
      let dy := 1000 * (ry - 0.5) in
      multipleSplats_loop k (splat x y dx dy color 1.0 s)
  end.

Definition multipleSplats (amount : Z) (s : State) : State :=
  multipleSplats_loop (Z.to_nat amount) s.

(** ** Update colors *)

(** The [pointers.forEach] of [updateColors]: every pointer of the
    registry gets a fresh colour. *)
Fixpoint recolorPointers (ps : list IPointer) (s : State) : list IPointer * State :=
  match ps with
  | [] => ([], s)
  | p :: rest =>
      let (newColor, s) := generateColorHSV s in
      let p := set_color p [r newColor; g newColor; b newColor] in
      let (rest, s) := recolorPointers rest s in
      (p :: rest, s)
  end.

(** [updateColors]; [colorUpdateTimer] is the module variable it keeps,
    given and returned. *)
Definition updateColors (dt : Q) (colorUpdateTimer : Q) (s : State) : Q * State :=
  if negb (COLORFUL (config s)) then (colorUpdateTimer, s) else
  let colorUpdateTimer := colorUpdateTimer + dt * COLOR_UPDATE_SPEED (config s) in
  if Qle_bool 1.0 colorUpdateTimer then
    let colorUpdateTimer := wrap colorUpdateTimer 0.0 1.0 in
    let (ps, s) := recolorPointers (pointers s) s in
    (colorUpdateTimer, set_pointers s ps)
  else (colorUpdateTimer, s).

(** ** Apply inputs *)

(** [Array.prototype.pop]: the last element and the rest. *)
Definition pop (l : list Z) : option (Z * list Z) :=
  match rev l with
  | [] => None
  | x :: rest => Some (x, rev rest)
  end.

(** The callback of [pointers.forEach] in [applyInputs]: the pointer as it
    is left, and the state after the splat it may have drawn. *)
Definition applyPointer (p : IPointer) (s : State) : IPointer * State :=
  if moved p && down p then (set_moved p false, splatPointer p s)
  else if negb (down p) then (set_moved p false, s)
  else (p, s).

Fixpoint forEachPointer (ps : list IPointer) (s : State) : list IPointer * State :=
  match ps with
  | [] => ([], s)
  | p :: rest =>
      let (p', s1) := applyPointer p s in
      let (rest', s2) := forEachPointer rest s1 in
      (p' :: rest', s2)
  end.

(** The first statement of [applyInputs]: one pending burst, if any. *)
Definition applySplatStack (s : State) : State :=
  match pop (splatStack s) with
  | Some (amount, rest) => multipleSplats amount (set_splatStack s rest)
  | None => s
  end.

Definition applyInputs (s : State) : State :=
  let s := applySplatStack s in
  let (ps, s) := forEachPointer (pointers s) s in
  set_pointers s ps.

(** ** Simulation step *)

(** The body of the pressure loop, run [n] times. *)
Fixpoint pressureLoop (n : nat) (texelSize : vec2) (divergence0 : IFBO)
         (pressure0 : IDoubleFBO) : IDoubleFBO :=
  match n with
  | O => pressure0
  | S k =>
      pressureLoop k texelSize divergence0
        (drawAndSwap pressure0 true texelSize
           (pressureShader (attach (read pressure0)) (attach divergence0)))
  end.

Definition step (dt : Q) (s : State) : State :=
  match velocity s, curl s, divergence s, pressure s, dye s with
  | Some velocity0, Some curl0, Some divergence0, Some pressure0, Some dye0 =>
      if negb (glReady s) then s else
      let cfg := config s in
      let texelSize := Vec2 (dtexelSizeX velocity0) (dtexelSizeY velocity0) in
      (* 1. Curl *)
      let curl1 := blit curl0 true texelSize (curlShader (attach (read velocity0))) in
      (* 2. Vorticity *)
      let velocity1 :=
        drawAndSwap velocity0 true texelSize
          (vorticityShader glsl_sqrt (attach (read velocity0)) (attach curl1)
             (CURL cfg) dt) in
      (* 3. Divergence *)
      let divergence1 :=
        blit divergence0 true texelSize (divergenceShader (attach (read velocity1))) in
      (* 4. Pressure Init/Clear *)
      let pressure1 :=
        drawAndSwap pressure0 true (Vec2 0 0)
          (clearShader (attach (read pressure0)) (PRESSURE cfg)) in
      (* 5. Pressure Solve *)
      let pressure2 :=
        pressureLoop (PRESSURE_ITERATIONS cfg) texelSize divergence1 pressure1 in
      (* 6. Gradient Subtract *)
      let velocity2 :=
        drawAndSwap velocity1 true texelSize
          (gradientSubtractShader (attach (read pressure2)) (attach (read velocity1))) in
      (* 7. Advect Velocity *)
      let manual := negb (supportLinearFiltering s) in
      let velocity3 :=
        drawAndSwap velocity2 true texelSize
          (advectionShader manual (attach (read velocity2)) (attach (read velocity2))
             texelSize (if manual then texelSize else Vec2 0 0)
             dt (VELOCITY_DISSIPATION cfg)) in
      (* 8. Advect Dye *)
      let dye1 :=
        drawAndSwap dye0 true texelSize
          (advectionShader manual (attach (read velocity3)) (attach (read dye0))
             texelSize
             (if manual then Vec2 (dtexelSizeX dye0) (dtexelSizeY dye0) else Vec2 0 0)
             dt (DENSITY_DISSIPATION cfg)) in
      set_fields s (Some dye1) (Some velocity3) (Some divergence1) (Some curl1)
                 (Some pressure2)
  | _, _, _, _, _ => s
  end.

(** [n] frames of [step] with the same [dt], nothing else in between. *)
Fixpoint steps (n : nat) (dt : Q) (s : State) : State :=
  match n with
  | O => s
  | S k => steps k dt (step dt s)
  end.

End Simulation.

(** ** Bloom pre-filter pass of [applyBloom] *)

Definition applyBloom_prefilter (cfg : IConfig) (source destination : IFBO) : IFBO :=
  let knee := BLOOM_THRESHOLD cfg * BLOOM_SOFT_KNEE cfg + 1e-5 in
  let curve0 := BLOOM_THRESHOLD cfg - knee in
  let curve1 := knee * 2.0 in
  let curve2 := 0.25 / knee in
  blit destination true (Vec2 0 0)
    (bloomPrefilterShader (attach source) (Vec3 curve0 curve1 curve2)
       (BLOOM_THRESHOLD cfg)).

End FluidSimulation.
Import FluidSimulation.

(** * main.ts: pointer bookkeeping and the frame clock *)

Module Main.

Definition updatePointerDownData (cv : option Canvas) (pointer : IPointer)
           (id' : Z) (posX posY : Q) : IPointer :=
  match cv with
  | None => pointer
  | Some c =>
      let texcoordX' := posX / inject_Z (canvas_width c) in
      let texcoordY' := 1.0 - posY / inject_Z (canvas_height c) in
      mkPointer id' texcoordX' texcoordY' texcoordX' texcoordY' 0 0 true false
                (if negb (Nat.eqb (length (color pointer)) 3)
                 then [0.1; 0.1; 0.1] else color pointer)
  end.

Definition correctDeltaX (cv : option Canvas) (delta : Q) : Q :=
  match cv with
  | None => delta
  | Some c =>
      let aspectRatio := aspectRatioOf c in
      if Qltb aspectRatio 1 then delta * aspectRatio else delta
  end.

Definition correctDeltaY (cv : option Canvas) (delta : Q) : Q :=
  match cv with
  | None => delta
  | Some c =>
      let aspectRatio := aspectRatioOf c in
      if Qgtb aspectRatio 1 then delta / aspectRatio else delta
  end.

Definition updatePointerMoveData (cv : option Canvas) (pointer : IPointer)
           (posX posY : Q) : IPointer :=
  match cv with
  | None => pointer
  | Some c =>
      let prevTexcoordX' := texcoordX pointer in
      let prevTexcoordY' := texcoordY pointer in
      let texcoordX' := posX / inject_Z (canvas_width c) in
      let texcoordY' := 1.0 - posY / inject_Z (canvas_height c) in
      let deltaX0 := texcoordX' - prevTexcoordX' in
      let deltaY0 := texcoordY' - prevTexcoordY' in
      let deltaX' := correctDeltaX cv deltaX0 in
      let deltaY' := correctDeltaY cv deltaY0 in
      let moved' := Qgtb (Qabs deltaX') 1e-5 || Qgtb (Qabs deltaY') 1e-5 in
      mkPointer (id pointer) texcoordX' texcoordY' prevTexcoordX' prevTexcoordY'
                deltaX' deltaY' (down pointer) moved' (color pointer)
  end.

Definition updatePointerUpData (pointer : IPointer) : IPointer :=
  mkPointer (id pointer) (texcoordX pointer) (texcoordY pointer)
            (prevTexcoordX pointer) (prevTexcoordY pointer)
            (deltaX pointer) (deltaY pointer) false false (color pointer).

(** [calcDeltaTime]: [now] is what [Date.now()] returns (milliseconds);
    the result is the time step and the new [lastUpdateTime]. *)
Definition calcDeltaTime (now lastUpdateTime : Z) : Q * Z :=
  let dt := inject_Z (now - lastUpdateTime) / 1000.0 in
  let dt := Qmin dt 0.05 in
  (dt, now).

End Main.
Import Main.

(** * The display composite: fluidSimulation.ts [render], webglUtils.ts [blit]
    on the canvas *)

Module Rendering.








(** [texture.attach(id)] on the unit table: [activeTexture(TEXTURE0 + id)],
    [bindTexture]. *)
Definition bindUnit (units : nat -> sampler2D) (id : nat) (texture : sampler2D)
  : nat -> sampler2D :=
  fun u => if Nat.eqb u id then texture else units u.








(** A texture loaded from an image ([createTextureAsync]): its size and
    what sampling it returns (repeat wrapping, linear filter). *)
Record ITextureWrapper := mkTextureWrapper {
  wrapperWidth : Q;
  wrapperHeight : Q;
  wrapperTexture : sampler2D
}.

(** The display program: the keywords its fragment shader was compiled
    with ([currentDisplayKeywords]) and the values of its uniforms, a
    texture unit for each sampler. *)
Record DisplayProgram := mkDisplayProgram {
  keySHADING : bool;
  keyBLOOM : bool;
  keySUNRAYS : bool;
  uTexture : nat;
  uBloom : nat;
  uSunrays : nat;
  uDithering : nat;
  ditherScale : vec2;
  texelSize : vec2
}.

(** The module variables of fluidSimulation.ts that the final draw reads
    besides those of [State]. *)
Record RenderState := mkRenderState {
  bloom : option IFBO;
  sunrays : option IFBO;
  ditheringTexture : option ITextureWrapper;
  displayProgramInstance : option DisplayProgram
}.



Definition getTextureScale (texture : option ITextureWrapper) (width height : Q) : vec2 :=
  match texture with
  | None => Vec2 1.0 1.0
  | Some t =>
      if Qeq_bool (wrapperWidth t) 0 || Qeq_bool (wrapperHeight t) 0 then Vec2 1.0 1.0
      else Vec2 (width / wrapperWidth t) (height / wrapperHeight t)
  end.

Section Display.

Variable glsl_sqrt : Q -> Q.
Variable glsl_pow : Q -> Q -> Q.



(** The uniforms [drawDisplay] sets and the textures it attaches, before
    it draws: the program and the unit table as they are left. *)
Definition drawDisplay_uniforms (s : State) (rs : RenderState) (dye0 : IDoubleFBO)
           (program : DisplayProgram) (width height : Q) (units : nat -> sampler2D)
  : DisplayProgram * (nat -> sampler2D) :=
  let cfg := config s in
  let textureUnit := 0%nat in
  let units := bindUnit units textureUnit (attach (read dye0)) in
  let uTexture' := textureUnit in
  let textureUnit := S textureUnit in
  let texelSize' :=
    if SHADING cfg then Vec2 (1.0 / width) (1.0 / height) else texelSize program in
  let '(uBloom', uDithering', ditherScale', units, textureUnit) :=
    match BLOOM cfg, bloom rs, ditheringTexture rs with
    | true, Some bloom0, Some ditheringTexture0 =>
        let units := bindUnit units textureUnit (attach bloom0) in
        let uBloom' := textureUnit in
        let textureUnit := S textureUnit in
        let units := bindUnit units textureUnit (wrapperTexture ditheringTexture0) in
        let uDithering' := textureUnit in
        let textureUnit := S textureUnit in
        let scale := getTextureScale (Some ditheringTexture0) width height in
        (uBloom', uDithering', scale, units, textureUnit)
    | _, _, _ => (uBloom program, uDithering program, ditherScale program, units, textureUnit)
    end in
  let '(uSunrays', units) :=
    match SUNRAYS cfg, sunrays rs with
    | true, Some sunrays0 => (textureUnit, bindUnit units textureUnit (attach sunrays0))
    | _, _ => (uSunrays program, units)
    end in
  (mkDisplayProgram (keySHADING program) (keyBLOOM program) (keySUNRAYS program)
                    uTexture' uBloom' uSunrays' uDithering' ditherScale' texelSize',
   units).




End Display.

End Rendering.
Import Rendering.

(** * Specification-level definitions

    The quantities the properties below are stated with: the formulas the
    specification words, measures of a field, and small concrete states. *)

(** The arguments [splatPointer] calls [splat] with. *)
Definition pointerSplat (cfg : IConfig) (p : IPointer) : SplatCall :=
  mkSplatCall (texcoordX p) (texcoordY p)
              (deltaX p * SPLAT_FORCE cfg) (deltaY p * SPLAT_FORCE cfg)
              (mkColor (nth 0 (color p) 0) (nth 1 (color p) 0) (nth 2 (color p) 0)) 1.0.

(** The scale factor as the specification words it, for a given [epsilon]. *)
Definition prefilterScale_spec (threshold knee epsilon br : Q) : Q :=
  let curve_x := threshold - knee in
  let curve_y := 2 * knee in
  let curve_z := 0.25 / knee in
  let rq := curve_z * (clamp (br - curve_x) 0 curve_y * clamp (br - curve_x) 0 curve_y) in
  Qmax rq (br - threshold) / Qmax br epsilon.

(** The varyings of a fragment in the middle of a target whose texel size
    is 0.1. *)
Definition midFragment : Varyings :=
  mkVaryings (Vec2 0.5 0.5) (Vec2 0.4 0.5) (Vec2 0.6 0.5) (Vec2 0.5 0.6) (Vec2 0.5 0.4).





(** The contribution as the specification words it: the x-component of the
    offset [p] is scaled by the aspect ratio inside the shader. *)
Definition splatContribution_spec (glsl_exp : Q -> Q) (aspectRatio : Q) (p : vec2)
           (radius color : Q) : Q :=
  color * glsl_exp (- ((aspectRatio * x2 p) * (aspectRatio * x2 p) + y2 p * y2 p)
                    / (radius * radius)).

(** What a splat leaves in a field: every texel of [result] is the texel of
    [source] at the same place plus [color] times the Gaussian falloff of
    the unscaled offset from [(x, y)]. *)
Definition splatted (glsl_exp : Q -> Q) (target source : IFBO) (x y : Q)
           (color : vec3) (radius : Q) (result : IFBO) : Prop :=
  forall i j : nat,
    (Z.of_nat i < cols target)%Z -> (Z.of_nat j < rows target)%Z ->
    let uv := vUv (fragment target (Vec2 0 0) i j) in
    let p := sub2 uv (Vec2 x y) in
    let falloff :=
      glsl_exp (- (x2 p * x2 p + y2 p * y2 p) / Qmax (radius * radius) 0.000001) in
    let base := texture2D source uv in
    stored result i j
    = Vec4 (r4 base + falloff * r3 color) (g4 base + falloff * g3 color)
           (b4 base + falloff * b3 color) 1.

(** A texture of the simulation grid: [W] by [H] texels, nearest filter. *)
Definition simTexture (W H : Z) (f : IFBO) : Prop :=
  width f = inject_Z W /\ height f = inject_Z H /\ param f = NEAREST.

(** The red channel of a texel, as a sampler returns it. *)
Definition red (f : IFBO) (i j : Z) : Q := r4 (texel f i j).

(** The update of texel [(i, j)] of a [W] by [H] grid as the pressure
    shader computes it: a quarter of the four samples [L], [R], [B], [T] of
    the previous pressure [p] minus the divergence, where a sample whose
    coordinate lies within 0.01 of the border of the unit square is first
    replaced by the opposite one, in the order left, right, bottom, top. *)
Definition jacobiTexel (W H : Z) (div p : Z -> Z -> Q) (i j : Z) : Q :=
  let L := p (i - 1)%Z j in
  let R := p (i + 1)%Z j in
  let T := p i (j + 1)%Z in
  let B := p i (j - 1)%Z in
  let L := if Qltb ((inject_Z (i - 1) + (1 # 2)) / inject_Z W) 0.01 then R else L in
  let R := if Qgtb ((inject_Z (i + 1) + (1 # 2)) / inject_Z W) (1.0 - 0.01)
           then L else R in
  let B := if Qltb ((inject_Z (j - 1) + (1 # 2)) / inject_Z H) 0.01 then T else B in
  let T := if Qgtb ((inject_Z (j + 1) + (1 # 2)) / inject_Z H) (1.0 - 0.01)
           then B else T in
  (L + R + B + T - div i j) * 0.25.

(** The update of a whole field, read with edge clamping. *)
Definition jacobiField (W H : Z) (div p : Z -> Z -> Q) : Z -> Z -> Q :=
  fun i j => jacobiTexel W H div p (clampIndex i W) (clampIndex j H).

(** The update as the specification words it: a quarter of the four
    neighbours of the previous pressure minus the divergence, at every
    texel. *)
Definition jacobiTexel_spec (div p : Z -> Z -> Q) (i j : Z) : Q :=
  (p (i - 1)%Z j + p (i + 1)%Z j + p i (j - 1)%Z + p i (j + 1)%Z - div i j) / 4.

(** A texture of [W] by [H] texels with the given contents. *)
Definition textureOf (handle : nat) (W H : Z) (fmt : Format) (prm : Filter)
           (px : list (list vec4)) : IFBO :=
  mkFBO handle (inject_Z W) (inject_Z H) (1 / inject_Z W) (1 / inject_Z H) fmt prm px.

Definition pairOf (fbo1 fbo2 : IFBO) : IDoubleFBO :=
  mkDoubleFBO (width fbo1) (height fbo1) (texelSizeX fbo1) (texelSizeY fbo1) fbo1 fbo2.

(** A row of texels that hold a value in their first channel. *)
Definition scalarRow (l : list Q) : list vec4 := map (fun q => Vec4 q 0 0 1) l.

Definition blank (W H : nat) : list (list vec4) := repeat (repeat zero4 W) H.

(** The initial configuration with the simulation and dye resolutions
    lowered to 2. *)
Definition exampleConfig : IConfig :=
  mkConfig 2 2 512 1.0 0.2 0.8 20 30 0.25 6000 true true 10 false
           (mkColor 0 0 0) false true 8 256 0.8 0.6 0.7 true 196 1.0.

(** A state on a 200 x 100 canvas, whose simulation and dye grids are
    4 x 2, linear filtering supported; the velocity is uniform,
    [(-5/2, 0)], the dye has one bright texel, and the pressure field is
    [pressurePixels]. *)
Definition exampleState (pressurePixels : list (list vec4)) : State :=
  let uniform := repeat (repeat (Vec4 (- (5 # 2)) 0 0 1) 4) 2 in
  mkState (Some (mkCanvas 200 100)) exampleConfig
    [mkPointer (-1) 0 0 0 0 0 0 false false [0.1; 0.1; 0.1]] []
    (Some (pairOf (textureOf 1 4 2 FormatRGBA LINEAR
                     [[Vec4 1 0 0 1; zero4; zero4; zero4];
                      [zero4; zero4; zero4; zero4]])
                  (textureOf 2 4 2 FormatRGBA LINEAR (blank 4 2))))
    (Some (pairOf (textureOf 3 4 2 FormatRG LINEAR uniform)
                  (textureOf 4 4 2 FormatRG LINEAR (blank 4 2))))
    (Some (textureOf 5 4 2 FormatR NEAREST (blank 4 2)))
    (Some (textureOf 6 4 2 FormatR NEAREST (blank 4 2)))
    (Some (pairOf (textureOf 7 4 2 FormatR NEAREST pressurePixels)
                  (textureOf 8 4 2 FormatR NEAREST (blank 4 2))))
    true true 0 [].

(** The largest absolute value a texel holds in any channel. *)
Definition maxAbs4 (c : vec4) : Q :=
  Qmax (Qabs (r4 c)) (Qmax (Qabs (g4 c)) (Qmax (Qabs (b4 c)) (Qabs (a4 c)))).

(** The largest absolute value a texture holds: max |field|. *)
Definition maxAbs (f : IFBO) : Q :=
  fold_right (fun row m => fold_right (fun c m' => Qmax (maxAbs4 c) m') m row)
             0 (pixels f).

(** max |dye| of a state. *)
Definition dyeMax (s : State) : Q :=
  match dye s with
  | Some d => maxAbs (read d)
  | None => 0
  end.

(** The factor the advection shader multiplies by. *)
Definition decayFactor (dissipation dt : Q) : Q := 1 / (1 + dissipation * dt).

Fixpoint power (q : Q) (n : nat) : Q :=
  match n with
  | O => 1
  | S k => q * power q k
  end.

(** Every channel of a texel lies in [[-M, M]]. *)
Definition within (M : Q) (c : vec4) : Prop :=
  (- M <= r4 c <= M) /\ (- M <= g4 c <= M) /\ (- M <= b4 c <= M) /\ (- M <= a4 c <= M).

(** A state in which a step runs, with an RGBA dye pair. *)
Definition ready (s : State) : Prop :=
  exists vel cu dv p d,
    velocity s = Some vel /\ curl s = Some cu /\ divergence s = Some dv /\
    pressure s = Some p /\ dye s = Some d /\ glReady s = true /\
    format (read d) = FormatRGBA /\ format (write d) = FormatRGBA.

(** The sample the dye advection takes for a fragment: the dye at the
    back-traced coordinate [vUv - dt * velocity(vUv)], filtered by the
    hardware or by [bilerp]. *)
Definition backtraced (linear : bool) (v3 d : IDoubleFBO) (dt : Q) (v : Varyings) : vec4 :=
  let coord := sub2 (vUv v) (scale2 dt (xy (texture2D (read v3) (vUv v)))) in
  if linear then texture2D (read d) coord
  else bilerp (texture2D (read d)) coord (Vec2 (dtexelSizeX d) (dtexelSizeY d)).

(** Channel-wise equality of numbers. *)
Definition eq2 (a b : vec2) : Prop := x2 a == x2 b /\ y2 a == y2 b.
Definition eq4 (a b : vec4) : Prop :=
  r4 a == r4 b /\ g4 a == g4 b /\ b4 a == b4 b /\ a4 a == a4 b.

(** The initial configuration with a simulation resolution of 1 and a dye
    resolution of 2. *)
Definition driftConfig : IConfig :=
  mkConfig 1 2 512 1.0 0.2 0.8 20 30 0.25 6000 true true 10 false
           (mkColor 0 0 0) false true 8 256 0.8 0.6 0.7 true 196 1.0.

(** The dye and velocity pairs of [driftState]. *)
Definition driftDye : IDoubleFBO :=
  pairOf (textureOf 1 2 2 FormatRGBA NEAREST
            [[Vec4 2 0 0 1; Vec4 0 0 0 1]; [Vec4 0 0 0 1; Vec4 0 0 0 1]])
         (textureOf 2 2 2 FormatRGBA NEAREST (blank 2 2)).

Definition driftVelocity : IDoubleFBO :=
  pairOf (textureOf 3 1 1 FormatRG NEAREST [[Vec4 (-5.05) 0 0 1]])
         (textureOf 4 1 1 FormatRG NEAREST (blank 1 1)).

Definition driftPressure : IDoubleFBO :=
  pairOf (textureOf 7 1 1 FormatR NEAREST (blank 1 1))
         (textureOf 8 1 1 FormatR NEAREST (blank 1 1)).

(** A state on a square canvas without linear filtering: a 1 x 1 simulation
    grid whose velocity is [(-5.05, 0)], zero pressure, and a 2 x 2 dye grid
    (alpha 1 everywhere, as splats leave it) with one bright red texel of
    value 2, at the bottom left. *)
Definition driftState : State :=
  mkState (Some (mkCanvas 100 100)) driftConfig
    [mkPointer (-1) 0 0 0 0 0 0 false false [0.1; 0.1; 0.1]] []
    (Some driftDye) (Some driftVelocity)
    (Some (textureOf 5 1 1 FormatR NEAREST (blank 1 1)))
    (Some (textureOf 6 1 1 FormatR NEAREST (blank 1 1)))
    (Some driftPressure)
    true false 0 [].

(** The initial configuration with a simulation and dye resolution of 4. *)
Definition squareConfig : IConfig :=
  mkConfig 4 4 512 1.0 0.2 0.8 20 30 0.25 6000 true true 10 false
           (mkColor 0 0 0) false true 8 256 0.8 0.6 0.7 true 196 1.0.

Definition squarePressure : list (list vec4) :=
  [scalarRow [1; 2; 3; 4]; scalarRow [5; 6; 7; 8];
   scalarRow [9; 10; 11; 12]; scalarRow [13; 14; 15; 16]].

(** A state on a square canvas whose simulation and dye grids are 4 x 4:
    texel [(1, 1)] has its four neighbours, and their sample coordinates,
    0.125 and 0.625, are away from the border. *)
Definition squareState : State :=
  mkState (Some (mkCanvas 100 100)) squareConfig
    [mkPointer (-1) 0 0 0 0 0 0 false false [0.1; 0.1; 0.1]] []
    (Some (pairOf (textureOf 1 4 4 FormatRGBA LINEAR (blank 4 4))
                  (textureOf 2 4 4 FormatRGBA LINEAR (blank 4 4))))
    (Some (pairOf (textureOf 3 4 4 FormatRG LINEAR (blank 4 4))
                  (textureOf 4 4 4 FormatRG LINEAR (blank 4 4))))
    (Some (textureOf 5 4 4 FormatR NEAREST (blank 4 4)))
    (Some (textureOf 6 4 4 FormatR NEAREST (blank 4 4)))
    (Some (pairOf (textureOf 7 4 4 FormatR NEAREST squarePressure)
                  (textureOf 8 4 4 FormatR NEAREST (blank 4 4))))
    true true 0 [].

(** A field that is zero except for the value [v] at texel [(i0, j0)]. *)
Definition pointField (W H i0 j0 : nat) (v : Q) : list (list vec4) :=
  map (fun j => map (fun i => if Nat.eqb i i0 && Nat.eqb j j0
                              then Vec4 v 0 0 1 else zero4)
                    (seq 0 W))
      (seq 0 H).

(** The initial configuration with one pressure iteration per step and a
    dye resolution of 2. *)
Definition borderConfig : IConfig :=
  mkConfig 128 2 512 1.0 0.2 0.8 1 30 0.25 6000 true true 10 false
           (mkColor 0 0 0) false true 8 256 0.8 0.6 0.7 true 196 1.0.

Definition borderPressure : IDoubleFBO :=
  pairOf (textureOf 7 128 128 FormatR NEAREST (pointField 128 128 0 5 4))
         (textureOf 8 128 128 FormatR NEAREST (blank 128 128)).

(** A state on a square canvas with the 128 x 128 simulation grid of the
    initial configuration: the fluid is at rest, and the pressure is zero
    except for the value 4 at texel [(0, 5)], on the left border. *)
Definition borderState : State :=
  mkState (Some (mkCanvas 512 512)) borderConfig
    [mkPointer (-1) 0 0 0 0 0 0 false false [0.1; 0.1; 0.1]] []
    (Some (pairOf (textureOf 1 2 2 FormatRGBA LINEAR (blank 2 2))
                  (textureOf 2 2 2 FormatRGBA LINEAR (blank 2 2))))
    (Some (pairOf (textureOf 3 128 128 FormatRG LINEAR (blank 128 128))
                  (textureOf 4 128 128 FormatRG LINEAR (blank 128 128))))
    (Some (textureOf 5 128 128 FormatR NEAREST (blank 128 128)))
    (Some (textureOf 6 128 128 FormatR NEAREST (blank 128 128)))
    (Some borderPressure)
    true true 0 [].





(** ** Further quantities *)

(** A splat of a random burst: a position in the unit square, a velocity in
    [[-500, 500)] in each direction, a colour with channels in [[0, 1.5]],
    and the radius multiplier 1. *)
Definition burstSplat (c : SplatCall) : Prop :=
  (0 <= splat_x c /\ splat_x c < 1) /\ (0 <= splat_y c /\ splat_y c < 1) /\
  (-500 <= splat_dx c /\ splat_dx c < 500) /\
  (-500 <= splat_dy c /\ splat_dy c < 500) /\
  (0 <= r (splat_color c) /\ r (splat_color c) <= 1.5) /\
  (0 <= g (splat_color c) /\ g (splat_color c) <= 1.5) /\
  (0 <= b (splat_color c) /\ b (splat_color c) <= 1.5) /\
  splat_radiusMultiplier c = 1.0.

(** A pointer colour as [updateColors] sets it: three channels in
    [[0, 0.15]]. *)
Definition dimColor (c : list Q) : Prop :=
  exists x y z, c = [x; y; z] /\
    (0 <= x /\ x <= 0.15) /\ (0 <= y /\ y <= 0.15) /\ (0 <= z /\ z <= 0.15).

(** A field whose sampler returns [c] in its first channel everywhere. *)
Definition uniformRed (f : IFBO) (c : Q) : Prop :=
  forall uv, r4 (texture2D f uv) == c.

(** A velocity field that is zero wherever it is sampled. *)
Definition atRest (f : IFBO) : Prop :=
  forall uv, r4 (texture2D f uv) == 0 /\ g4 (texture2D f uv) == 0.

(** A texture of [W] by [H] texels. *)
Definition grid (W H : Z) (f : IFBO) : Prop :=
  width f = inject_Z W /\ height f = inject_Z H.

(** A state at rest on a square canvas, with 2 x 2 simulation and dye
    grids: zero velocity, a pressure of 1 everywhere, and a dye with one
    bright texel at the bottom left. *)
Definition restState : State :=
  mkState (Some (mkCanvas 100 100)) exampleConfig
    [mkPointer (-1) 0 0 0 0 0 0 false false [0.1; 0.1; 0.1]] []
    (Some (pairOf (textureOf 1 2 2 FormatRGBA LINEAR
                     [[Vec4 1 (1 # 2) 0 1; zero4]; [zero4; zero4]])
                  (textureOf 2 2 2 FormatRGBA LINEAR (blank 2 2))))
    (Some (pairOf (textureOf 3 2 2 FormatRG LINEAR (blank 2 2))
                  (textureOf 4 2 2 FormatRG LINEAR (blank 2 2))))
    (Some (textureOf 5 2 2 FormatR NEAREST (blank 2 2)))
    (Some (textureOf 6 2 2 FormatR NEAREST (blank 2 2)))
    (Some (pairOf (textureOf 7 2 2 FormatR NEAREST [scalarRow [1; 1]; scalarRow [1; 1]])
                  (textureOf 8 2 2 FormatR NEAREST (blank 2 2))))
    true true 0 [].

(** [1 + q + ... + q^(n-1)]. *)
Fixpoint geometricSum (q : Q) (n : nat) : Q :=
  match n with
  | O => 0
  | S k => 1 + q * geometricSum q k
  end.

(** The number of channels of a sized format the simulation asks for. *)
Definition channels (f : InternalFormat) : nat :=
  match f with
  | R16F => 1
  | RG16F => 2
  | RGBA16F => 4
  | OtherInternalFormat _ => 0
  end.

(** * Properties *)

(** ** Boolean comparisons *)

Lemma Qltb_lt (x y : Q) : Qltb x y = true <-> x < y.
Proof.
  unfold Qltb. rewrite negb_true_iff, <- not_true_iff_false, Qle_bool_iff.
  split; intro H; [apply Qnot_le_lt | apply Qlt_not_le]; exact H.
Qed.

Lemma Qltb_ge (x y : Q) : Qltb x y = false <-> y <= x.
Proof.
  unfold Qltb. rewrite negb_false_iff. apply Qle_bool_iff.
Qed.

Lemma Qgtb_gt (x y : Q) : Qgtb x y = true <-> y < x.
Proof. apply Qltb_lt. Qed.

Lemma Qgtb_le (x y : Q) : Qgtb x y = false <-> x <= y.
Proof. apply Qltb_ge. Qed.

Lemma Qltb_comp : Proper (Qeq ==> Qeq ==> eq) Qltb.
Proof.
  intros x x' Hx y y' Hy.
  destruct (Qltb x y) eqn:E, (Qltb x' y') eqn:E'; try reflexivity.
  - apply Qltb_lt in E. apply Qltb_ge in E'. rewrite Hx, Hy in E. lra.
  - apply Qltb_ge in E. apply Qltb_lt in E'. rewrite Hx, Hy in E. lra.
Qed.

(** ** The frame clock (main.ts) *)

(** A clock that steps back one second between two frames gives a negative
    time step. *)
Lemma calcDeltaTime_negative_dt :
  ~ (0 <= fst (calcDeltaTime 1000 2000) <= 0.05).
Proof.
  vm_compute. intros [H _]. apply H. reflexivity.
Qed.

(** C3 (amended): [calcDeltaTime] bounds the time step from above only.
    The step is [min(raw, 0.05)], so it never exceeds 0.05 s; when the clock
    has not gone backwards it lies in [[0, 0.05]]; a raw 0 stays 0, a raw
    0.06 becomes 0.05, and a negative raw value is returned as it is. *)
Theorem calcDeltaTime_upper_clamp (now lastUpdateTime : Z) :
  let raw := inject_Z (now - lastUpdateTime) / 1000.0 in
  let dt := fst (calcDeltaTime now lastUpdateTime) in
  snd (calcDeltaTime now lastUpdateTime) = now /\
  dt == Qmin raw 0.05 /\
  dt <= 0.05 /\
  ((lastUpdateTime <= now)%Z -> 0 <= dt <= 0.05) /\
  (raw == 0 -> dt == 0) /\
  (raw == 0.06 -> dt == 0.05) /\
  (raw < 0 -> dt == raw).
Proof.
  cbv zeta. unfold calcDeltaTime. cbn [fst snd].
  set (raw := inject_Z (now - lastUpdateTime) / 1000.0).
  split; [reflexivity|]. split; [reflexivity|].
  split; [apply Q.le_min_r|].
  split; [|split; [|split]].
  - intro Hle. split; [|apply Q.le_min_r].
    apply Q.min_glb; [|lra].
    unfold raw. apply Qle_shift_div_l; [lra|].
    rewrite Qmult_0_l. change 0 with (inject_Z 0). rewrite <- Zle_Qle. lia.
  - intro H0. rewrite H0. reflexivity.
  - intro H6. rewrite H6. reflexivity.
  - intro Hneg. apply Q.min_l. lra.
Qed.

Lemma calcDeltaTime_upper_clamp_witness :
  0 <= fst (calcDeltaTime 1060 1000) <= 0.05 /\
  fst (calcDeltaTime 1060 1000) == 0.05.
Proof.
  pose proof (calcDeltaTime_upper_clamp 1060 1000) as H. cbv zeta in H.
  destruct H as (_ & _ & _ & Hrange & _ & H6 & _).
  split.
  - apply Hrange. lia.
  - apply H6. reflexivity.
Defined.

(** ** Pointer moves (main.ts) *)

Lemma Qlt_div_iff (a b c : Q) : 0 < c -> (a < b / c <-> a * c < b).
Proof.
  intro Hc. split; intro H.
  - apply (Qmult_lt_r _ _ c) in H; [|exact Hc].
    setoid_replace (b / c * c) with b in H by (field; lra). exact H.
  - apply Qlt_shift_div_l; assumption.
Qed.

Lemma Qdiv_lt_iff (a b c : Q) : 0 < c -> (b / c < a <-> b < a * c).
Proof.
  intro Hc. split; intro H.
  - apply (Qmult_lt_r _ _ c) in H; [|exact Hc].
    setoid_replace (b / c * c) with b in H by (field; lra). exact H.
  - apply Qlt_shift_div_r; assumption.
Qed.

Lemma inject_Z_pos (z : Z) : (0 < z)%Z -> 0 < inject_Z z.
Proof. intro H. change 0 with (inject_Z 0). rewrite <- Zlt_Qlt. exact H. Qed.

Lemma aspect_gt_1 (c : Canvas) :
  (0 < canvas_height c)%Z ->
  (Qgtb (aspectRatioOf c) 1 = true <-> (canvas_height c < canvas_width c)%Z).
Proof.
  intro Hh. rewrite Qgtb_gt. unfold aspectRatioOf.
  rewrite Qlt_div_iff by (apply inject_Z_pos; exact Hh).
  rewrite Qmult_1_l, <- Zlt_Qlt. reflexivity.
Qed.

Lemma aspect_lt_1 (c : Canvas) :
  (0 < canvas_height c)%Z ->
  (Qltb (aspectRatioOf c) 1 = true <-> (canvas_width c < canvas_height c)%Z).
Proof.
  intro Hh. rewrite Qltb_lt. unfold aspectRatioOf.
  rewrite Qdiv_lt_iff by (apply inject_Z_pos; exact Hh).
  rewrite Qmult_1_l, <- Zlt_Qlt. reflexivity.
Qed.

(** On a 150000 x 150000 surface, a pointer pressed at pixel (0, 0) and
    moved to pixel (1, 1) has [|deltaX| + |deltaY| > 1e-5], yet [moved] is
    false: each delta alone is below the threshold. *)
Lemma moved_is_not_the_sum_test :
  let cv := mkCanvas 150000 150000 in
  let p0 := updatePointerDownData (Some cv)
              (mkPointer (-1) 0 0 0 0 0 0 false false [0.1; 0.1; 0.1]) (-1) 0 0 in
  let p1 := updatePointerMoveData (Some cv) p0 1 1 in
  1e-5 < Qabs (deltaX p1) + Qabs (deltaY p1) /\ moved p1 = false.
Proof.
  vm_compute. split; reflexivity.
Qed.

(** A pointer whose [moved] flag is false draws nothing in [applyInputs]. *)
Lemma applyPointer_not_moved glsl_exp (p : IPointer) (s : State) :
  moved p = false -> snd (applyPointer glsl_exp p s) = s.
Proof.
  intro Hm. unfold applyPointer. rewrite Hm. cbn.
  destruct (down p); reflexivity.
Qed.

(** C4 (amended): after a pointer move, [moved] is true exactly when
    [|deltaX| > 1e-5] or [|deltaY| > 1e-5], the deltas being the
    aspect-corrected ones; a pointer whose new position equals its previous
    one has [moved = false], and [applyInputs] draws no splat for it. *)
Theorem updatePointerMoveData_moved (cv : Canvas) (p : IPointer) (posX posY : Q) :
  let p' := updatePointerMoveData (Some cv) p posX posY in
  (moved p' = true <-> 1e-5 < Qabs (deltaX p') \/ 1e-5 < Qabs (deltaY p')) /\
  (texcoordX p' == prevTexcoordX p' -> texcoordY p' == prevTexcoordY p' ->
   moved p' = false /\
   forall glsl_exp s, snd (applyPointer glsl_exp p' s) = s).
Proof.
  cbv zeta. unfold updatePointerMoveData. cbn [moved deltaX deltaY texcoordX texcoordY
    prevTexcoordX prevTexcoordY].
  split.
  - rewrite orb_true_iff, !Qgtb_gt. reflexivity.
  - intros Hx Hy.
    assert (Hm : Qgtb (Qabs (correctDeltaX (Some cv)
                   (posX / inject_Z (canvas_width cv) - texcoordX p))) 1e-5
                 || Qgtb (Qabs (correctDeltaY (Some cv)
                   (1.0 - posY / inject_Z (canvas_height cv) - texcoordY p))) 1e-5 = false).
    { apply orb_false_iff. split; apply Qgtb_le.
      - unfold correctDeltaX. destruct (Qltb (aspectRatioOf cv) 1).
        + setoid_replace (posX / inject_Z (canvas_width cv) - texcoordX p) with 0 by lra.
          rewrite Qmult_0_l. discriminate.
        + setoid_replace (posX / inject_Z (canvas_width cv) - texcoordX p) with 0 by lra.
          discriminate.
      - unfold correctDeltaY. destruct (Qgtb (aspectRatioOf cv) 1).
        + setoid_replace (1.0 - posY / inject_Z (canvas_height cv) - texcoordY p)
            with 0 by lra.
          unfold Qdiv. rewrite Qmult_0_l. discriminate.
        + setoid_replace (1.0 - posY / inject_Z (canvas_height cv) - texcoordY p)
            with 0 by lra.
          discriminate. }
    split; [exact Hm|].
    intros glsl_exp s. apply applyPointer_not_moved. exact Hm.
Qed.

Lemma updatePointerMoveData_moved_witness :
  let cv := mkCanvas 640 480 in
  let p0 := mkPointer (-1) (1 # 2) (1 # 2) 0 0 0 0 true false [0.1; 0.1; 0.1] in
  let p' := updatePointerMoveData (Some cv) p0 320 240 in
  moved p' = false /\ forall glsl_exp s, snd (applyPointer glsl_exp p' s) = s.
Proof.
  cbv zeta.
  apply (updatePointerMoveData_moved (mkCanvas 640 480)
           (mkPointer (-1) (1 # 2) (1 # 2) 0 0 0 0 true false [0.1; 0.1; 0.1]) 320 240);
    vm_compute; reflexivity.
Defined.

(** A ratio of an integer to a pixel count below 100000 is either zero or
    larger than 1e-5 in absolute value. *)
Lemma pixel_ratio_zero_or_large (n D : Z) :
  (0 < D < 100000)%Z ->
  inject_Z n / inject_Z D == 0 \/ 1e-5 < Qabs (inject_Z n / inject_Z D).
Proof.
  intros [HD0 HD1]. change 1e-5 with 0.00001.
  assert (Hd : 0 < inject_Z D) by (apply inject_Z_pos; exact HD0).
  assert (Hd1 : inject_Z D < 100000).
  { change 100000 with (inject_Z 100000). rewrite <- Zlt_Qlt. exact HD1. }
  destruct (Z.lt_trichotomy n 0) as [Hn | [Hn | Hn]].
  - right.
    assert (Hq : inject_Z n <= -1).
    { change (-1) with (inject_Z (-1)). rewrite <- Zle_Qle. lia. }
    assert (Hneg : inject_Z n / inject_Z D < - 0.00001).
    { apply Qlt_shift_div_r; [exact Hd | lra]. }
    rewrite Qabs_neg by lra. lra.
  - left. subst n. unfold Qdiv. apply Qmult_0_l.
  - right.
    assert (Hq : 1 <= inject_Z n).
    { change 1 with (inject_Z 1). rewrite <- Zle_Qle. lia. }
    assert (Hpos : 0.00001 < inject_Z n / inject_Z D).
    { apply Qlt_shift_div_l; [exact Hd | lra]. }
    rewrite Qabs_pos by lra. exact Hpos.
Qed.

(** For pointer positions in whole pixels on a surface smaller than 100000
    pixels each way, the test of [updatePointerMoveData] and the test on the
    sum of the absolute deltas agree. *)
Lemma moved_agrees_on_pixel_positions (cv : Canvas) (p : IPointer) (a b a' b' : Z) :
  (0 < canvas_width cv < 100000)%Z -> (0 < canvas_height cv < 100000)%Z ->
  texcoordX p == inject_Z a / inject_Z (canvas_width cv) ->
  texcoordY p == 1.0 - inject_Z b / inject_Z (canvas_height cv) ->
  let p' := updatePointerMoveData (Some cv) p (inject_Z a') (inject_Z b') in
  moved p' = true <-> 1e-5 < Qabs (deltaX p') + Qabs (deltaY p').
Proof.
  intros [HW0 HW1] [HH0 HH1] Hx Hy. cbv zeta.
  pose proof (inject_Z_pos _ HW0) as Hw. pose proof (inject_Z_pos _ HH0) as Hh.
  assert (Hm : moved (updatePointerMoveData (Some cv) p (inject_Z a') (inject_Z b')) = true
               <-> 1e-5 < Qabs (deltaX (updatePointerMoveData (Some cv) p
                                          (inject_Z a') (inject_Z b')))
                   \/ 1e-5 < Qabs (deltaY (updatePointerMoveData (Some cv) p
                                             (inject_Z a') (inject_Z b')))).
  { unfold updatePointerMoveData. cbn [moved deltaX deltaY].
    rewrite orb_true_iff, !Qgtb_gt. reflexivity. }
  rewrite Hm. clear Hm.
  set (p' := updatePointerMoveData (Some cv) p (inject_Z a') (inject_Z b')).
  assert (Ex : exists D, (0 < D < 100000)%Z /\
                         deltaX p' == inject_Z (a' - a) / inject_Z D).
  { unfold p', updatePointerMoveData, correctDeltaX. cbn [deltaX].
    destruct (Qltb (aspectRatioOf cv) 1).
    - exists (canvas_height cv). split; [lia|]. unfold aspectRatioOf.
      rewrite Hx. unfold Z.sub. rewrite inject_Z_plus, inject_Z_opp. field. lra.
    - exists (canvas_width cv). split; [lia|].
      rewrite Hx. unfold Z.sub. rewrite inject_Z_plus, inject_Z_opp. field. lra. }
  assert (Ey : exists D, (0 < D < 100000)%Z /\
                         deltaY p' == inject_Z (b - b') / inject_Z D).
  { unfold p', updatePointerMoveData, correctDeltaY. cbn [deltaY].
    destruct (Qgtb (aspectRatioOf cv) 1).
    - exists (canvas_width cv). split; [lia|]. unfold aspectRatioOf.
      rewrite Hy. unfold Z.sub. rewrite inject_Z_plus, inject_Z_opp. field. lra.
    - exists (canvas_height cv). split; [lia|].
      rewrite Hy. unfold Z.sub. rewrite inject_Z_plus, inject_Z_opp. field. lra. }
  destruct Ex as (Dx & HDx & Edx). destruct Ey as (Dy & HDy & Edy).
  pose proof (pixel_ratio_zero_or_large (a' - a) Dx HDx) as Cx.
  pose proof (pixel_ratio_zero_or_large (b - b') Dy HDy) as Cy.
  rewrite <- Edx in Cx. rewrite <- Edy in Cy.
  pose proof (Qabs_nonneg (deltaX p')). pose proof (Qabs_nonneg (deltaY p')).
  change 1e-5 with 0.00001 in *.
  split.
  - intros [Hl | Hl]; lra.
  - intro Hs. destruct Cx as [Zx | Lx]; [|left; exact Lx].
    destruct Cy as [Zy | Ly]; [|right; exact Ly].
    exfalso. rewrite Zx, Zy in Hs. revert Hs. vm_compute. discriminate.
Qed.

(** On a 200 x 100 surface (aspect ratio 2), a move from pixel (0, 0) to
    pixel (100, 50) has raw deltas (0.5, -0.5).  The code leaves [deltaX] at
    0.5 and halves [deltaY]; it does not scale [deltaX] by the aspect ratio
    and leave [deltaY] alone. *)
Lemma wide_surface_scales_deltaY :
  let cv := mkCanvas 200 100 in
  let p0 := updatePointerDownData (Some cv)
              (mkPointer (-1) 0 0 0 0 0 0 false false [0.1; 0.1; 0.1]) (-1) 0 0 in
  let p1 := updatePointerMoveData (Some cv) p0 100 50 in
  let rawX := texcoordX p1 - prevTexcoordX p1 in
  let rawY := texcoordY p1 - prevTexcoordY p1 in
  deltaX p1 == 0.5 /\ deltaY p1 == -0.25 /\
  ~ (deltaX p1 == rawX * aspectRatioOf cv) /\ ~ (deltaY p1 == rawY).
Proof.
  vm_compute. repeat split; discriminate.
Qed.

(** C5 (amended): the raw delta [current - previous] is corrected as
    follows.  On a surface wider than tall, [deltaY] is divided by the aspect
    ratio and [deltaX] is the raw delta; on a surface taller than wide,
    [deltaX] is multiplied by the aspect ratio and [deltaY] is the raw delta;
    on a square surface both are the raw deltas. *)
Theorem updatePointerMoveData_aspect (cv : Canvas) (p : IPointer) (posX posY : Q) :
  (0 < canvas_width cv)%Z -> (0 < canvas_height cv)%Z ->
  let p' := updatePointerMoveData (Some cv) p posX posY in
  let aspectRatio := inject_Z (canvas_width cv) / inject_Z (canvas_height cv) in
  let rawX := texcoordX p' - prevTexcoordX p' in
  let rawY := texcoordY p' - prevTexcoordY p' in
  prevTexcoordX p' = texcoordX p /\ prevTexcoordY p' = texcoordY p /\
  texcoordX p' = posX / inject_Z (canvas_width cv) /\
  texcoordY p' = 1.0 - posY / inject_Z (canvas_height cv) /\
  ((canvas_height cv < canvas_width cv)%Z ->
     deltaX p' = rawX /\ deltaY p' = rawY / aspectRatio) /\
  ((canvas_width cv < canvas_height cv)%Z ->
     deltaX p' = rawX * aspectRatio /\ deltaY p' = rawY) /\
  (canvas_width cv = canvas_height cv ->
     deltaX p' = rawX /\ deltaY p' = rawY).
Proof.
  intros Hw Hh. cbv zeta. unfold updatePointerMoveData.
  cbn [deltaX deltaY texcoordX texcoordY prevTexcoordX prevTexcoordY].
  unfold correctDeltaX, correctDeltaY.
  pose proof (aspect_gt_1 cv Hh) as Hgt. pose proof (aspect_lt_1 cv Hh) as Hlt.
  fold (aspectRatioOf cv).
  repeat (split; [reflexivity|]).
  destruct (Qgtb (aspectRatioOf cv) 1) eqn:Eg, (Qltb (aspectRatioOf cv) 1) eqn:El;
    repeat split; try reflexivity; intros;
    try (exfalso;
         first [ assert (canvas_height cv < canvas_width cv)%Z by (apply Hgt; reflexivity)
               | assert (true = false) by (symmetry; apply Hgt; assumption)
               | idtac ];
         first [ assert (canvas_width cv < canvas_height cv)%Z by (apply Hlt; reflexivity)
               | assert (true = false) by (symmetry; apply Hlt; assumption)
               | idtac ];
         first [ lia | discriminate ]).
Qed.

Lemma updatePointerMoveData_aspect_witness :
  let cv := mkCanvas 200 100 in
  let p0 := mkPointer (-1) 0 1 0 1 0 0 true false [0.1; 0.1; 0.1] in
  let p' := updatePointerMoveData (Some cv) p0 100 50 in
  deltaX p' = texcoordX p' - prevTexcoordX p' /\
  deltaY p' = (texcoordY p' - prevTexcoordY p') / (inject_Z 200 / inject_Z 100).
Proof.
  cbv zeta.
  apply (updatePointerMoveData_aspect (mkCanvas 200 100)
           (mkPointer (-1) 0 1 0 1 0 0 true false [0.1; 0.1; 0.1]) 100 50);
    cbn; lia.
Defined.

(** ** Texture sizes (fluidSimulation.ts, webglUtils.ts) *)

Lemma createFBO_accepts (handle : nat) (w h : Q) (fmt : Format) (prm : Filter) :
  1 <= w -> 1 <= h -> exists fbo, createFBO handle w h fmt prm = inr fbo.
Proof.
  intros Hw Hh. unfold createFBO.
  assert (Ew : Qle_bool w 0 = false).
  { apply not_true_iff_false. rewrite Qle_bool_iff. lra. }
  assert (Eh : Qle_bool h 0 = false).
  { apply not_true_iff_false. rewrite Qle_bool_iff. lra. }
  rewrite Ew, Eh. cbn. eexists. reflexivity.
Qed.

Lemma getResolution_ge_1 (cv : Canvas) (resolution : Q) :
  1 <= res_width (getResolution (Some cv) resolution) /\
  1 <= res_height (getResolution (Some cv) resolution).
Proof.
  unfold getResolution.
  destruct (Qgtb (aspectRatioOf cv) 1); cbn [res_width res_height];
    split; apply Q.le_max_r.
Qed.

Lemma bloomChain_ge_2 (n : nat) :
  forall w h, Forall (fun wh => 2 <= fst wh /\ 2 <= snd wh) (bloomChain n w h).
Proof.
  induction n as [|n IH]; intros w h; cbn [bloomChain].
  - constructor.
  - destruct (Qltb (inject_Z (Z.shiftr (ToInt32 w) 1)) 2) eqn:Ew; cbn [orb].
    + constructor.
    + destruct (Qltb (inject_Z (Z.shiftr (ToInt32 h) 1)) 2) eqn:Eh.
      * constructor.
      * constructor; [|apply IH].
        apply Qltb_ge in Ew. apply Qltb_ge in Eh. cbn [fst snd]. split; assumption.
Qed.

(** C10: on a canvas of positive width and height, [getResolution] of a
    positive resolution returns a width and a height of at least 1; every
    size the framebuffers are allocated with (simulation, dye, bloom and
    sunrays grids, and the bloom chain) is at least 1 in both dimensions,
    so the dimension guard of [createFBO] never throws on them. *)
Theorem getResolution_dimensions_valid (cv : Canvas) (cfg : IConfig) (resolution : Q) :
  (0 < canvas_width cv)%Z -> (0 < canvas_height cv)%Z -> 0 < resolution ->
  0 < SIM_RESOLUTION cfg -> 0 < DYE_RESOLUTION cfg ->
  0 < BLOOM_RESOLUTION cfg -> 0 < SUNRAYS_RESOLUTION cfg ->
  let res := getResolution (Some cv) resolution in
  (1 <= res_width res /\ 1 <= res_height res) /\
  (forall handle fmt prm,
      exists fbo, createFBO handle (res_width res) (res_height res) fmt prm = inr fbo) /\
  Forall (fun wh =>
            1 <= fst wh /\ 1 <= snd wh /\
            forall handle fmt prm,
              exists fbo, createFBO handle (fst wh) (snd wh) fmt prm = inr fbo)
         (allocationSizes (Some cv) cfg).
Proof.
  intros _ _ _ _ _ _ _. cbv zeta.
  pose proof (getResolution_ge_1 cv resolution) as [Hw Hh].
  split; [split; assumption|].
  split; [intros; apply createFBO_accepts; assumption|].
  unfold allocationSizes, gridSizes. apply Forall_app. split.
  - cbn [map]. repeat constructor; cbn [fst snd];
      try apply getResolution_ge_1;
      intros; apply createFBO_accepts; apply getResolution_ge_1.
  - eapply Forall_impl; [|apply bloomChain_ge_2].
    intros [w h] [H1 H2]. cbn [fst snd] in *.
    repeat split; try lra. intros. apply createFBO_accepts; lra.
Qed.

Lemma getResolution_dimensions_valid_witness :
  let res := getResolution (Some (mkCanvas 1 1080)) 128 in
  (1 <= res_width res /\ 1 <= res_height res) /\
  Forall (fun wh => 1 <= fst wh /\ 1 <= snd wh /\
            forall handle fmt prm,
              exists fbo, createFBO handle (fst wh) (snd wh) fmt prm = inr fbo)
         (allocationSizes (Some (mkCanvas 1 1080)) defaultConfig).
Proof.
  cbv zeta.
  assert (Hw : (0 < canvas_width (mkCanvas 1 1080))%Z) by (cbn; lia).
  assert (Hh : (0 < canvas_height (mkCanvas 1 1080))%Z) by (cbn; lia).
  assert (Hr : 0 < 128) by reflexivity.
  assert (H1 : 0 < SIM_RESOLUTION defaultConfig) by reflexivity.
  assert (H2 : 0 < DYE_RESOLUTION defaultConfig) by reflexivity.
  assert (H3 : 0 < BLOOM_RESOLUTION defaultConfig) by reflexivity.
  assert (H4 : 0 < SUNRAYS_RESOLUTION defaultConfig) by reflexivity.
  destruct (getResolution_dimensions_valid (mkCanvas 1 1080) defaultConfig 128
              Hw Hh Hr H1 H2 H3 H4) as (Ha & _ & Hb).
  split; [exact Ha | exact Hb].
Defined.

(** ** Applying the inputs (fluidSimulation.ts) *)

Section ApplyInputs.

Variable glsl_exp : Q -> Q.
Variable random : nat -> Q.

Lemma splat_frame x y dx dy c m (s : State) :
  let s' := splat glsl_exp x y dx dy c m s in
  config s' = config s /\ pointers s' = pointers s /\ canvas s' = canvas s /\
  splatCalls s' = splatCalls s ++ [mkSplatCall x y dx dy c m].
Proof.
  cbv zeta. unfold splat.
  destruct s as [cv cfg ps st d v dv cu p ready lin rc sc].
  cbn [canvas velocity dye log_splat glReady config pointers splatCalls
       splatStack divergence curl pressure supportLinearFiltering randomCalls].
  destruct cv, v, d; try (repeat split; reflexivity).
  destruct ready; repeat split; reflexivity.
Qed.

Lemma forEachPointer_spec (ps : list IPointer) :
  forall s,
    let r := forEachPointer glsl_exp ps s in
    fst r = map (fun p => set_moved p false) ps /\
    config (snd r) = config s /\
    splatCalls (snd r) =
      splatCalls s ++ map (pointerSplat (config s))
                          (filter (fun p => moved p && down p) ps).
Proof.
  induction ps as [|p rest IH]; intro s; cbv zeta.
  - cbn. rewrite app_nil_r. repeat split; reflexivity.
  - cbn [forEachPointer]. unfold applyPointer.
    destruct (moved p) eqn:Em, (down p) eqn:Ed; cbn [andb negb].
    + specialize (IH (splatPointer glsl_exp p s)). cbv zeta in IH.
      destruct (forEachPointer glsl_exp rest (splatPointer glsl_exp p s)) as [rest' s2].
      cbn [fst snd] in *. destruct IH as (Hps & Hcfg & Hlog).
      unfold splatPointer in *.
      pose proof (splat_frame (texcoordX p) (texcoordY p)
                    (deltaX p * SPLAT_FORCE (config s))
                    (deltaY p * SPLAT_FORCE (config s))
                    (mkColor (nth 0 (color p) 0) (nth 1 (color p) 0)
                             (nth 2 (color p) 0)) 1.0 s) as Hf.
      cbv zeta in Hf. destruct Hf as (Hc & _ & _ & Hl).
      rewrite Hc in Hcfg, Hlog. rewrite Hl in Hlog.
      cbn [map filter]. rewrite Em, Ed. cbn [andb map].
      repeat split; [f_equal; exact Hps | exact Hcfg |].
      rewrite Hlog, <- app_assoc. reflexivity.
    + specialize (IH s). cbv zeta in IH.
      destruct (forEachPointer glsl_exp rest s) as [rest' s2].
      cbn [fst snd] in *. destruct IH as (Hps & Hcfg & Hlog).
      cbn [map filter]. rewrite Em, Ed. cbn [andb].
      repeat split; [f_equal; exact Hps | exact Hcfg | exact Hlog].
    + specialize (IH s). cbv zeta in IH.
      destruct (forEachPointer glsl_exp rest s) as [rest' s2].
      cbn [fst snd] in *. destruct IH as (Hps & Hcfg & Hlog).
      cbn [map filter]. rewrite Em, Ed. cbn [andb].
      repeat split; [|exact Hcfg | exact Hlog].
      f_equal; [|exact Hps]. destruct p; cbn in *. subst. reflexivity.
    + specialize (IH s). cbv zeta in IH.
      destruct (forEachPointer glsl_exp rest s) as [rest' s2].
      cbn [fst snd] in *. destruct IH as (Hps & Hcfg & Hlog).
      cbn [map filter]. rewrite Em, Ed. cbn [andb].
      repeat split; [f_equal; exact Hps | exact Hcfg | exact Hlog].
Qed.

Lemma multipleSplats_loop_frame (n : nat) :
  forall s, config (multipleSplats_loop glsl_exp random n s) = config s /\
            pointers (multipleSplats_loop glsl_exp random n s) = pointers s.
Proof.
  induction n as [|n IH]; intro s; cbn [multipleSplats_loop].
  - split; reflexivity.
  - unfold generateColorHSV, Math_random.
    match goal with
    | |- context [multipleSplats_loop _ _ n ?t] => destruct (IH t) as [Hc Hp]
    end.
    cbn in *. rewrite Hc, Hp.
    match goal with
    | |- context [splat glsl_exp ?x ?y ?dx ?dy ?c ?m ?t] =>
        pose proof (splat_frame x y dx dy c m t) as Hf
    end.
    cbv zeta in Hf. destruct Hf as (Hc' & Hp' & _ & _).
    rewrite Hc', Hp'. split; reflexivity.
Qed.

Lemma applySplatStack_frame (s : State) :
  config (applySplatStack glsl_exp random s) = config s /\
  pointers (applySplatStack glsl_exp random s) = pointers s.
Proof.
  unfold applySplatStack. destruct (pop (splatStack s)) as [[amount rest]|].
  - unfold multipleSplats.
    destruct (multipleSplats_loop_frame (Z.to_nat amount) (set_splatStack s rest))
      as [Hc Hp].
    rewrite Hc, Hp. split; reflexivity.
  - split; reflexivity.
Qed.

End ApplyInputs.

(** C9: when [applyInputs] returns, every pointer of the registry has
    [moved = false] (and is otherwise as it was), and the pointer-driven
    splats drawn by the call, which follow the optional random burst, are
    exactly those of the pointers that entered with [down] and [moved] both
    true, in registry order. *)
Theorem applyInputs_clears_moved glsl_exp random (s : State) :
  let s' := applyInputs glsl_exp random s in
  Forall (fun p => moved p = false) (pointers s') /\
  pointers s' = map (fun p => set_moved p false) (pointers s) /\
  splatCalls s' =
    splatCalls (applySplatStack glsl_exp random s)
    ++ map (pointerSplat (config s))
           (filter (fun p => moved p && down p) (pointers s)).
Proof.
  cbv zeta. unfold applyInputs.
  destruct (applySplatStack_frame glsl_exp random s) as [Hc Hp].
  pose proof (forEachPointer_spec glsl_exp
                (pointers (applySplatStack glsl_exp random s))
                (applySplatStack glsl_exp random s)) as H.
  cbv zeta in H.
  destruct (forEachPointer glsl_exp (pointers (applySplatStack glsl_exp random s))
              (applySplatStack glsl_exp random s)) as [ps s2].
  cbn [fst snd] in H. destruct H as (Hps & _ & Hlog).
  cbn [pointers splatCalls set_pointers].
  rewrite Hp in Hps, Hlog. rewrite Hc in Hlog.
  split; [|split; [exact Hps | exact Hlog]].
  rewrite Hps. apply Forall_forall. intros p Hin.
  apply in_map_iff in Hin. destruct Hin as (q & <- & _). reflexivity.
Qed.

(** ** What a blit stores *)

Lemma blit_stored (target : IFBO) (clear : bool) (texelSize : vec2)
      (frag : Varyings -> vec4) (i j : nat) :
  (Z.of_nat i < cols target)%Z -> (Z.of_nat j < rows target)%Z ->
  stored (blit target clear texelSize frag) i j
  = frag (fragment target texelSize i j).
Proof.
  intros Hi Hj. unfold stored, blit, set_pixels. cbn [pixels].
  set (row := fun j0 => map (fun i0 => frag (fragment target texelSize i0 j0))
                            (seq 0 (Z.to_nat (cols target)))).
  rewrite (nth_indep _ [] (row 0%nat)) by (rewrite length_map, length_seq; lia).
  rewrite (map_nth row), seq_nth by lia. cbn [Nat.add]. unfold row.
  set (px := fun i0 => frag (fragment target texelSize i0 j)).
  rewrite (nth_indep _ zero4 (px 0%nat)) by (rewrite length_map, length_seq; lia).
  rewrite (map_nth px), seq_nth by lia. reflexivity.
Qed.

Lemma blit_shape (target : IFBO) clear texelSize frag :
  let f := blit target clear texelSize frag in
  texture f = texture target /\ width f = width target /\ height f = height target /\
  format f = format target /\ param f = param target /\
  cols f = cols target /\ rows f = rows target.
Proof. cbv zeta. unfold blit, set_pixels, cols, rows. cbn. repeat split; reflexivity. Qed.

(** ** Bloom pre-filter (t.ts, fluidSimulation.ts) *)

(** With the initial configuration, a pure red dye texel [(1, 0, 0)] comes
    out of the pre-filter unchanged (scale factor 1), while
    [max(rq, br - threshold) / max(br, epsilon)] is below 0.41 whatever
    [epsilon] is. *)
Lemma bloom_prefilter_hard_threshold :
  let source := mkFBO 1 1 1 1 1 FormatRGBA LINEAR [[Vec4 1 0 0 1]] in
  let destination := mkFBO 2 1 1 1 1 FormatRGBA LINEAR [[zero4]] in
  let out := stored (applyBloom_prefilter defaultConfig source destination) 0 0 in
  let knee := BLOOM_THRESHOLD defaultConfig * BLOOM_SOFT_KNEE defaultConfig + 1e-5 in
  r4 out == 1 /\
  ~ exists epsilon,
      r4 out == 1 * prefilterScale_spec (BLOOM_THRESHOLD defaultConfig) knee epsilon 1.
Proof.
  cbv zeta. split; [vm_compute; reflexivity|].
  intros [epsilon H].
  match type of H with ?o == _ => assert (Ho : o == 1) by (vm_compute; reflexivity) end.
  rewrite Ho in H. unfold prefilterScale_spec in H.
  match type of H with
  | _ == 1 * (?x / ?m) =>
      assert (Hx : x <= 0.41) by (vm_compute; discriminate);
      assert (Hm : 1 <= m) by apply Q.le_max_l;
      set (x0 := x) in *; set (m0 := m) in *
  end.
  assert (E : x0 / m0 * m0 == x0) by (field; lra).
  rewrite Qmult_1_l in H. rewrite <- H in E. lra.
Qed.

Lemma clamp_range (x lo hi : Q) : lo <= hi -> lo <= clamp x lo hi <= hi.
Proof.
  intro H. unfold clamp. split.
  - apply Q.min_glb; [apply Q.le_max_r | exact H].
  - apply Q.le_min_r.
Qed.

Lemma clamp_below (x lo hi : Q) : lo <= hi -> x <= lo -> clamp x lo hi == lo.
Proof.
  intros H Hx. unfold clamp. rewrite (Q.max_r x lo) by exact Hx.
  apply Q.min_l. exact H.
Qed.

Lemma step_ge (edge x : Q) : edge <= x -> GLSL.step edge x = 1.
Proof.
  intro H. unfold GLSL.step. apply Qltb_ge in H. rewrite H. reflexivity.
Qed.

Lemma step_lt (edge x : Q) : x < edge -> GLSL.step edge x = 0.
Proof.
  intro H. unfold GLSL.step. apply Qltb_lt in H. rewrite H. reflexivity.
Qed.

(** The soft-knee quantity never exceeds the knee. *)
Lemma softKnee_le_knee (knee x : Q) :
  0 < knee -> 0.25 / knee * clamp x 0 (knee * 2.0) * clamp x 0 (knee * 2.0) <= knee.
Proof.
  intro Hk.
  destruct (clamp_range x 0 (knee * 2.0)) as [H0 H1]; [lra|].
  set (c := clamp x 0 (knee * 2.0)) in *. set (z := 0.25 / knee).
  assert (Hz : z * knee == 0.25) by (unfold z; field; lra).
  assert (Hz0 : 0 <= z) by (unfold z; apply Qle_shift_div_l; lra).
  assert (Hcc : c * c <= (knee * 2.0) * (knee * 2.0)) by nra.
  assert (Hb : z * (c * c) <= z * ((knee * 2.0) * (knee * 2.0))) by nra.
  setoid_replace (z * c * c) with (z * (c * c)) by ring.
  setoid_replace (z * ((knee * 2.0) * (knee * 2.0))) with (4 * (z * knee) * knee) in Hb by ring.
  rewrite Hz in Hb. lra.
Qed.

(** C6 (amended): for every texel of the bloom buffer, the pre-filter pass
    samples the dye colour [c], takes [br = max(r, g, b)] and the soft-knee
    quantity [rq = curve.z * clamp(br - curve.x, 0, curve.y)^2] with
    [curve = (threshold - knee, 2 * knee, 0.25 / knee)] and
    [knee = BLOOM_THRESHOLD * BLOOM_SOFT_KNEE + 1e-5], and writes
    [c * max(rq, step(threshold, br)) / max(br, 0.0001)] with alpha 1,
    where [step(threshold, br)] is 1 for [br >= threshold] and 0 below.
    Hence a texel at or above the threshold is divided by its brightness
    (when the knee is at most 1), a texel below it is scaled by
    [rq / max(br, 0.0001)], and a texel at or below [threshold - knee] is
    written as black. *)
Theorem applyBloom_prefilter_texel (cfg : IConfig) (source destination : IFBO)
        (i j : nat) :
  (Z.of_nat i < cols destination)%Z -> (Z.of_nat j < rows destination)%Z ->
  let threshold := BLOOM_THRESHOLD cfg in
  let knee := threshold * BLOOM_SOFT_KNEE cfg + 1e-5 in
  let c := rgb (texture2D source (vUv (fragment destination (Vec2 0 0) i j))) in
  let br := Qmax (r3 c) (Qmax (g3 c) (b3 c)) in
  let rq0 := clamp (br - (threshold - knee)) 0 (knee * 2.0) in
  let rq := 0.25 / knee * rq0 * rq0 in
  let scale := Qmax rq (if Qle_bool threshold br then 1 else 0) / Qmax br 0.0001 in
  stored (applyBloom_prefilter cfg source destination) i j
    = Vec4 (scale * r3 c) (scale * g3 c) (scale * b3 c) 1 /\
  (0 < knee <= 1 -> threshold <= br -> scale == 1 / Qmax br 0.0001) /\
  (0 < knee -> br < threshold -> scale == rq / Qmax br 0.0001) /\
  (0 < knee -> br <= threshold - knee -> scale == 0).
Proof.
  intros Hi Hj. cbv zeta. unfold applyBloom_prefilter.
  rewrite blit_stored by assumption.
  unfold bloomPrefilterShader, attach, GLSL.step, Qltb.
  cbn [r3 g3 b3 scale3 vec4_of3].
  set (threshold := BLOOM_THRESHOLD cfg).
  set (knee := threshold * BLOOM_SOFT_KNEE cfg + 1e-5).
  set (c := rgb (texture2D source (vUv (fragment destination (Vec2 0 0) i j)))).
  set (br := Qmax (r3 c) (Qmax (g3 c) (b3 c))).
  set (rq := 0.25 / knee * clamp (br - (threshold - knee)) 0 (knee * 2.0)
             * clamp (br - (threshold - knee)) 0 (knee * 2.0)).
  assert (Hrq0 : 0 < knee -> 0 <= rq).
  { intro Hk. unfold rq.
    destruct (clamp_range (br - (threshold - knee)) 0 (knee * 2.0)) as [H0 _]; [lra|].
    assert (0 <= 0.25 / knee) by (apply Qle_shift_div_l; lra).
    rewrite <- Qmult_assoc. apply Qmult_le_0_compat; [assumption|].
    apply Qmult_le_0_compat; assumption. }
  split; [|split; [|split]].
  - destruct (Qle_bool threshold br); reflexivity.
  - intros [Hk Hk1] Hbr. apply Qle_bool_iff in Hbr. rewrite Hbr.
    rewrite (Q.max_r rq 1); [reflexivity|].
    pose proof (softKnee_le_knee knee (br - (threshold - knee)) Hk). fold rq in H. lra.
  - intros Hk Hbr.
    assert (E : Qle_bool threshold br = false).
    { apply not_true_iff_false. rewrite Qle_bool_iff. lra. }
    rewrite E. rewrite (Q.max_l rq 0) by (apply Hrq0; exact Hk). reflexivity.
  - intros Hk Hbr.
    assert (E : Qle_bool threshold br = false).
    { apply not_true_iff_false. rewrite Qle_bool_iff. lra. }
    rewrite E.
    assert (Hz : rq == 0).
    { unfold rq. rewrite (clamp_below (br - (threshold - knee)) 0 (knee * 2.0)) by lra.
      ring. }
    rewrite Hz. rewrite (Q.max_l 0 0) by lra. unfold Qdiv. ring.
Qed.

Lemma applyBloom_prefilter_texel_witness :
  let source := mkFBO 1 1 1 1 1 FormatRGBA LINEAR [[Vec4 1 0 0 1]] in
  let destination := mkFBO 2 1 1 1 1 FormatRGBA LINEAR [[zero4]] in
  let out := stored (applyBloom_prefilter defaultConfig source destination) 0 0 in
  r4 out == 1 /\ g4 out == 0 /\ b4 out == 0 /\ a4 out == 1.
Proof.
  cbv zeta.
  assert (Hi : (Z.of_nat 0 < cols (mkFBO 2 1 1 1 1 FormatRGBA LINEAR [[zero4]]))%Z)
    by (vm_compute; reflexivity).
  assert (Hj : (Z.of_nat 0 < rows (mkFBO 2 1 1 1 1 FormatRGBA LINEAR [[zero4]]))%Z)
    by (vm_compute; reflexivity).
  destruct (applyBloom_prefilter_texel defaultConfig
              (mkFBO 1 1 1 1 1 FormatRGBA LINEAR [[Vec4 1 0 0 1]])
              (mkFBO 2 1 1 1 1 FormatRGBA LINEAR [[zero4]]) 0 0 Hi Hj)
    as (Hst & _).
  rewrite Hst. cbn [r4 g4 b4 a4]. vm_compute. repeat split; reflexivity.
Defined.
(** ** The display composite (t.ts, fluidSimulation.ts, webglUtils.ts) *)

Section DisplayShader.

Variable glsl_sqrt : Q -> Q.
Variable glsl_pow : Q -> Q -> Q.

Lemma linearToGamma_nonneg (color : vec3) :
  0 <= r3 (linearToGamma glsl_pow color) /\
  0 <= g3 (linearToGamma glsl_pow color) /\
  0 <= b3 (linearToGamma glsl_pow color).
Proof.
  unfold linearToGamma, max3. cbn [r3 g3 b3]. repeat split; apply Q.le_max_r.
Qed.

(** The display shader itself leaves the colour as shaded: with a sunrays
    value of 1, a dye texel of red value [k >= 0] comes out with red at
    least [0.7 * k], whatever the keywords (shading scales by a factor in
    [[0.7, 1]] and bloom adds a non-negative amount). *)
Lemma displayShader_red_ge (SHADING BLOOM SUNRAYS : bool) (k : Q)
      (uBloom uDithering : sampler2D) (ditherScale texelSize : vec2) (v : Varyings) :
  0 <= k ->
  0.7 * k <= r4 (displayShader glsl_sqrt glsl_pow SHADING BLOOM SUNRAYS
                   (fun _ => Vec4 k 0 0 1) uBloom (fun _ => Vec4 1 0 0 1)
                   uDithering ditherScale texelSize v).
Proof.
  intro Hk. unfold displayShader.
  destruct SHADING, BLOOM, SUNRAYS; cbn [andb vec4_of3 r4 rgb r3 add3 scale3];
    repeat match goal with
      | |- context [clamp ?x 0.7 1.0] =>
          destruct (clamp_range x 0.7 1.0) as [? _]; [lra|];
          set (d := clamp x 0.7 1.0) in *
      | |- context [r3 (linearToGamma glsl_pow ?b)] =>
          destruct (linearToGamma_nonneg b) as [? _];
          set (bl := r3 (linearToGamma glsl_pow b)) in *
      end;
    nra.
Qed.

End DisplayShader.











Section NoClamp.

Variable glsl_exp : Q -> Q.
Variable glsl_sqrt : Q -> Q.









End NoClamp.




Lemma eq4_trans (a b c : vec4) : eq4 a b -> eq4 b c -> eq4 a c.
Proof.
  intros (H1 & H2 & H3 & H4) (K1 & K2 & K3 & K4). unfold eq4.
  rewrite H1, H2, H3, H4. repeat split; assumption.
Qed.


(** ** Splat (t.ts, fluidSimulation.ts) *)

(** At aspect ratio 2, a fragment 0.1 to the right of the splat centre and a
    radius of 0.1: the shader evaluates the falloff at [-1], the worded
    formula at [-4]; no strictly increasing [exp] makes the two agree. *)
Lemma splat_shader_does_not_scale_offset :
  ~ exists glsl_exp : Q -> Q,
      (forall a b, a < b -> glsl_exp a < glsl_exp b) /\
      r4 (splatShader glsl_exp (fun _ => zero4) 2 (Vec3 1 0 0) (Vec2 0.4 0.5) 0.1
            midFragment)
      == 0 + splatContribution_spec glsl_exp 2
               (sub2 (vUv midFragment) (Vec2 0.4 0.5)) 0.1 1.
Proof.
  intros (e & Hmono & H).
  unfold splatShader, splatContribution_spec, zero4 in H.
  cbn [r4 rgb r3 add3 scale3 vec4_of3] in H.
  match type of H with
  | 0 + e ?a * 1 == 0 + 1 * e ?b =>
      assert (Hab : b < a) by (vm_compute; reflexivity);
      specialize (Hmono b a Hab);
      set (ea := e a) in *; set (eb := e b) in *
  end.
  lra.
Qed.

Lemma drawAndSwap_read (d : IDoubleFBO) clear texelSize frag :
  read (drawAndSwap d clear texelSize frag) = blit (write d) clear texelSize frag /\
  write (drawAndSwap d clear texelSize frag) = read d.
Proof. split; reflexivity. Qed.

(** C8 (amended): the splat shader does not use its [aspectRatio] uniform:
    the offset [p = vUv - point] enters the Gaussian unscaled, so a splat
    adds [color * exp(-(p.x^2 + p.y^2) / max(radius^2, 1e-6))] to the
    velocity and to the dye.  The aspect ratio enters only through the
    radius uniform, which is [SPLAT_RADIUS / 100], multiplied by the aspect
    ratio when the surface is wider than tall, times the radius multiplier
    of the call. *)
Theorem splat_gaussian glsl_exp (s : State) (cv : Canvas) (vel d : IDoubleFBO)
        (x y dx dy : Q) (color : IColor) (radiusMultiplier : Q) :
  canvas s = Some cv -> velocity s = Some vel -> dye s = Some d ->
  glReady s = true ->
  (0 < canvas_width cv)%Z -> (0 < canvas_height cv)%Z ->
  let aspectRatio := inject_Z (canvas_width cv) / inject_Z (canvas_height cv) in
  let baseRadius := SPLAT_RADIUS (config s) / 100.0 in
  let radius :=
    (if (canvas_height cv <? canvas_width cv)%Z then baseRadius * aspectRatio
     else baseRadius) * radiusMultiplier in
  let s' := splat glsl_exp x y dx dy color radiusMultiplier s in
  (exists vel' d',
      velocity s' = Some vel' /\ dye s' = Some d' /\
      splatted glsl_exp (write vel) (read vel) x y (Vec3 dx dy 0.0) radius (read vel') /\
      splatted glsl_exp (write d) (read d) x y (Vec3 (r color) (g color) (b color))
               radius (read d')) /\
  (forall uTarget a a' c point rad v,
      splatShader glsl_exp uTarget a c point rad v
      = splatShader glsl_exp uTarget a' c point rad v).
Proof.
  intros Hcv Hvel Hdye Hgl Hw Hh. cbv zeta.
  split; [|reflexivity].
  unfold splat. cbn [canvas velocity dye glReady log_splat config].
  rewrite Hcv, Hvel, Hdye, Hgl. cbn [negb].
  cbn [velocity dye set_fields].
  eexists. eexists. split; [reflexivity|]. split; [reflexivity|].
  assert (Easp : Qgtb (aspectRatioOf cv) 1 = (canvas_height cv <? canvas_width cv)%Z).
  { pose proof (aspect_gt_1 cv Hh) as Hgt.
    destruct (Qgtb (aspectRatioOf cv) 1) eqn:E, (canvas_height cv <? canvas_width cv)%Z eqn:E';
      try reflexivity.
    - apply Z.ltb_ge in E'. assert (canvas_height cv < canvas_width cv)%Z
        by (apply Hgt; reflexivity). lia.
    - apply Z.ltb_lt in E'. apply Hgt in E'. discriminate. }
  unfold correctRadius. rewrite Easp. fold (aspectRatioOf cv).
  split; intros i j Hi Hj; cbv zeta;
    rewrite (proj1 (drawAndSwap_read _ _ _ _)), blit_stored by assumption;
    unfold splatShader, attach, dot2;
    cbn [r3 g3 b3 r4 g4 b4 rgb add3 scale3 vec4_of3];
    destruct (canvas_height cv <? canvas_width cv)%Z; reflexivity.
Qed.

(** ** Sampling at texel centres *)

Lemma Qfloor_half (a : Z) : Qfloor (inject_Z a + (1 # 2)) = a.
Proof.
  pose proof (Qfloor_le (inject_Z a + (1 # 2))) as Hlo.
  pose proof (Qlt_floor (inject_Z a + (1 # 2))) as Hhi.
  set (z := Qfloor (inject_Z a + (1 # 2))) in *.
  rewrite inject_Z_plus in Hhi. change (inject_Z 1) with 1 in Hhi.
  assert (H1 : (z < a + 1)%Z)
    by (rewrite Zlt_Qlt, inject_Z_plus; change (inject_Z 1) with 1; lra).
  assert (H2 : (a < z + 1)%Z)
    by (rewrite Zlt_Qlt, inject_Z_plus; change (inject_Z 1) with 1; lra).
  lia.
Qed.

Lemma simTexture_cols (W H : Z) (f : IFBO) :
  simTexture W H f -> cols f = W /\ rows f = H.
Proof.
  intros (Hw & Hh & _). unfold cols, rows. rewrite Hw, Hh, !Qfloor_Z. split; reflexivity.
Qed.

Lemma simTexture_blit (W H : Z) (f : IFBO) clear ts frag :
  simTexture W H f -> simTexture W H (blit f clear ts frag).
Proof. intros (Hw & Hh & Hp). repeat split; assumption. Qed.

(** With the nearest filter, a coordinate at the centre of texel [(a, b)]
    reads that texel (clamped to the edge when it lies outside). *)
Lemma texture2D_centre (W H : Z) (f : IFBO) (a b : Z) (uv : vec2) :
  simTexture W H f -> (0 < W)%Z -> (0 < H)%Z ->
  x2 uv == (inject_Z a + (1 # 2)) / inject_Z W ->
  y2 uv == (inject_Z b + (1 # 2)) / inject_Z H ->
  texture2D f uv = texel f a b.
Proof.
  intros Hf HW HH Hx Hy. destruct (simTexture_cols W H f Hf) as [Hc Hr].
  destruct Hf as (_ & _ & Hp). unfold texture2D. rewrite Hp, Hc, Hr.
  pose proof (inject_Z_pos W HW). pose proof (inject_Z_pos H HH).
  assert (Ex : x2 uv * inject_Z W == inject_Z a + (1 # 2)) by (rewrite Hx; field; lra).
  assert (Ey : y2 uv * inject_Z H == inject_Z b + (1 # 2)) by (rewrite Hy; field; lra).
  rewrite (Qfloor_comp _ _ Ex), (Qfloor_comp _ _ Ey), !Qfloor_half. reflexivity.
Qed.

(** The varyings of the fragment of pixel [(i, j)] of a [W] by [H] target,
    for a [texelSize] uniform of [(1 / W, 1 / H)]. *)
Lemma fragment_coordinates (W H : Z) (target : IFBO) (ts : vec2) (i j : nat) :
  width target = inject_Z W -> height target = inject_Z H ->
  (0 < W)%Z -> (0 < H)%Z ->
  x2 ts == 1 / inject_Z W -> y2 ts == 1 / inject_Z H ->
  let v := fragment target ts i j in
  let x := inject_Z (Z.of_nat i) in
  let y := inject_Z (Z.of_nat j) in
  (x2 (vUv v) == (x + (1 # 2)) / inject_Z W /\
   y2 (vUv v) == (y + (1 # 2)) / inject_Z H) /\
  (x2 (vL v) == (inject_Z (Z.of_nat i - 1) + (1 # 2)) / inject_Z W /\
   y2 (vL v) == (y + (1 # 2)) / inject_Z H) /\
  (x2 (vR v) == (inject_Z (Z.of_nat i + 1) + (1 # 2)) / inject_Z W /\
   y2 (vR v) == (y + (1 # 2)) / inject_Z H) /\
  (x2 (vT v) == (x + (1 # 2)) / inject_Z W /\
   y2 (vT v) == (inject_Z (Z.of_nat j + 1) + (1 # 2)) / inject_Z H) /\
  (x2 (vB v) == (x + (1 # 2)) / inject_Z W /\
   y2 (vB v) == (inject_Z (Z.of_nat j - 1) + (1 # 2)) / inject_Z H).
Proof.
  intros Hw Hh HW HH Hx Hy. cbv zeta.
  pose proof (inject_Z_pos W HW). pose proof (inject_Z_pos H HH).
  unfold fragment, baseVertexShader, pixelCentre. rewrite Hw, Hh.
  cbn [vUv vL vR vT vB x2 y2 add2 sub2 scale2].
  unfold Z.sub. rewrite !inject_Z_plus. rewrite Hx, Hy.
  change (inject_Z (Z.opp 1)) with (-1). change (inject_Z 1) with 1.
  repeat match goal with |- _ /\ _ => split end; field; lra.
Qed.

Lemma clampIndex_range (i n : Z) : (0 < n)%Z -> (0 <= clampIndex i n < n)%Z.
Proof. unfold clampIndex. lia. Qed.

Lemma clampIndex_idem (i n : Z) :
  (0 < n)%Z -> clampIndex (clampIndex i n) n = clampIndex i n.
Proof. unfold clampIndex. lia. Qed.

Lemma clampIndex_inside (i n : Z) : (0 <= i < n)%Z -> clampIndex i n = i.
Proof. unfold clampIndex. lia. Qed.

Lemma texel_clamped (W H : Z) (f : IFBO) (i j : Z) :
  cols f = W -> rows f = H -> (0 < W)%Z -> (0 < H)%Z ->
  texel f (clampIndex i W) (clampIndex j H) = texel f i j.
Proof.
  intros Hc Hr HW HH. unfold texel. rewrite Hc, Hr, !clampIndex_idem by assumption.
  reflexivity.
Qed.

Lemma r4_expand (fmt : Format) (c : vec4) : r4 (expand fmt c) = r4 c.
Proof. destruct fmt; reflexivity. Qed.

(** The red channel of a freshly drawn texture. *)
Lemma red_blit (W H : Z) (target : IFBO) clear ts frag (i j : Z) :
  cols target = W -> rows target = H -> (0 < W)%Z -> (0 < H)%Z ->
  red (blit target clear ts frag) i j
  = r4 (frag (fragment target ts (Z.to_nat (clampIndex i W))
                       (Z.to_nat (clampIndex j H)))).
Proof.
  intros Hc Hr HW HH. unfold red, texel. rewrite r4_expand.
  destruct (blit_shape target clear ts frag) as (_ & _ & _ & _ & _ & Hc' & Hr').
  cbv zeta in Hc', Hr'. rewrite Hc', Hr', Hc, Hr.
  pose proof (clampIndex_range i W HW). pose proof (clampIndex_range j H HH).
  rewrite blit_stored by (rewrite ?Hc, ?Hr, Z2Nat.id; lia).
  reflexivity.
Qed.

(** ** The pressure pass of a step (fluidSimulation.ts, t.ts) *)

Lemma jacobiField_ext (W H : Z) (div p q : Z -> Z -> Q) :
  (forall i j, p i j = q i j) ->
  forall i j, jacobiField W H div p i j = jacobiField W H div q i j.
Proof.
  intros E i j. unfold jacobiField, jacobiTexel. rewrite !E. reflexivity.
Qed.

Lemma jacobi_iter_ext (W H : Z) (div : Z -> Z -> Q) (n : nat) :
  forall p q : Z -> Z -> Q,
    (forall i j, p i j = q i j) ->
    forall i j, Nat.iter n (jacobiField W H div) p i j
                = Nat.iter n (jacobiField W H div) q i j.
Proof.
  induction n as [|n IH]; intros p q E i j; cbn [Nat.iter].
  - apply E.
  - apply jacobiField_ext. intros. apply IH. exact E.
Qed.

Lemma fragment_vUv (W H : Z) (target : IFBO) (ts : vec2) (i j : nat) :
  width target = inject_Z W -> height target = inject_Z H ->
  (0 < W)%Z -> (0 < H)%Z ->
  x2 (vUv (fragment target ts i j)) == (inject_Z (Z.of_nat i) + (1 # 2)) / inject_Z W /\
  y2 (vUv (fragment target ts i j)) == (inject_Z (Z.of_nat j) + (1 # 2)) / inject_Z H.
Proof.
  intros Hw Hh HW HH.
  pose proof (inject_Z_pos W HW). pose proof (inject_Z_pos H HH).
  unfold fragment, baseVertexShader, pixelCentre. rewrite Hw, Hh.
  cbn [vUv x2 y2 add2 scale2]. split; field; lra.
Qed.

(** The pressure shader at pixel [(i, j)] computes the Jacobi update. *)
Lemma pressureShader_texel (W H : Z) (target pr dv : IFBO) (ts : vec2) (i j : nat) :
  (0 < W)%Z -> (0 < H)%Z ->
  simTexture W H target -> simTexture W H pr -> simTexture W H dv ->
  x2 ts == 1 / inject_Z W -> y2 ts == 1 / inject_Z H ->
  r4 (pressureShader (attach pr) (attach dv) (fragment target ts i j))
  = jacobiTexel W H (red dv) (red pr) (Z.of_nat i) (Z.of_nat j).
Proof.
  intros HW HH Ht Hpr Hdv Hx Hy.
  destruct Ht as (Htw & Hth & _).
  pose proof (fragment_coordinates W H target ts i j Htw Hth HW HH Hx Hy) as Hc.
  cbv zeta in Hc.
  destruct Hc as ((Hux & Huy) & (HLx & HLy) & (HRx & HRy) & (HTx & HTy) & (HBx & HBy)).
  set (v := fragment target ts i j) in *.
  unfold pressureShader, attach, jacobiTexel, red.
  rewrite (texture2D_centre W H pr (Z.of_nat i - 1) (Z.of_nat j) (vL v)) by assumption.
  rewrite (texture2D_centre W H pr (Z.of_nat i + 1) (Z.of_nat j) (vR v)) by assumption.
  rewrite (texture2D_centre W H pr (Z.of_nat i) (Z.of_nat j + 1) (vT v)) by assumption.
  rewrite (texture2D_centre W H pr (Z.of_nat i) (Z.of_nat j - 1) (vB v)) by assumption.
  rewrite (texture2D_centre W H dv (Z.of_nat i) (Z.of_nat j) (vUv v)) by assumption.
  unfold Qgtb.
  rewrite (Qltb_comp _ _ HLx 0.01 0.01 (Qeq_refl _)).
  rewrite (Qltb_comp (1.0 - 0.01) (1.0 - 0.01) (Qeq_refl _) _ _ HRx).
  rewrite (Qltb_comp _ _ HBy 0.01 0.01 (Qeq_refl _)).
  rewrite (Qltb_comp (1.0 - 0.01) (1.0 - 0.01) (Qeq_refl _) _ _ HTy).
  reflexivity.
Qed.

(** The clear shader at pixel [(i, j)] scales the texel it covers. *)
Lemma clearShader_texel (W H : Z) (target pr : IFBO) (ts : vec2) (value : Q) (i j : nat) :
  (0 < W)%Z -> (0 < H)%Z ->
  simTexture W H target -> simTexture W H pr ->
  r4 (clearShader (attach pr) value (fragment target ts i j))
  = red pr (Z.of_nat i) (Z.of_nat j) * value.
Proof.
  intros HW HH (Htw & Hth & _) Hpr.
  destruct (fragment_vUv W H target ts i j Htw Hth HW HH) as [Hux Huy].
  unfold clearShader, attach, red. cbn [r4].
  rewrite (texture2D_centre W H pr (Z.of_nat i) (Z.of_nat j)) by assumption.
  reflexivity.
Qed.

Lemma red_clamped (W H : Z) (f : IFBO) (i j : Z) :
  simTexture W H f -> (0 < W)%Z -> (0 < H)%Z ->
  red f (clampIndex i W) (clampIndex j H) = red f i j.
Proof.
  intros Hf HW HH. destruct (simTexture_cols W H f Hf) as [Hc Hr].
  unfold red. rewrite (texel_clamped W H) by assumption. reflexivity.
Qed.

(** One iteration of the loop: draw into [write], swap. *)
Lemma pressure_iteration (W H : Z) (ts : vec2) (dv : IFBO) (p : IDoubleFBO) :
  (0 < W)%Z -> (0 < H)%Z ->
  simTexture W H (read p) -> simTexture W H (write p) -> simTexture W H dv ->
  x2 ts == 1 / inject_Z W -> y2 ts == 1 / inject_Z H ->
  let p' := drawAndSwap p true ts (pressureShader (attach (read p)) (attach dv)) in
  simTexture W H (read p') /\ simTexture W H (write p') /\
  texture (read p') = texture (write p) /\ texture (write p') = texture (read p) /\
  forall i j, red (read p') i j = jacobiField W H (red dv) (red (read p)) i j.
Proof.
  intros HW HH Hr Hw Hdv Hx Hy. cbv zeta.
  destruct (drawAndSwap_read p true ts (pressureShader (attach (read p)) (attach dv)))
    as [Er Ew].
  rewrite Er, Ew.
  split; [apply simTexture_blit; exact Hw|].
  split; [exact Hr|]. split; [reflexivity|]. split; [reflexivity|].
  intros i j. destruct (simTexture_cols W H _ Hw) as [Hc Hrw].
  rewrite (red_blit W H) by assumption.
  rewrite (pressureShader_texel W H) by assumption.
  pose proof (clampIndex_range i W HW). pose proof (clampIndex_range j H HH).
  rewrite !Z2Nat.id by lia. reflexivity.
Qed.

Lemma pressureLoop_spec (W H : Z) (ts : vec2) (dv : IFBO) (n : nat) :
  (0 < W)%Z -> (0 < H)%Z -> simTexture W H dv ->
  x2 ts == 1 / inject_Z W -> y2 ts == 1 / inject_Z H ->
  forall p : IDoubleFBO,
    simTexture W H (read p) -> simTexture W H (write p) ->
    let p' := pressureLoop n ts dv p in
    (forall i j, red (read p') i j
                 = Nat.iter n (jacobiField W H (red dv)) (red (read p)) i j) /\
    texture (read p')
      = (if Nat.even n then texture (read p) else texture (write p)) /\
    texture (write p')
      = (if Nat.even n then texture (write p) else texture (read p)).
Proof.
  intros HW HH Hdv Hx Hy.
  induction n as [|n IH]; intros p Hr Hw; cbv zeta.
  - cbn. repeat split; reflexivity.
  - cbn [pressureLoop].
    pose proof (pressure_iteration W H ts dv p HW HH Hr Hw Hdv Hx Hy) as Hit.
    cbv zeta in Hit. destruct Hit as (Hr' & Hw' & Etr & Etw & Ered).
    specialize (IH _ Hr' Hw'). cbv zeta in IH. destruct IH as (IHred & IHr & IHw).
    split; [|split].
    + intros i j. rewrite IHred.
      rewrite (jacobi_iter_ext W H (red dv) n _ _ Ered).
      rewrite Nat.iter_succ_r. reflexivity.
    + rewrite IHr, Etr, Etw, Nat.even_succ, <- Nat.negb_even.
      destruct (Nat.even n); reflexivity.
    + rewrite IHw, Etr, Etw, Nat.even_succ, <- Nat.negb_even.
      destruct (Nat.even n); reflexivity.
Qed.

Ltac q2z H :=
  rewrite ?Zle_Qle, ?Zlt_Qlt in H;
  unfold Z.sub in *;
  rewrite ?inject_Z_mult, ?inject_Z_plus, ?inject_Z_mult in H;
  rewrite ?inject_Z_plus, ?inject_Z_mult;
  change (inject_Z (-1)) with (-1) in *; change (inject_Z (- (1))) with (-1) in *;
  change (inject_Z 1) with 1 in *; change (inject_Z 2) with 2 in *;
  change (inject_Z 3) with 3 in *; change (inject_Z 50) with 50 in *;
  change (inject_Z 99) with 99 in *; lra.

Lemma step_pressure_solve glsl_sqrt (dt : Q) (s : State)
        (vel p d : IDoubleFBO) (cu dv : IFBO) (W H : Z) :
  velocity s = Some vel -> curl s = Some cu -> divergence s = Some dv ->
  pressure s = Some p -> dye s = Some d -> glReady s = true ->
  (0 < W)%Z -> (0 < H)%Z ->
  simTexture W H (read p) -> simTexture W H (write p) -> simTexture W H dv ->
  dtexelSizeX vel == 1 / inject_Z W -> dtexelSizeY vel == 1 / inject_Z H ->
  let N := PRESSURE_ITERATIONS (config s) in
  let s' := step glsl_sqrt dt s in
  exists p' dv',
    pressure s' = Some p' /\ divergence s' = Some dv' /\
    (forall i j : Z,
        red (read p') i j
        = Nat.iter N (jacobiField W H (red dv'))
                   (fun i j => red (read p) i j * PRESSURE (config s)) i j) /\
    texture (read p') = (if Nat.even N then texture (write p) else texture (read p)) /\
    texture (write p') = (if Nat.even N then texture (read p) else texture (write p)).
Proof.
  intros Hvel Hcu Hdv Hp Hd Hgl HW HH Hr Hw Hsdv Hx Hy. cbv zeta.
  unfold step. rewrite Hvel, Hcu, Hdv, Hp, Hd, Hgl. cbn [negb pressure divergence set_fields].
  eexists. eexists. split; [reflexivity|]. split; [reflexivity|].
  set (ts := Vec2 (dtexelSizeX vel) (dtexelSizeY vel)).
  match goal with
  | |- context [pressureLoop _ ts ?dv1 ?pp] => set (div1 := dv1); set (p1 := pp)
  end.
  assert (Hdiv1 : simTexture W H div1) by (apply simTexture_blit; exact Hsdv).
  assert (Hr1 : simTexture W H (read p1)) by (apply simTexture_blit; exact Hw).
  assert (Hw1 : simTexture W H (write p1)) by exact Hr.
  pose proof (pressureLoop_spec W H ts div1 (PRESSURE_ITERATIONS (config s))
                HW HH Hdiv1 Hx Hy p1 Hr1 Hw1) as HL.
  cbv zeta in HL. destruct HL as (Hred & Htr & Htw).
  split; [|split].
  + intros i j. rewrite Hred. apply jacobi_iter_ext. clear i j. intros i j.
    unfold p1. rewrite (proj1 (drawAndSwap_read _ _ _ _)).
    destruct (simTexture_cols W H _ Hw) as [Hc Hrw].
    rewrite (red_blit W H) by assumption.
    rewrite (clearShader_texel W H) by assumption.
    pose proof (clampIndex_range i W HW). pose proof (clampIndex_range j H HH).
    rewrite !Z2Nat.id by lia. rewrite (red_clamped W H) by assumption. reflexivity.
  + rewrite Htr. reflexivity.
  + rewrite Htw. reflexivity.
Qed.

(** Where no sample coordinate comes within 0.01 of the border, the update
    is the four-neighbour formula. *)
Lemma jacobiTexel_interior (W H : Z) (div q : Z -> Z -> Q) (i j : Z) :
  (0 < W)%Z -> (0 < H)%Z ->
  (W <= 50 * (2 * i - 1))%Z -> (50 * (2 * i + 3) <= 99 * W)%Z ->
  (H <= 50 * (2 * j - 1))%Z -> (50 * (2 * j + 3) <= 99 * H)%Z ->
  jacobiTexel W H div q i j == jacobiTexel_spec div q i j.
Proof.
  intros HW HH H1 H2 H3 H4.
  pose proof (inject_Z_pos W HW) as PW. pose proof (inject_Z_pos H HH) as PH.
  assert (E1 : Qltb ((inject_Z (i - 1) + (1 # 2)) / inject_Z W) 0.01 = false).
  { apply Qltb_ge. apply Qle_shift_div_l; [exact PW|]. q2z H1. }
  assert (E2 : Qgtb ((inject_Z (i + 1) + (1 # 2)) / inject_Z W) (1.0 - 0.01) = false).
  { apply Qgtb_le. apply Qle_shift_div_r; [exact PW|]. q2z H2. }
  assert (E3 : Qltb ((inject_Z (j - 1) + (1 # 2)) / inject_Z H) 0.01 = false).
  { apply Qltb_ge. apply Qle_shift_div_l; [exact PH|]. q2z H3. }
  assert (E4 : Qgtb ((inject_Z (j + 1) + (1 # 2)) / inject_Z H) (1.0 - 0.01) = false).
  { apply Qgtb_le. apply Qle_shift_div_r; [exact PH|]. q2z H4. }
  unfold jacobiTexel, jacobiTexel_spec. rewrite E1, E2, E3, E4. field.
Qed.

(** Next to the left border of a grid wider than 50 texels the left
    neighbour is replaced by the right one, although it exists. *)
Lemma jacobiTexel_left_mirrored (W H : Z) (div q : Z -> Z -> Q) (i j : Z) :
  (0 < W)%Z -> (0 < H)%Z ->
  (50 * (2 * i - 1) < W)%Z -> (50 * (2 * i + 3) <= 99 * W)%Z ->
  (H <= 50 * (2 * j - 1))%Z -> (50 * (2 * j + 3) <= 99 * H)%Z ->
  jacobiTexel W H div q i j
  == (q (i + 1)%Z j + q (i + 1)%Z j + q i (j - 1)%Z + q i (j + 1)%Z - div i j) / 4.
Proof.
  intros HW HH H1 H2 H3 H4.
  pose proof (inject_Z_pos W HW) as PW. pose proof (inject_Z_pos H HH) as PH.
  assert (E1 : Qltb ((inject_Z (i - 1) + (1 # 2)) / inject_Z W) 0.01 = true).
  { apply Qltb_lt. apply Qlt_shift_div_r; [exact PW|]. q2z H1. }
  assert (E2 : Qgtb ((inject_Z (i + 1) + (1 # 2)) / inject_Z W) (1.0 - 0.01) = false).
  { apply Qgtb_le. apply Qle_shift_div_r; [exact PW|]. q2z H2. }
  assert (E3 : Qltb ((inject_Z (j - 1) + (1 # 2)) / inject_Z H) 0.01 = false).
  { apply Qltb_ge. apply Qle_shift_div_l; [exact PH|]. q2z H3. }
  assert (E4 : Qgtb ((inject_Z (j + 1) + (1 # 2)) / inject_Z H) (1.0 - 0.01) = false).
  { apply Qgtb_le. apply Qle_shift_div_r; [exact PH|]. q2z H4. }
  unfold jacobiTexel. rewrite E1, E2, E3, E4. field.
Qed.

(** On the 128 x 128 grid of the initial configuration, with
    [PRESSURE_ITERATIONS] set to 1 so that the pressure after the step is
    the result of a single iteration ([borderState]), the iteration does not
    compute the four-neighbour formula at texel [(1, 5)], whose four
    neighbours all exist: the sample coordinate of the left neighbour,
    [0.5 / 128], is below 0.01, so the shader puts the right neighbour in its
    place (t.ts, pressureShaderSource).  The faded pressure is 3.2 at
    [(0, 5)] and zero elsewhere: the shader's value at [(1, 5)] and the
    four-neighbour value differ by [3.2 / 4], whatever the divergence. *)
Lemma pressure_iteration_mirrors_beside_border :
  exists (p' : IDoubleFBO) (dv' : IFBO),
    pressure (step (fun x => x) (1 / 60) borderState) = Some p' /\
    divergence (step (fun x => x) (1 / 60) borderState) = Some dv' /\
    ~ red (read p') 1 5
      == jacobiTexel_spec (red dv')
           (fun i j => red (read borderPressure) i j * PRESSURE (config borderState)) 1 5.
Proof.
  destruct (step_pressure_solve (fun x => x) (1 / 60) borderState _ _ _ _ _ 128 128
              eq_refl eq_refl eq_refl eq_refl eq_refl eq_refl
              ltac:(lia) ltac:(lia)
              ltac:(repeat split) ltac:(repeat split) ltac:(repeat split)
              ltac:(reflexivity) ltac:(reflexivity))
    as (p' & dv' & Hp & Hdv & Hiter & _).
  exists p', dv'. split; [exact Hp|]. split; [exact Hdv|].
  intro Hred.
  rewrite Hiter in Hred.
  change (PRESSURE_ITERATIONS (config borderState)) with 1%nat in Hred.
  cbn [Nat.iter] in Hred. unfold jacobiField in Hred.
  change (clampIndex 1 128) with 1%Z in Hred. change (clampIndex 5 128) with 5%Z in Hred.
  set (q := fun i j : Z => red (read borderPressure) i j * PRESSURE (config borderState)) in Hred.
  pose proof (jacobiTexel_left_mirrored 128 128 (red dv') q 1 5
                ltac:(lia) ltac:(lia) ltac:(lia) ltac:(lia) ltac:(lia) ltac:(lia)) as E.
  rewrite E in Hred. clear E.
  unfold jacobiTexel_spec in Hred.
  change (1 + 1)%Z with 2%Z in Hred. change (1 - 1)%Z with 0%Z in Hred.
  change (5 + 1)%Z with 6%Z in Hred. change (5 - 1)%Z with 4%Z in Hred.
  assert (E2 : q 2%Z 5%Z == 0) by (vm_compute; reflexivity).
  assert (E0 : q 0%Z 5%Z == 3.2) by (vm_compute; reflexivity).
  rewrite E2, E0 in Hred.
  generalize dependent (red dv' 1 5). intros D.
  generalize (q 1%Z 4%Z) (q 1%Z 6%Z). intros B T Hred.
  clear - Hred. unfold Qdiv in Hred. change (/ 4) with (1 # 4) in Hred. lra.
Qed.

(** C1 (amended): in a simulation step (all resources present, pressure
    and divergence on the [W] by [H] simulation grid), the pressure pass
    first writes [pressure.read * PRESSURE] and swaps, and then runs exactly
    [PRESSURE_ITERATIONS] Jacobi iterations (20 in the initial
    configuration), each followed by a swap: the pressure read after the
    step is the [PRESSURE_ITERATIONS]-th iterate of the faded field under
    the update of the pressure shader with the divergence field of this
    step, and the two textures of the pair have changed roles
    [PRESSURE_ITERATIONS + 1] times.  An iteration computes
    [(L + R + B + T - div[x, y]) / 4] from the pressure left by the previous
    one, where [L], [R], [B], [T] are the four neighbours of the texel
    except beside the border: a neighbour whose sample coordinate lies
    within 0.01 of the edge of the unit square is replaced by the opposite
    one.  The four-neighbour formula holds at the texels [(x, y)] with
    [W <= 50 (2 x - 1)], [50 (2 x + 3) <= 99 W], [H <= 50 (2 y - 1)] and
    [50 (2 y + 3) <= 99 H]. *)
Theorem step_pressure_pass glsl_sqrt (dt : Q) (s : State)
        (vel p d : IDoubleFBO) (cu dv : IFBO) (W H : Z) :
  velocity s = Some vel -> curl s = Some cu -> divergence s = Some dv ->
  pressure s = Some p -> dye s = Some d -> glReady s = true ->
  (0 < W)%Z -> (0 < H)%Z ->
  simTexture W H (read p) -> simTexture W H (write p) -> simTexture W H dv ->
  dtexelSizeX vel == 1 / inject_Z W -> dtexelSizeY vel == 1 / inject_Z H ->
  let N := PRESSURE_ITERATIONS (config s) in
  let s' := step glsl_sqrt dt s in
  PRESSURE_ITERATIONS defaultConfig = 20%nat /\
  (exists p' dv',
      pressure s' = Some p' /\ divergence s' = Some dv' /\
      (forall i j : Z,
          red (read p') i j
          = Nat.iter N (jacobiField W H (red dv'))
                     (fun i j => red (read p) i j * PRESSURE (config s)) i j) /\
      texture (read p') = (if Nat.even N then texture (write p) else texture (read p)) /\
      texture (write p') = (if Nat.even N then texture (read p) else texture (write p))) /\
  (forall (div q : Z -> Z -> Q) (i j : Z),
      (W <= 50 * (2 * i - 1))%Z -> (50 * (2 * i + 3) <= 99 * W)%Z ->
      (H <= 50 * (2 * j - 1))%Z -> (50 * (2 * j + 3) <= 99 * H)%Z ->
      jacobiTexel W H div q i j == jacobiTexel_spec div q i j).
Proof.
  intros Hvel Hcu Hdv Hp Hd Hgl HW HH Hr Hw Hsdv Hx Hy. cbv zeta.
  split; [reflexivity|]. split.
  - exact (step_pressure_solve glsl_sqrt dt s vel p d cu dv W H
             Hvel Hcu Hdv Hp Hd Hgl HW HH Hr Hw Hsdv Hx Hy).
  - intros div q i j H1 H2 H3 H4. apply jacobiTexel_interior; assumption.
Qed.

(** ** The pressure pass and the splat on a small state *)

Lemma step_pressure_pass_witness :
  let s := squareState in
  (exists p' dv',
      pressure (step (fun _ => 1) (1 / 60) s) = Some p' /\
      divergence (step (fun _ => 1) (1 / 60) s) = Some dv' /\
      (forall i j : Z,
          red (read p') i j
          = Nat.iter 20 (jacobiField 4 4 (red dv'))
                     (fun i j => red (textureOf 7 4 4 FormatR NEAREST squarePressure) i j
                                 * 0.8) i j) /\
      texture (read p') = 8%nat /\ texture (write p') = 7%nat) /\
  (forall div q : Z -> Z -> Q,
      jacobiTexel 4 4 div q 1 1
      == (q 0%Z 1%Z + q 2%Z 1%Z + q 1%Z 0%Z + q 1%Z 2%Z - div 1%Z 1%Z) / 4).
Proof.
  cbv zeta.
  pose proof (step_pressure_pass (fun _ => 1) (1 / 60) squareState _ _ _ _ _ 4 4
                eq_refl eq_refl eq_refl eq_refl eq_refl eq_refl
                eq_refl eq_refl
                (conj eq_refl (conj eq_refl eq_refl))
                (conj eq_refl (conj eq_refl eq_refl))
                (conj eq_refl (conj eq_refl eq_refl))
                eq_refl eq_refl) as (_ & Hsolve & Hformula).
  split.
  - exact Hsolve.
  - intros div q.
    exact (Hformula div q 1%Z 1%Z ltac:(lia) ltac:(lia) ltac:(lia) ltac:(lia)).
Defined.

Lemma splat_gaussian_witness :
  let s := exampleState (blank 4 2) in
  let radius := 0.25 / 100.0 * (inject_Z 200 / inject_Z 100) * 1 in
  exists vel' d',
    velocity (splat (fun _ => 1) (1 # 2) (1 # 2) 1 0 (mkColor 1 0 0) 1 s) = Some vel' /\
    dye (splat (fun _ => 1) (1 # 2) (1 # 2) 1 0 (mkColor 1 0 0) 1 s) = Some d' /\
    splatted (fun _ => 1) (textureOf 4 4 2 FormatRG LINEAR (blank 4 2))
             (textureOf 3 4 2 FormatRG LINEAR (repeat (repeat (Vec4 (- (5 # 2)) 0 0 1) 4) 2))
             (1 # 2) (1 # 2) (Vec3 1 0 0.0) radius (read vel') /\
    splatted (fun _ => 1) (textureOf 2 4 2 FormatRGBA LINEAR (blank 4 2))
             (textureOf 1 4 2 FormatRGBA LINEAR
                [[Vec4 1 0 0 1; zero4; zero4; zero4]; [zero4; zero4; zero4; zero4]])
             (1 # 2) (1 # 2) (Vec3 1 0 0) radius (read d').
Proof.
  cbv zeta.
  refine (proj1 (splat_gaussian (fun _ => 1) (exampleState (blank 4 2)) _ _ _
            (1 # 2) (1 # 2) 1 0 (mkColor 1 0 0) 1
            eq_refl eq_refl eq_refl eq_refl _ _)); cbn; lia.
Defined.

(** ** Dye dissipation (t.ts, fluidSimulation.ts) *)

Lemma within_maxAbs4 (M : Q) (c : vec4) : within M c <-> maxAbs4 c <= M.
Proof.
  unfold within, maxAbs4. rewrite !Q.max_lub_iff, !Qabs_Qle_condition. tauto.
Qed.

Lemma within_zero (M : Q) : 0 <= M -> within M zero4.
Proof. intro H. unfold within, zero4. cbn. repeat split; lra. Qed.

Lemma within_mono (M M' : Q) (c : vec4) : M <= M' -> within M c -> within M' c.
Proof. unfold within. intros H (A & B & C & D). repeat split; lra. Qed.

Lemma maxAbs_nonneg (f : IFBO) : 0 <= maxAbs f.
Proof.
  unfold maxAbs. induction (pixels f) as [|row rest IH]; cbn [fold_right]; [lra|].
  induction row as [|c row IHr]; cbn [fold_right]; [exact IH|].
  eapply Qle_trans; [exact IHr | apply Q.le_max_r].
Qed.

Lemma maxAbs_ge (f : IFBO) (row : list vec4) (c : vec4) :
  In row (pixels f) -> In c row -> maxAbs4 c <= maxAbs f.
Proof.
  unfold maxAbs. induction (pixels f) as [|row0 rest IH]; intros Hrow Hc; [contradiction|].
  cbn [fold_right].
  set (m := fold_right (fun row m => fold_right (fun c m' => Qmax (maxAbs4 c) m') m row)
                       0 rest) in *.
  assert (Hm : forall l, m <= fold_right (fun c m' => Qmax (maxAbs4 c) m') m l).
  { induction l as [|x l IHl]; cbn [fold_right]; [lra|].
    eapply Qle_trans; [exact IHl | apply Q.le_max_r]. }
  destruct Hrow as [<- | Hrow].
  - clear IH. induction row0 as [|x l IHl]; [contradiction|]. cbn [fold_right].
    destruct Hc as [<- | Hc]; [apply Q.le_max_l|].
    eapply Qle_trans; [apply IHl; exact Hc | apply Q.le_max_r].
  - eapply Qle_trans; [apply IH; assumption | apply Hm].
Qed.

Lemma maxAbs_le (f : IFBO) (B : Q) :
  0 <= B ->
  (forall row c, In row (pixels f) -> In c row -> within B c) ->
  maxAbs f <= B.
Proof.
  intros HB. unfold maxAbs. induction (pixels f) as [|row0 rest IH]; intro Hall;
    cbn [fold_right]; [exact HB|].
  assert (IH' : fold_right (fun row m => fold_right (fun c m' => Qmax (maxAbs4 c) m') m row)
                           0 rest <= B).
  { apply IH. intros row c Hr Hc. apply (Hall row c); [right; exact Hr | exact Hc]. }
  assert (Hrow : forall c, In c row0 -> within B c).
  { intros c Hc. apply (Hall row0 c); [left; reflexivity | exact Hc]. }
  clear IH Hall. induction row0 as [|x l IHl]; cbn [fold_right]; [exact IH'|].
  apply Q.max_lub.
  - apply within_maxAbs4. apply Hrow. left. reflexivity.
  - apply IHl. intros c Hc. apply Hrow. right. exact Hc.
Qed.

(** What is stored in a texture is within its max. *)
Lemma stored_within (f : IFBO) (i j : nat) : within (maxAbs f) (stored f i j).
Proof.
  unfold stored.
  destruct (nth_in_or_default j (pixels f) []) as [Hrow | Hrow].
  - destruct (nth_in_or_default i (nth j (pixels f) []) zero4) as [Hc | Hc].
    + apply within_maxAbs4. eapply maxAbs_ge; eassumption.
    + rewrite Hc. apply within_zero, maxAbs_nonneg.
  - rewrite Hrow. destruct i; cbn; apply within_zero, maxAbs_nonneg.
Qed.

Lemma texel_within (f : IFBO) (i j : Z) :
  format f = FormatRGBA -> within (maxAbs f) (texel f i j).
Proof. intro Hf. unfold texel. rewrite Hf. cbn [expand]. apply stored_within. Qed.

Lemma fract_range (x : Q) : 0 <= fract x <= 1.
Proof.
  unfold fract, floor. pose proof (Qfloor_le x). pose proof (Qlt_floor x) as Hlt.
  rewrite inject_Z_plus in Hlt. change (inject_Z 1) with 1 in Hlt. split; lra.
Qed.

Lemma mix_within (M a b t : Q) :
  0 <= t <= 1 -> - M <= a <= M -> - M <= b <= M -> - M <= mix a b t <= M.
Proof. intros Ht Ha Hb. unfold mix. split; nra. Qed.

Lemma mix4_within (M : Q) (a b : vec4) (t : Q) :
  0 <= t <= 1 -> within M a -> within M b -> within M (mix4 a b t).
Proof.
  intros Ht (A1 & A2 & A3 & A4) (B1 & B2 & B3 & B4). unfold mix4, within.
  cbn [r4 g4 b4 a4]. repeat split; apply mix_within; assumption.
Qed.

(** Sampling, with either filter, is a convex combination of texels. *)
Lemma texture2D_within (f : IFBO) (uv : vec2) :
  format f = FormatRGBA -> within (maxAbs f) (texture2D f uv).
Proof.
  intro Hf. unfold texture2D. destruct (param f).
  - apply texel_within. exact Hf.
  - repeat apply mix4_within; try apply fract_range; apply texel_within; exact Hf.
Qed.

Lemma bilerp_within (M : Q) (sam : sampler2D) (uv tsize : vec2) :
  (forall c, within M (sam c)) -> within M (bilerp sam uv tsize).
Proof.
  intro Hs. unfold bilerp, fract2. cbn [x2 y2].
  repeat apply mix4_within; try apply fract_range; apply Hs.
Qed.

Lemma decayFactor_range (dissipation dt : Q) :
  0 <= dissipation -> 0 <= dt -> 0 < decayFactor dissipation dt <= 1.
Proof.
  intros HD Hdt. unfold decayFactor.
  assert (H1 : 1 <= 1 + dissipation * dt) by nra.
  split.
  - apply Qlt_shift_div_l; lra.
  - apply Qle_shift_div_r; lra.
Qed.

(** The advection shader scales a sample of the source by the decay
    factor. *)
Lemma advectionShader_within (M : Q) (manual : bool) (uVelocity uSource : sampler2D)
      (ts dts : vec2) (dt dissipation : Q) (v : Varyings) :
  0 <= dissipation -> 0 <= dt ->
  (forall c, within M (uSource c)) ->
  within (decayFactor dissipation dt * M)
         (advectionShader manual uVelocity uSource ts dts dt dissipation v).
Proof.
  intros HD Hdt Hs. destruct (decayFactor_range dissipation dt HD Hdt) as [Hk0 Hk1].
  unfold advectionShader. fold (decayFactor dissipation dt).
  set (k := decayFactor dissipation dt) in *.
  match goal with |- within _ (Vec4 (r4 ?res * _) _ _ _) =>
    assert (Hr : within M res)
      by (destruct manual; [apply bilerp_within; exact Hs | apply Hs]);
    set (result := res) in *
  end.
  destruct Hr as (A & B & C & D). unfold within. cbn [r4 g4 b4 a4].
  repeat split; nra.
Qed.

Lemma blit_maxAbs (target : IFBO) clear ts frag (B : Q) :
  0 <= B -> (forall v, within B (frag v)) ->
  maxAbs (blit target clear ts frag) <= B.
Proof.
  intros HB Hf. apply maxAbs_le; [exact HB|].
  intros row c Hrow Hc. unfold blit, set_pixels in Hrow. cbn [pixels] in Hrow.
  apply in_map_iff in Hrow. destruct Hrow as (j & <- & _).
  apply in_map_iff in Hc. destruct Hc as (i & <- & _). apply Hf.
Qed.

Lemma step_dye glsl_sqrt (dt : Q) (s : State) (vel p d : IDoubleFBO) (cu dv : IFBO) :
  velocity s = Some vel -> curl s = Some cu -> divergence s = Some dv ->
  pressure s = Some p -> dye s = Some d -> glReady s = true ->
  let s' := step glsl_sqrt dt s in
  let k := decayFactor (DENSITY_DISSIPATION (config s)) dt in
  config s' = config s /\ glReady s' = true /\
  supportLinearFiltering s' = supportLinearFiltering s /\
  exists v3 cu' dv' p' d',
    velocity s' = Some v3 /\ curl s' = Some cu' /\ divergence s' = Some dv' /\
    pressure s' = Some p' /\ dye s' = Some d' /\
    write d' = read d /\
    format (read d') = format (write d) /\
    read d' = blit (write d) true (Vec2 (dtexelSizeX vel) (dtexelSizeY vel))
                (advectionShader (negb (supportLinearFiltering s))
                   (attach (read v3)) (attach (read d))
                   (Vec2 (dtexelSizeX vel) (dtexelSizeY vel))
                   (if negb (supportLinearFiltering s)
                    then Vec2 (dtexelSizeX d) (dtexelSizeY d) else Vec2 0 0)
                   dt (DENSITY_DISSIPATION (config s))) /\
    (forall i j : nat,
        (Z.of_nat i < cols (write d))%Z -> (Z.of_nat j < rows (write d))%Z ->
        let sample :=
          backtraced (supportLinearFiltering s) v3 d dt
            (fragment (write d) (Vec2 (dtexelSizeX vel) (dtexelSizeY vel)) i j) in
        stored (read d') i j
        = Vec4 (r4 sample * k) (g4 sample * k) (b4 sample * k) (a4 sample * k)) /\
    (format (read d) = FormatRGBA -> 0 <= DENSITY_DISSIPATION (config s) -> 0 <= dt ->
     maxAbs (read d') <= k * maxAbs (read d)).
Proof.
  intros Hvel Hcu Hdv Hp Hd Hgl. cbv zeta.
  unfold step. rewrite Hvel, Hcu, Hdv, Hp, Hd, Hgl. cbn [negb].
  cbn [config glReady supportLinearFiltering velocity curl divergence pressure dye
       set_fields].
  split; [reflexivity|]. split; [exact Hgl|]. split; [reflexivity|].
  do 5 eexists.
  split; [reflexivity|]. split; [reflexivity|]. split; [reflexivity|].
  split; [reflexivity|]. split; [reflexivity|].
  split; [reflexivity|]. split; [reflexivity|]. split; [reflexivity|]. split.
  - intros i j Hi Hj. cbv zeta.
    rewrite (proj1 (drawAndSwap_read _ _ _ _)), blit_stored by assumption.
    unfold advectionShader, backtraced, attach, decayFactor.
    destruct (supportLinearFiltering s); reflexivity.
  - intros Hfmt HD Hdt.
    rewrite (proj1 (drawAndSwap_read _ _ _ _)).
    apply blit_maxAbs.
    + destruct (decayFactor_range _ _ HD Hdt). pose proof (maxAbs_nonneg (read d)). nra.
    + intro v. apply advectionShader_within; try assumption.
      intro c. apply texture2D_within. exact Hfmt.
Qed.

Lemma step_ready glsl_sqrt (dt : Q) (s : State) :
  ready s -> 0 <= DENSITY_DISSIPATION (config s) -> 0 <= dt ->
  ready (step glsl_sqrt dt s) /\
  config (step glsl_sqrt dt s) = config s /\
  dyeMax (step glsl_sqrt dt s)
    <= decayFactor (DENSITY_DISSIPATION (config s)) dt * dyeMax s.
Proof.
  intros (vel & cu & dv & p & d & Hvel & Hcu & Hdv & Hp & Hd & Hgl & Hfr & Hfw) HD Hdt.
  pose proof (step_dye glsl_sqrt dt s vel p d cu dv Hvel Hcu Hdv Hp Hd Hgl) as H.
  cbv zeta in H.
  destruct H as (Hcfg & Hgl' & _ & v3 & cu' & dv' & p' & d' &
                 Ev & Ec & Edv & Ep & Ed & Ew & Ef & _ & _ & Hmax).
  split; [|split; [exact Hcfg|]].
  - exists v3, cu', dv', p', d'. repeat split; try assumption.
    + rewrite Ef. exact Hfw.
    + rewrite Ew. exact Hfr.
  - unfold dyeMax. rewrite Ed, Hd. apply Hmax; assumption.
Qed.

Lemma power_nonneg (q : Q) (n : nat) : 0 <= q -> 0 <= power q n.
Proof.
  intro Hq. induction n as [|n IH]; cbn [power]; [lra|].
  apply Qmult_le_0_compat; assumption.
Qed.

Lemma steps_dyeMax glsl_sqrt (dt : Q) (n : nat) :
  forall s, ready s -> 0 <= DENSITY_DISSIPATION (config s) -> 0 <= dt ->
            dyeMax (steps glsl_sqrt n dt s)
            <= power (decayFactor (DENSITY_DISSIPATION (config s)) dt) n * dyeMax s.
Proof.
  induction n as [|n IH]; intros s Hr HD Hdt; cbn [steps power].
  - lra.
  - destruct (step_ready glsl_sqrt dt s Hr HD Hdt) as (Hr' & Hcfg & Hstep).
    specialize (IH (step glsl_sqrt dt s) Hr'). rewrite Hcfg in IH.
    specialize (IH HD Hdt).
    destruct (decayFactor_range _ _ HD Hdt) as [Hk0 Hk1].
    set (k := decayFactor (DENSITY_DISSIPATION (config s)) dt) in *.
    pose proof (power_nonneg k n (Qlt_le_weak _ _ Hk0)) as Hp.
    set (pk := power k n) in *.
    set (m1 := dyeMax (step glsl_sqrt dt s)) in *.
    set (m0 := dyeMax s) in *.
    set (mn := dyeMax (steps glsl_sqrt n dt (step glsl_sqrt dt s))) in *.
    apply Qle_trans with (pk * m1); [exact IH|].
    setoid_replace (k * pk * m0) with (pk * (k * m0)) by ring.
    nra.
Qed.

(** ** A one-texel simulation grid *)

(** Every sample of a 1 x 1 texture is its only texel. *)
Lemma texture2D_1x1 (f : IFBO) (uv : vec2) :
  simTexture 1 1 f -> texture2D f uv = texel f 0 0.
Proof.
  intro Hf. destruct (simTexture_cols 1 1 f Hf) as [Hc Hr].
  destruct Hf as (_ & _ & Hp). unfold texture2D, texel. rewrite Hp, Hc, Hr.
  unfold clampIndex.
  replace (Z.max 0 (Z.min (Qfloor (x2 uv * inject_Z 1)) (1 - 1))) with 0%Z by lia.
  replace (Z.max 0 (Z.min (Qfloor (y2 uv * inject_Z 1)) (1 - 1))) with 0%Z by lia.
  reflexivity.
Qed.

Lemma texel_blit_1x1 (target : IFBO) clear ts frag :
  simTexture 1 1 target ->
  texel (blit target clear ts frag) 0 0
  = expand (format target) (frag (fragment target ts 0 0)).
Proof.
  intro Ht. destruct (simTexture_cols 1 1 target Ht) as [Hc Hr].
  unfold texel.
  destruct (blit_shape target clear ts frag) as (_ & _ & _ & Hf & _ & Hc' & Hr').
  cbv zeta in Hf, Hc', Hr'. rewrite Hf, Hc', Hr', Hc, Hr.
  change (Z.to_nat (clampIndex 0 1)) with 0%nat.
  rewrite blit_stored by (rewrite ?Hc, ?Hr; reflexivity).
  reflexivity.
Qed.

Lemma sample_blit_1x1 (target : IFBO) clear ts frag (uv : vec2) :
  simTexture 1 1 target ->
  texture2D (blit target clear ts frag) uv
  = expand (format target) (frag (fragment target ts 0 0)).
Proof.
  intro Ht. rewrite texture2D_1x1 by (apply simTexture_blit; exact Ht).
  apply texel_blit_1x1. exact Ht.
Qed.

Section OneTexel.

Variable glsl_sqrt : Q -> Q.

(** The curl of a one-texel velocity field is zero. *)
Lemma curl_1x1 (target velr : IFBO) (ts uv : vec2) :
  simTexture 1 1 target -> simTexture 1 1 velr ->
  r4 (texture2D (blit target true ts (curlShader (attach velr))) uv) == 0.
Proof.
  intros Ht Hv. rewrite sample_blit_1x1 by exact Ht. rewrite r4_expand.
  unfold curlShader, attach. rewrite !(texture2D_1x1 velr) by exact Hv.
  cbn [r4]. ring.
Qed.

(** Vorticity confinement adds nothing where the curl is zero. *)
Lemma vorticity_1x1 (target velr curlf : IFBO) (ts uv : vec2) (curl dt : Q) :
  simTexture 1 1 target -> simTexture 1 1 velr -> format target = FormatRG ->
  (forall c, r4 (texture2D curlf c) == 0) ->
  eq2 (xy (texture2D (blit target true ts
                        (vorticityShader glsl_sqrt (attach velr) (attach curlf) curl dt))
                     uv))
      (xy (texel velr 0 0)).
Proof.
  intros Ht Hv Hfmt Hc. rewrite sample_blit_1x1 by exact Ht. rewrite Hfmt.
  unfold vorticityShader, attach. rewrite !(texture2D_1x1 velr) by exact Hv.
  cbn [expand vec4_of2 xy r4 g4 x2 y2 add2 scale2].
  unfold eq2, xy. cbn [x2 y2 r4 g4].
  pose proof (Hc (vUv (fragment target ts 0 0))) as HC.
  rewrite HC. split; ring.
Qed.

(** The pressure gradient of a one-texel pressure field is zero. *)
Lemma gradientSubtract_1x1 (target pr velr : IFBO) (ts uv : vec2) :
  simTexture 1 1 target -> simTexture 1 1 pr -> simTexture 1 1 velr ->
  format target = FormatRG ->
  eq2 (xy (texture2D (blit target true ts
                        (gradientSubtractShader (attach pr) (attach velr))) uv))
      (xy (texel velr 0 0)).
Proof.
  intros Ht Hp Hv Hfmt. rewrite sample_blit_1x1 by exact Ht. rewrite Hfmt.
  unfold gradientSubtractShader, attach.
  rewrite !(texture2D_1x1 pr) by exact Hp. rewrite !(texture2D_1x1 velr) by exact Hv.
  cbn [expand vec4_of2 xy r4 g4 x2 y2 sub2 scale2].
  unfold eq2, xy. cbn [x2 y2 r4 g4]. split; ring.
Qed.

(** Self-advection of a one-texel velocity field only applies the decay. *)
Lemma advection_1x1 (target velr : IFBO) (ts dts uv : vec2) (dt dissipation : Q) :
  simTexture 1 1 target -> simTexture 1 1 velr -> format target = FormatRG ->
  eq2 (xy (texture2D (blit target true ts
                        (advectionShader true (attach velr) (attach velr) ts dts
                           dt dissipation)) uv))
      (scale2 (decayFactor dissipation dt) (xy (texel velr 0 0))).
Proof.
  intros Ht Hv Hfmt. rewrite sample_blit_1x1 by exact Ht. rewrite Hfmt.
  unfold advectionShader, bilerp, attach, decayFactor.
  rewrite !(texture2D_1x1 velr) by exact Hv.
  cbn [expand xy r4 g4 x2 y2 scale2 mix4]. unfold mix, eq2, xy, scale2.
  cbn [x2 y2 r4 g4]. split; ring.
Qed.

End OneTexel.

Lemma pressureLoop_shape (W H : Z) (ts : vec2) (dv : IFBO) (n : nat) :
  forall p, simTexture W H (read p) -> simTexture W H (write p) ->
            simTexture W H (read (pressureLoop n ts dv p)) /\
            simTexture W H (write (pressureLoop n ts dv p)).
Proof.
  induction n as [|n IH]; intros p Hr Hw; cbn [pressureLoop]; [split; assumption|].
  apply IH.
  - rewrite (proj1 (drawAndSwap_read _ _ _ _)). apply simTexture_blit. exact Hw.
  - rewrite (proj2 (drawAndSwap_read _ _ _ _)). exact Hr.
Qed.

(** On a one-texel simulation grid without linear filtering, a step only
    scales the velocity by the decay factor of [VELOCITY_DISSIPATION]:
    curl, divergence and pressure gradient all vanish. *)
Lemma step_velocity_1x1 glsl_sqrt (dt : Q) (s : State)
      (vel p d : IDoubleFBO) (cu dv : IFBO) :
  velocity s = Some vel -> curl s = Some cu -> divergence s = Some dv ->
  pressure s = Some p -> dye s = Some d -> glReady s = true ->
  supportLinearFiltering s = false ->
  simTexture 1 1 (read vel) -> simTexture 1 1 (write vel) ->
  format (read vel) = FormatRG -> format (write vel) = FormatRG ->
  simTexture 1 1 cu -> simTexture 1 1 (read p) -> simTexture 1 1 (write p) ->
  exists v3,
    velocity (step glsl_sqrt dt s) = Some v3 /\
    forall uv,
      eq2 (xy (texture2D (read v3) uv))
          (scale2 (decayFactor (VELOCITY_DISSIPATION (config s)) dt)
                  (xy (texel (read vel) 0 0))).
Proof.
  intros Hvel Hcu Hdv Hp Hd Hgl Hlin Hvr Hvw Hfr Hfw Hc Hpr Hpw.
  unfold step. rewrite Hvel, Hcu, Hdv, Hp, Hd, Hgl, Hlin. cbn [negb velocity set_fields].
  eexists. split; [reflexivity|]. intro uv.
  set (ts := Vec2 (dtexelSizeX vel) (dtexelSizeY vel)).
  set (curl1 := blit cu true ts (curlShader (attach (read vel)))).
  set (v1 := drawAndSwap vel true ts
               (vorticityShader glsl_sqrt (attach (read vel)) (attach curl1)
                  (CURL (config s)) dt)).
  match goal with
  | |- context [gradientSubtractShader (attach (read ?pp)) _] => set (p2 := pp)
  end.
  set (v2 := drawAndSwap v1 true ts
               (gradientSubtractShader (attach (read p2)) (attach (read v1)))).
  assert (Hv1r : simTexture 1 1 (read v1)) by (apply simTexture_blit; exact Hvw).
  assert (Hp2 : simTexture 1 1 (read p2)).
  { apply pressureLoop_shape.
    - apply simTexture_blit. exact Hpw.
    - exact Hpr. }
  assert (Hv2r : simTexture 1 1 (read v2)) by (apply simTexture_blit; exact Hvr).
  assert (E1 : forall c, eq2 (xy (texture2D (read v1) c)) (xy (texel (read vel) 0 0))).
  { intro c. apply vorticity_1x1; try assumption.
    intro c'. apply curl_1x1; assumption. }
  assert (E2 : forall c, eq2 (xy (texture2D (read v2) c)) (xy (texel (read vel) 0 0))).
  { intro c.
    pose proof (gradientSubtract_1x1 (write v1) (read p2) (read v1) ts c
                  Hvr Hp2 Hv1r Hfr) as [Ex Ey].
    destruct (E1 (Vec2 0 0)) as [Ex1 Ey1].
    rewrite (texture2D_1x1 (read v1)) in Ex1, Ey1 by exact Hv1r.
    split; [rewrite <- Ex1 | rewrite <- Ey1]; assumption. }
  pose proof (advection_1x1 (write v2) (read v2) ts ts uv dt
                (VELOCITY_DISSIPATION (config s)) Hv1r Hv2r Hfw) as [Ex Ey].
  destruct (E2 (Vec2 0 0)) as [Ex2 Ey2].
  rewrite (texture2D_1x1 (read v2)) in Ex2, Ey2 by exact Hv2r.
  unfold scale2 in *. cbn [x2 y2] in *.
  split; cbn [x2 y2]; [rewrite <- Ex2 | rewrite <- Ey2]; assumption.
Qed.

(** ** A frame in which the dye maximum drops by more than the factor *)

Lemma floor_comp (x y : Q) : x == y -> floor x = floor y.
Proof. intro H. unfold floor. rewrite (Qfloor_comp _ _ H). reflexivity. Qed.

Lemma fract_comp (x y : Q) : x == y -> fract x == fract y.
Proof. intro H. unfold fract. rewrite (floor_comp _ _ H), H. reflexivity. Qed.

Lemma mix4_comp (a b : vec4) (t t' : Q) : t == t' -> eq4 (mix4 a b t) (mix4 a b t').
Proof.
  intro H. unfold eq4, mix4, mix. cbn [r4 g4 b4 a4]. rewrite H.
  repeat split; reflexivity.
Qed.

Lemma mix4_comp_all (a a' b b' : vec4) (t t' : Q) :
  eq4 a a' -> eq4 b b' -> t == t' -> eq4 (mix4 a b t) (mix4 a' b' t').
Proof.
  intros (A1 & A2 & A3 & A4) (B1 & B2 & B3 & B4) H. unfold eq4, mix4, mix.
  cbn [r4 g4 b4 a4]. rewrite H, A1, A2, A3, A4, B1, B2, B3, B4.
  repeat split; reflexivity.
Qed.

(** [bilerp] depends on its coordinate only up to equality of numbers. *)
Lemma bilerp_comp (sam : sampler2D) (uv uv' tsize : vec2) :
  eq2 uv uv' -> eq4 (bilerp sam uv tsize) (bilerp sam uv' tsize).
Proof.
  intros [Hx Hy]. unfold bilerp, floor2, fract2. cbn [x2 y2].
  assert (Ex : x2 uv / x2 tsize - 0.5 == x2 uv' / x2 tsize - 0.5) by (rewrite Hx; reflexivity).
  assert (Ey : y2 uv / y2 tsize - 0.5 == y2 uv' / y2 tsize - 0.5) by (rewrite Hy; reflexivity).
  rewrite (floor_comp _ _ Ex), (floor_comp _ _ Ey).
  apply mix4_comp_all; [apply mix4_comp | apply mix4_comp |]; apply fract_comp; assumption.
Qed.

Lemma within_eq4 (M : Q) (a b : vec4) : eq4 a b -> within M a -> within M b.
Proof.
  intros (E1 & E2 & E3 & E4) (A & B & C & D). unfold within.
  rewrite <- E1, <- E2, <- E3, <- E4. repeat split; lra.
Qed.

(** The advection shader with manual filtering, when the velocity sample is
    known up to equality of numbers. *)
Lemma advectionShader_manual_within (M : Q) (uVelocity uSource : sampler2D)
      (ts dts vel : vec2) (dt dissipation : Q) (v : Varyings) :
  0 <= dissipation -> 0 <= dt ->
  eq2 (xy (uVelocity (vUv v))) vel ->
  within M (bilerp uSource (sub2 (vUv v) (scale2 dt vel)) dts) ->
  within (M * decayFactor dissipation dt)
         (advectionShader true uVelocity uSource ts dts dt dissipation v).
Proof.
  intros HD Hdt [Hx Hy] Hw.
  destruct (decayFactor_range dissipation dt HD Hdt) as [Hk0 Hk1].
  unfold advectionShader. fold (decayFactor dissipation dt).
  set (k := decayFactor dissipation dt) in *.
  assert (Hr : within M (bilerp uSource
                           (sub2 (vUv v) (scale2 dt (xy (uVelocity (vUv v))))) dts)).
  { eapply within_eq4; [|exact Hw]. apply bilerp_comp.
    unfold eq2, sub2, scale2. cbn [x2 y2]. rewrite Hx, Hy. split; reflexivity. }
  set (result := bilerp uSource _ dts) in *.
  destruct Hr as (A & B & C & D). unfold within. cbn [r4 g4 b4 a4].
  repeat split; nra.
Qed.

Lemma blit_maxAbs_cells (target : IFBO) clear ts frag (B : Q) :
  0 <= B ->
  (forall i j : nat, (i < Z.to_nat (cols target))%nat -> (j < Z.to_nat (rows target))%nat ->
                     within B (frag (fragment target ts i j))) ->
  maxAbs (blit target clear ts frag) <= B.
Proof.
  intros HB Hf. apply maxAbs_le; [exact HB|].
  intros row c Hrow Hc. unfold blit, set_pixels in Hrow. cbn [pixels] in Hrow.
  apply in_map_iff in Hrow. destruct Hrow as (j & <- & Hj).
  apply in_map_iff in Hc. destruct Hc as (i & <- & Hi).
  apply in_seq in Hi, Hj. apply Hf; lia.
Qed.

(** The dye pass of [driftState], for any velocity that reads [(-5, 0)]
    everywhere: each of the four dye texels samples half-way between two
    texels, so no channel above 1 survives. *)
Lemma drift_dye_pass (v3 : IDoubleFBO) :
  (forall uv,
      eq2 (xy (texture2D (read v3) uv))
          (scale2 (decayFactor 0.2 0.05) (Vec2 (-5.05) 0))) ->
  maxAbs (blit (write driftDye) true (Vec2 1 1)
            (advectionShader true (attach (read v3)) (attach (read driftDye))
               (Vec2 1 1) (Vec2 (1 / 2) (1 / 2)) 0.05 1.0))
  <= 1 * decayFactor 1.0 0.05.
Proof.
  intro Hvel.
  assert (Hk : 0 < decayFactor 1.0 0.05 <= 1) by (apply decayFactor_range; discriminate).
  apply blit_maxAbs_cells; [lra|].
  intros i j Hi Hj.
  apply advectionShader_manual_within
    with (vel := scale2 (decayFactor 0.2 0.05) (Vec2 (-5.05) 0));
    try discriminate.
  - apply Hvel.
  - change (Z.to_nat (cols _)) with 2%nat in Hi.
    change (Z.to_nat (rows _)) with 2%nat in Hj.
    destruct i as [|[|i]]; [| |lia]; (destruct j as [|[|j]]; [| |lia]);
      vm_compute; repeat split; discriminate.
Qed.

Lemma drift_step_dyeMax glsl_sqrt :
  dyeMax (step glsl_sqrt 0.05 driftState) <= 1 * decayFactor 1.0 0.05.
Proof.
  assert (Hs : simTexture 1 1 (textureOf 3 1 1 FormatRG NEAREST [[Vec4 (-5.05) 0 0 1]])).
  { repeat split; reflexivity. }
  assert (Hb : forall h fmt, simTexture 1 1 (textureOf h 1 1 fmt NEAREST (blank 1 1))).
  { intros. repeat split; reflexivity. }
  destruct (step_velocity_1x1 glsl_sqrt 0.05 driftState
              driftVelocity driftPressure driftDye
              (textureOf 6 1 1 FormatR NEAREST (blank 1 1))
              (textureOf 5 1 1 FormatR NEAREST (blank 1 1))
              eq_refl eq_refl eq_refl eq_refl eq_refl eq_refl eq_refl
              Hs (Hb _ _) eq_refl eq_refl (Hb _ _) (Hb _ _) (Hb _ _))
    as (v3 & Hv3 & Hvel).
  destruct (step_dye glsl_sqrt 0.05 driftState
              driftVelocity driftPressure driftDye
              (textureOf 6 1 1 FormatR NEAREST (blank 1 1))
              (textureOf 5 1 1 FormatR NEAREST (blank 1 1))
              eq_refl eq_refl eq_refl eq_refl eq_refl eq_refl)
    as (_ & _ & _ & v3' & cu' & dv' & p' & d' & Ev & _ & _ & _ & Ed & _ & _ & Er & _).
  rewrite Hv3 in Ev. injection Ev as <-.
  unfold dyeMax. rewrite Ed, Er.
  apply (drift_dye_pass v3). exact Hvel.
Qed.

(** One frame at [dt = 0.05] on [driftState], no splat injected: the
    velocity, scaled to [(-5, 0)], moves the back-trace of every dye texel a
    quarter of the surface (half a dye texel) to the right, so the bright
    texel is averaged with its dark neighbour.  Whatever [sqrt] computes,
    max |dye| after the frame is at most half of
    [1 / (1 + DENSITY_DISSIPATION * dt)] times max |dye| before (which is
    2), not equal to it. *)
Lemma dye_decays_faster_than_the_factor :
  0 < dyeMax driftState /\
  ~ exists glsl_sqrt,
      (3 # 4) * (decayFactor (DENSITY_DISSIPATION (config driftState)) 0.05
                 * dyeMax driftState)
      <= dyeMax (step glsl_sqrt 0.05 driftState).
Proof.
  assert (Hmax0 : dyeMax driftState == 2) by (vm_compute; reflexivity).
  split; [rewrite Hmax0; reflexivity|].
  intros (glsl_sqrt & H).
  pose proof (drift_step_dyeMax glsl_sqrt) as Hle.
  assert (Hk : 0 < decayFactor 1.0 0.05 <= 1) by (apply decayFactor_range; discriminate).
  change (decayFactor (DENSITY_DISSIPATION (config driftState)) 0.05)
    with (decayFactor 1.0 0.05) in H.
  revert H Hle Hk Hmax0.
  generalize (dyeMax (step glsl_sqrt 0.05 driftState)).
  generalize (decayFactor 1.0 0.05). generalize (dyeMax driftState).
  intros m0 k m1 H Hle Hk Hmax0. rewrite Hmax0 in H. lra.
Qed.

Lemma steps_succ_r glsl_sqrt (dt : Q) (n : nat) :
  forall s, steps glsl_sqrt (S n) dt s = step glsl_sqrt dt (steps glsl_sqrt n dt s).
Proof.
  induction n as [|n IH]; intro s; [reflexivity|].
  change (steps glsl_sqrt (S (S n)) dt s)
    with (steps glsl_sqrt (S n) dt (step glsl_sqrt dt s)).
  rewrite IH. reflexivity.
Qed.

Lemma steps_ready glsl_sqrt (dt : Q) (n : nat) :
  forall s, ready s -> 0 <= DENSITY_DISSIPATION (config s) -> 0 <= dt ->
            ready (steps glsl_sqrt n dt s) /\
            config (steps glsl_sqrt n dt s) = config s.
Proof.
  induction n as [|n IH]; intros s Hr HD Hdt; cbn [steps]; [split; [exact Hr|reflexivity]|].
  destruct (step_ready glsl_sqrt dt s Hr HD Hdt) as (Hr' & Hcfg & _).
  destruct (IH (step glsl_sqrt dt s) Hr') as [Hrn Hcn]; [rewrite Hcfg; exact HD | exact Hdt |].
  split; [exact Hrn | rewrite Hcn; exact Hcfg].
Qed.

(** C2 (amended): in a frame in which no splat is injected, the dye
    advection pass writes, for every dye texel, the back-traced sample
    multiplied by [1 / (1 + DENSITY_DISSIPATION * dt)].  For
    [DENSITY_DISSIPATION >= 0] and [dt >= 0] this factor lies in (0, 1] and
    the sample is a convex combination of dye texels, so max |dye| after the
    step is at most the factor times max |dye| before it: max |dye| does not
    increase from one frame to the next, and after [N] frames it is at most
    the factor to the power [N] times its initial value.  (The bound need
    not be attained: interpolation can lower the maximum further.) *)
Theorem step_dye_decay glsl_sqrt (dt : Q) (s : State) :
  ready s -> 0 <= DENSITY_DISSIPATION (config s) -> 0 <= dt ->
  let k := decayFactor (DENSITY_DISSIPATION (config s)) dt in
  k = 1 / (1 + DENSITY_DISSIPATION (config s) * dt) /\
  0 < k <= 1 /\
  (exists vel d v3 d',
      velocity s = Some vel /\ dye s = Some d /\
      velocity (step glsl_sqrt dt s) = Some v3 /\ dye (step glsl_sqrt dt s) = Some d' /\
      forall i j : nat,
        (Z.of_nat i < cols (write d))%Z -> (Z.of_nat j < rows (write d))%Z ->
        let sample :=
          backtraced (supportLinearFiltering s) v3 d dt
            (fragment (write d) (Vec2 (dtexelSizeX vel) (dtexelSizeY vel)) i j) in
        within (maxAbs (read d)) sample /\
        stored (read d') i j
        = Vec4 (r4 sample * k) (g4 sample * k) (b4 sample * k) (a4 sample * k)) /\
  dyeMax (step glsl_sqrt dt s) <= k * dyeMax s /\
  dyeMax (step glsl_sqrt dt s) <= dyeMax s /\
  (forall N : nat,
      dyeMax (steps glsl_sqrt N dt s) <= power k N * dyeMax s /\
      dyeMax (steps glsl_sqrt (S N) dt s) <= dyeMax (steps glsl_sqrt N dt s)).
Proof.
  intros Hr HD Hdt. cbv zeta.
  destruct (decayFactor_range _ _ HD Hdt) as [Hk0 Hk1].
  destruct (step_ready glsl_sqrt dt s Hr HD Hdt) as (_ & _ & Hstep).
  assert (Hm0 : forall t, 0 <= dyeMax t).
  { intro t. unfold dyeMax. destruct (dye t); [apply maxAbs_nonneg | lra]. }
  split; [reflexivity|]. split; [split; assumption|]. split; [|split; [exact Hstep|split]].
  - destruct Hr as (vel & cu & dv & p & d & Hvel & Hcu & Hdv & Hp & Hd & Hgl & Hfr & Hfw).
    pose proof (step_dye glsl_sqrt dt s vel p d cu dv Hvel Hcu Hdv Hp Hd Hgl) as H.
    cbv zeta in H.
    destruct H as (_ & _ & _ & v3 & cu' & dv' & p' & d' &
                   Ev & _ & _ & _ & Ed & _ & _ & _ & Hst & _).
    exists vel, d, v3, d'. repeat (split; [assumption|]).
    intros i j Hi Hj. cbv zeta. split; [|apply Hst; assumption].
    unfold backtraced. destruct (supportLinearFiltering s).
    + apply texture2D_within. exact Hfr.
    + apply bilerp_within. intro c. apply texture2D_within. exact Hfr.
  - pose proof (Hm0 s). set (k := decayFactor _ dt) in *.
    set (m1 := dyeMax (step glsl_sqrt dt s)) in *. set (m0 := dyeMax s) in *. nra.
  - intro N. split; [apply steps_dyeMax; assumption|].
    rewrite steps_succ_r.
    destruct (steps_ready glsl_sqrt dt N s Hr HD Hdt) as [Hrn Hcn].
    destruct (step_ready glsl_sqrt dt (steps glsl_sqrt N dt s) Hrn) as (_ & _ & Hs);
      [rewrite Hcn; exact HD | exact Hdt |].
    rewrite Hcn in Hs. pose proof (Hm0 (steps glsl_sqrt N dt s)).
    set (k := decayFactor _ dt) in *.
    set (m1 := dyeMax (step glsl_sqrt dt (steps glsl_sqrt N dt s))) in *.
    set (m0 := dyeMax (steps glsl_sqrt N dt s)) in *. nra.
Qed.

Lemma driftState_ready : ready driftState.
Proof.
  unfold ready, driftState. cbn [velocity curl divergence pressure dye glReady].
  do 5 eexists. repeat split; reflexivity.
Defined.

Lemma step_dye_decay_witness :
  dyeMax (step (fun _ => 1) 0.05 driftState)
    <= decayFactor (DENSITY_DISSIPATION (config driftState)) 0.05 * dyeMax driftState /\
  forall N : nat,
    dyeMax (steps (fun _ => 1) N 0.05 driftState)
      <= power (decayFactor (DENSITY_DISSIPATION (config driftState)) 0.05) N
         * dyeMax driftState /\
    dyeMax (steps (fun _ => 1) (S N) 0.05 driftState)
      <= dyeMax (steps (fun _ => 1) N 0.05 driftState).
Proof.
  assert (HD : 0 <= DENSITY_DISSIPATION (config driftState)) by discriminate.
  assert (Hdt : 0 <= 0.05) by discriminate.
  destruct (step_dye_decay (fun _ => 1) 0.05 driftState driftState_ready HD Hdt)
    as (_ & _ & _ & H1 & _ & HN).
  split; [exact H1 | exact HN].
Defined.

(** ** Colours (fluidSimulation.ts) *)

Lemma hue_sector (h : Q) :
  0 <= h -> h < 1 ->
  let i := Math_floor (h * 6) in
  (0 <= i <= 5)%Z /\ 0 <= h * 6 - inject_Z i /\ h * 6 - inject_Z i < 1.
Proof.
  intros H0 H1. cbv zeta. unfold Math_floor.
  pose proof (Qfloor_le (h * 6)) as Hl.
  pose proof (Qlt_floor (h * 6)) as Hu.
  rewrite inject_Z_plus in Hu. change (inject_Z 1) with 1 in Hu.
  split; [|split; lra].
  split.
  - change 0%Z with (Qfloor 0). apply Qfloor_resp_le. lra.
  - assert (E : (Qfloor (h * 6) < 6)%Z).
    { rewrite Zlt_Qlt. change (inject_Z 6) with 6. lra. }
    lia.
Qed.

Lemma HSVtoRGB_bounds (h s v : Q) :
  0 <= h -> h < 1 -> 0 <= s -> s <= 1 -> 0 <= v ->
  let c := HSVtoRGB h s v in
  (v * (1 - s) <= r c /\ r c <= v) /\
  (v * (1 - s) <= g c /\ g c <= v) /\
  (v * (1 - s) <= b c /\ b c <= v).
Proof.
  intros H0 H1 S0 S1 V0. cbv zeta.
  destruct (hue_sector h H0 H1) as (Hi & F0 & F1). cbv zeta in *.
  unfold HSVtoRGB.
  set (i := Math_floor (h * 6)) in *.
  set (f := h * 6 - inject_Z i) in *.
  assert (VS : 0 <= v * s) by (apply Qmult_le_0_compat; assumption).
  assert (VSF : 0 <= (v * s) * f) by (apply Qmult_le_0_compat; assumption).
  assert (VSG : 0 <= (v * s) * (1 - f)) by (apply Qmult_le_0_compat; [assumption|lra]).
  assert (Ei : i = 0%Z \/ i = 1%Z \/ i = 2%Z \/ i = 3%Z \/ i = 4%Z \/ i = 5%Z) by lia.
  destruct Ei as [-> | [-> | [-> | [-> | [-> | ->]]]]];
    match goal with
    | |- context [Z.rem ?k 6] =>
        let e := eval vm_compute in (Z.rem k 6) in change (Z.rem k 6) with e
    end;
    cbn [r g b]; repeat split; lra.
Qed.

(** X1: [HSVtoRGB] for a hue in [[0, 1)], a saturation in [[0, 1]] and a
    value [v >= 0]: every channel lies between [v (1 - s)] and [v], one
    channel is [v] and one is [v (1 - s)]. *)
Theorem HSVtoRGB_range (h s v : Q) :
  0 <= h -> h < 1 -> 0 <= s -> s <= 1 -> 0 <= v ->
  let c := HSVtoRGB h s v in
  (v * (1 - s) <= r c /\ r c <= v) /\
  (v * (1 - s) <= g c /\ g c <= v) /\
  (v * (1 - s) <= b c /\ b c <= v) /\
  (r c == v \/ g c == v \/ b c == v) /\
  (r c == v * (1 - s) \/ g c == v * (1 - s) \/ b c == v * (1 - s)).
Proof.
  intros H0 H1 S0 S1 V0. cbv zeta.
  destruct (hue_sector h H0 H1) as (Hi & F0 & F1). cbv zeta in *.
  unfold HSVtoRGB.
  set (i := Math_floor (h * 6)) in *.
  set (f := h * 6 - inject_Z i) in *.
  assert (VS : 0 <= v * s) by (apply Qmult_le_0_compat; assumption).
  assert (VSF : 0 <= (v * s) * f) by (apply Qmult_le_0_compat; assumption).
  assert (VSG : 0 <= (v * s) * (1 - f)) by (apply Qmult_le_0_compat; [assumption|lra]).
  assert (P1 : v * (1 - s) <= v * (1 - f * s)) by lra.
  assert (P2 : v * (1 - f * s) <= v) by lra.
  assert (P3 : v * (1 - s) <= v * (1 - (1 - f) * s)) by lra.
  assert (P4 : v * (1 - (1 - f) * s) <= v) by lra.
  assert (P5 : v * (1 - s) <= v) by lra.
  assert (Ei : i = 0%Z \/ i = 1%Z \/ i = 2%Z \/ i = 3%Z \/ i = 4%Z \/ i = 5%Z) by lia.
  destruct Ei as [-> | [-> | [-> | [-> | [-> | ->]]]]];
    match goal with
    | |- context [Z.rem ?k 6] =>
        let e := eval vm_compute in (Z.rem k 6) in change (Z.rem k 6) with e
    end;
    cbn [r g b];
    repeat split; try assumption; try apply Qle_refl;
    try (left; reflexivity); try (right; left; reflexivity);
    try (right; right; reflexivity).
Qed.

Lemma HSVtoRGB_range_witness :
  let c := HSVtoRGB (1 # 4) 1 1 in
  (r c == 1 # 2) /\ (g c == 1) /\ (b c == 0) /\
  (0 <= r c /\ r c <= 1).
Proof.
  cbv zeta.
  pose proof (HSVtoRGB_range (1 # 4) 1 1 ltac:(lra) ltac:(lra) ltac:(lra) ltac:(lra) ltac:(lra))
    as (Hr & _).
  cbv zeta in Hr.
  split; [vm_compute; reflexivity|].
  split; [vm_compute; reflexivity|].
  split; [vm_compute; reflexivity|].
  split; [|exact (proj2 Hr)].
  vm_compute. discriminate.
Defined.

(** ** Random bursts (fluidSimulation.ts) *)

Section RandomSplats.

Variable glsl_exp : Q -> Q.
Variable random : nat -> Q.
Hypothesis random_range : forall n, 0 <= random n /\ random n < 1.

Lemma generateColorHSV_range (s : State) :
  let c := fst (generateColorHSV random s) in
  let s' := snd (generateColorHSV random s) in
  (0 <= r c /\ r c <= 0.15) /\ (0 <= g c /\ g c <= 0.15) /\ (0 <= b c /\ b c <= 0.15) /\
  s' = tick_random s.
Proof.
  cbv zeta. unfold generateColorHSV, Math_random. cbn [fst snd r g b].
  destruct (random_range (randomCalls s)) as [H0 H1].
  pose proof (HSVtoRGB_bounds (random (randomCalls s)) 1.0 1.0 H0 H1
                ltac:(lra) ltac:(lra) ltac:(lra)) as (Hr & Hg & Hb).
  cbv zeta in Hr, Hg, Hb.
  set (c := HSVtoRGB (random (randomCalls s)) 1.0 1.0) in *.
  repeat split; try lra.
Qed.

Lemma splat_randomCalls x y dx dy c m (s : State) :
  randomCalls (splat glsl_exp x y dx dy c m s) = randomCalls s /\
  splatCalls (splat glsl_exp x y dx dy c m s) = splatCalls s ++ [mkSplatCall x y dx dy c m].
Proof.
  unfold splat.
  destruct s as [cv cfg ps st d v dv cu p ready lin rc sc].
  cbn [canvas velocity dye log_splat glReady config pointers splatCalls
       splatStack divergence curl pressure supportLinearFiltering randomCalls].
  destruct cv, v, d; try (split; reflexivity).
  destruct ready; split; reflexivity.
Qed.

Lemma multipleSplats_loop_calls (n : nat) :
  forall s,
    let s' := multipleSplats_loop glsl_exp random n s in
    randomCalls s' = (randomCalls s + 5 * n)%nat /\
    exists new, splatCalls s' = splatCalls s ++ new /\ length new = n /\
                Forall burstSplat new.
Proof.
  induction n as [|n IH]; intro s; cbv zeta.
  - cbn [multipleSplats_loop]. split; [lia|].
    exists []. rewrite app_nil_r. repeat split. constructor.
  - cbn [multipleSplats_loop].
    pose proof (generateColorHSV_range s) as Hc. cbv zeta in Hc.
    destruct (generateColorHSV random s) as [colorHSV s1]. cbn [fst snd] in Hc.
    destruct Hc as (Hr & Hg & Hb & ->).
    unfold Math_random.
    cbn [tick_random randomCalls].
    match goal with
    | |- context [multipleSplats_loop _ _ n ?t] =>
        specialize (IH t); cbv zeta in IH; set (s2 := t) in *
    end.
    destruct IH as (Hrc & new & Hlog & Hlen & Hall).
    match goal with
    | s2 := splat glsl_exp ?x ?y ?dx ?dy ?c ?m ?t |- _ =>
        destruct (splat_randomCalls x y dx dy c m t) as [Hrc2 Hlog2]
    end.
    fold s2 in Hrc2, Hlog2.
    rewrite Hrc2 in Hrc. rewrite Hlog2 in Hlog.
    cbn [tick_random randomCalls splatCalls] in Hrc, Hlog.
    split; [rewrite Hrc; lia|].
    eexists (_ :: new). rewrite Hlog, <- app_assoc. cbn [app].
    split; [reflexivity|]. split; [cbn [length]; lia|].
    constructor; [|exact Hall].
    unfold burstSplat.
    cbn [splat_x splat_y splat_dx splat_dy splat_color splat_radiusMultiplier r g b].
    pose proof (random_range (S (randomCalls s))) as [? ?].
    pose proof (random_range (S (S (randomCalls s)))) as [? ?].
    pose proof (random_range (S (S (S (randomCalls s))))) as [? ?].
    pose proof (random_range (S (S (S (S (randomCalls s)))))) as [? ?].
    repeat split; try lra.
Qed.

End RandomSplats.

(** X2: [multipleSplats(amount)], with [Math.random] in [[0, 1)]: it
    calls [splat] [amount] times (not at all for an amount of zero or less)
    and draws five random numbers per splat; every splat lies in the unit
    square, has a velocity in [[-500, 500)] in each direction, a colour with
    channels in [[0, 1.5]] and the default radius multiplier; the
    configuration and the pointers are unchanged. *)
Theorem multipleSplats_calls glsl_exp random (amount : Z) (s : State) :
  (forall n, 0 <= random n /\ random n < 1) ->
  let s' := multipleSplats glsl_exp random amount s in
  randomCalls s' = (randomCalls s + 5 * Z.to_nat amount)%nat /\
  config s' = config s /\ pointers s' = pointers s /\
  exists new, splatCalls s' = splatCalls s ++ new /\
              length new = Z.to_nat amount /\
              Forall burstSplat new.
Proof.
  intros Hr. cbv zeta. unfold multipleSplats.
  destruct (multipleSplats_loop_calls glsl_exp random Hr (Z.to_nat amount) s) as (H1 & H2).
  destruct (multipleSplats_loop_frame glsl_exp random (Z.to_nat amount) s) as (H3 & H4).
  repeat split; assumption.
Qed.

Lemma multipleSplats_calls_witness :
  let s' := multipleSplats (fun _ => 1) (fun _ => 1 # 2) 3 squareState in
  randomCalls s' = (randomCalls squareState + 15)%nat /\
  length (splatCalls s') = (length (splatCalls squareState) + 3)%nat.
Proof.
  cbv zeta.
  destruct (multipleSplats_calls (fun _ => 1) (fun _ => 1 # 2) 3 squareState
              ltac:(intro; split; lra))
    as (Hrc & _ & _ & new & Hlog & Hlen & _).
  split; [exact Hrc|].
  rewrite Hlog, length_app, Hlen. reflexivity.
Defined.

(** ** [wrap] and the colour timer (fluidSimulation.ts) *)

Lemma remainder_nonneg (a b : Q) :
  0 < b -> 0 <= a ->
  0 <= remainder a b /\ remainder a b < b /\
  remainder a b == a - b * inject_Z (Qfloor (a / b)).
Proof.
  intros Hb Ha. unfold remainder, truncate.
  assert (Hq : 0 <= a / b) by (apply Qle_shift_div_l; [exact Hb|lra]).
  rewrite (proj2 (Qltb_ge _ _) Hq).
  pose proof (Qfloor_le (a / b)) as Hl.
  pose proof (Qlt_floor (a / b)) as Hu.
  rewrite inject_Z_plus in Hu. change (inject_Z 1) with 1 in Hu.
  set (k := inject_Z (Qfloor (a / b))) in *.
  assert (Ea : a == (a / b) * b) by (field; lra).
  set (q := a / b) in *.
  assert (0 <= b * (q - k)) by (apply Qmult_le_0_compat; lra).
  assert (0 < b * (k + 1 - q)) by (apply Qmult_lt_0_compat; lra).
  split; [|split; [|reflexivity]]; lra.
Qed.

Lemma remainder_bound (a b : Q) :
  0 < b -> - b < remainder a b /\ remainder a b < b /\
           exists k : Z, remainder a b == a - b * inject_Z k.
Proof.
  intros Hb.
  destruct (Qlt_le_dec a 0) as [Ha|Ha].
  - unfold remainder, truncate.
    assert (Hq : a / b < 0).
    { apply Qlt_shift_div_r; [exact Hb|lra]. }
    rewrite (proj2 (Qltb_lt _ _) Hq).
    pose proof (Qle_ceiling (a / b)) as Hu.
    pose proof (Qceiling_lt (a / b)) as Hl.
    unfold Z.sub in Hl. rewrite inject_Z_plus in Hl.
    change (inject_Z (Z.opp 1)) with (-1) in Hl.
    split; [|split; [|eexists; reflexivity]].
    + set (k := inject_Z (Qceiling (a / b))) in *.
      assert (Ea : a == (a / b) * b) by (field; lra).
      set (q := a / b) in *.
      assert (0 < b * (q - (k + -1))) by (apply Qmult_lt_0_compat; lra).
      lra.
    + set (k := inject_Z (Qceiling (a / b))) in *.
      assert (Ea : a == (a / b) * b) by (field; lra).
      set (q := a / b) in *.
      assert (0 <= b * (k - q)) by (apply Qmult_le_0_compat; lra).
      lra.
  - destruct (remainder_nonneg a b Hb Ha) as (H1 & H2 & H3).
    split; [lra|]. split; [exact H2|]. eexists; exact H3.
Qed.

(** X3: [wrap(value, min, max)] for [min < max]: the result lies in
    [[min, max)], differs from [value] by a whole multiple of [max - min]
    (also for a value below [min], where one [%] alone would be negative),
    and is [value] itself when that lies in [[min, max)]. *)
Theorem wrap_range (value min max : Q) :
  min < max ->
  (min <= wrap value min max /\ wrap value min max < max) /\
  (exists k : Z, wrap value min max == value - inject_Z k * (max - min)) /\
  (min <= value -> value < max -> wrap value min max == value).
Proof.
  intros Hlt.
  assert (Hr : 0 < max - min) by lra.
  assert (Hne : Qeq_bool (max - min) 0 = false).
  { destruct (Qeq_bool (max - min) 0) eqn:E; [|reflexivity].
    apply Qeq_bool_iff in E. lra. }
  assert (Hw : (min <= wrap value min max /\ wrap value min max < max) /\
               (exists k : Z, wrap value min max == value - inject_Z k * (max - min))).
  { unfold wrap. cbv zeta. rewrite Hne.
    destruct (remainder_bound (value - min) (max - min) Hr) as (L1 & U1 & k1 & E1).
    set (r1 := remainder (value - min) (max - min)) in *.
    destruct (remainder_nonneg (r1 + (max - min)) (max - min) Hr ltac:(lra))
      as (L2 & U2 & E2).
    set (r2 := remainder (r1 + (max - min)) (max - min)) in *.
    split; [split; lra|].
    exists (k1 + Qfloor ((r1 + (max - min)) / (max - min)) - 1)%Z.
    unfold Z.sub. rewrite !inject_Z_plus. change (inject_Z (Z.opp 1)) with (-1).
    set (q1 := inject_Z k1) in *.
    set (q2 := inject_Z (Qfloor ((r1 + (max - min)) / (max - min)))) in *.
    lra. }
  split; [exact (proj1 Hw)|]. split; [exact (proj2 Hw)|].
  intros Hlo Hhi. destruct Hw as ((W1 & W2) & k & Ek).
  set (w := wrap value min max) in *.
  assert (K1 : inject_Z k < 1) by nra.
  assert (K2 : -1 < inject_Z k) by nra.
  assert (k = 0)%Z.
  { change 1 with (inject_Z 1) in K1. change (-1) with (inject_Z (-1)) in K2.
    rewrite <- Zlt_Qlt in K1, K2. lia. }
  subst k. rewrite Ek. change (inject_Z 0) with 0. ring.
Qed.

Lemma wrap_range_witness :
  wrap (5 # 2) 0 1 == 1 # 2 /\ wrap (- (1 # 4)) 0 1 == 3 # 4 /\
  (0 <= wrap (5 # 2) 0 1 /\ wrap (5 # 2) 0 1 < 1).
Proof.
  split; [vm_compute; reflexivity|]. split; [vm_compute; reflexivity|].
  exact (proj1 (wrap_range (5 # 2) 0 1 ltac:(lra))).
Defined.

Lemma wrap_unit (value : Q) :
  (0 <= wrap value 0.0 1.0 /\ wrap value 0.0 1.0 < 1) /\
  exists k : Z, wrap value 0.0 1.0 == value - inject_Z k.
Proof.
  assert (Hr : 0 < 1.0 - 0.0) by lra.
  unfold wrap. cbv zeta.
  replace (Qeq_bool (1.0 - 0.0) 0) with false by reflexivity.
  destruct (remainder_bound (value - 0.0) (1.0 - 0.0) Hr) as (L1 & U1 & k1 & E1).
  set (r1 := remainder (value - 0.0) (1.0 - 0.0)) in *.
  destruct (remainder_nonneg (r1 + (1.0 - 0.0)) (1.0 - 0.0) Hr ltac:(lra))
    as (L2 & U2 & E2).
  set (r2 := remainder (r1 + (1.0 - 0.0)) (1.0 - 0.0)) in *.
  split; [split; lra|].
  exists (k1 + Qfloor ((r1 + (1.0 - 0.0)) / (1.0 - 0.0)) - 1)%Z.
  unfold Z.sub. rewrite !inject_Z_plus. change (inject_Z (Z.opp 1)) with (-1).
  set (q1 := inject_Z k1) in *.
  set (q2 := inject_Z (Qfloor ((r1 + (1.0 - 0.0)) / (1.0 - 0.0)))) in *.
  lra.
Qed.

Section ColorTimer.

Variable random : nat -> Q.
Hypothesis random_range : forall n, 0 <= random n /\ random n < 1.

Lemma recolorPointers_spec (ps : list IPointer) :
  forall s,
    let ps' := fst (recolorPointers random ps s) in
    let s' := snd (recolorPointers random ps s) in
    length ps' = length ps /\
    Forall2 (fun p p' => set_color p (color p') = p' /\ dimColor (color p')) ps ps' /\
    randomCalls s' = (randomCalls s + length ps)%nat /\
    config s' = config s /\ splatCalls s' = splatCalls s /\
    pointers s' = pointers s.
Proof.
  induction ps as [|p rest IH]; intro s; cbv zeta.
  - cbn. repeat split; try lia. constructor.
  - cbn [recolorPointers].
    pose proof (generateColorHSV_range random random_range s) as Hc. cbv zeta in Hc.
    destruct (generateColorHSV random s) as [newColor s1]. cbn [fst snd] in Hc.
    destruct Hc as (Hr & Hg & Hb & ->).
    specialize (IH (tick_random s)). cbv zeta in IH.
    destruct (recolorPointers random rest (tick_random s)) as [rest' s2].
    cbn [fst snd] in *.
    destruct IH as (Hlen & Hall & Hrc & Hcfg & Hlog & Hps).
    cbn [tick_random randomCalls config splatCalls pointers] in *.
    repeat split; try assumption.
    + cbn [length]. lia.
    + constructor; [|exact Hall]. split; [reflexivity|].
      cbn [set_color color]. exists (r newColor), (g newColor), (b newColor).
      repeat split; tauto.
    + rewrite Hrc. cbn [length]. lia.
Qed.

End ColorTimer.

(** X4: [updateColors(dt)], with the timer in [[0, 1)] before the call
    and [dt * COLOR_UPDATE_SPEED >= 0].  Without [COLORFUL] nothing changes.
    With it the timer advances by [dt * COLOR_UPDATE_SPEED] modulo 1 and
    stays in [[0, 1)]; as long as it does not reach 1 the state is
    unchanged, and when it does every pointer of the registry gets a new
    colour of three channels in [[0, 0.15]], one [Math.random] each, nothing
    else of a pointer changes, and no splat is drawn. *)
Theorem updateColors_timer random (dt timer : Q) (s : State) :
  (forall n, 0 <= random n /\ random n < 1) ->
  0 <= timer -> timer < 1 -> 0 <= dt * COLOR_UPDATE_SPEED (config s) ->
  let timer' := fst (updateColors random dt timer s) in
  let s' := snd (updateColors random dt timer s) in
  let elapsed := timer + dt * COLOR_UPDATE_SPEED (config s) in
  (COLORFUL (config s) = false -> timer' = timer /\ s' = s) /\
  (COLORFUL (config s) = true ->
     (0 <= timer' /\ timer' < 1) /\
     (exists k : Z, timer' == elapsed - inject_Z k) /\
     (elapsed < 1 -> timer' = elapsed /\ s' = s) /\
     (1 <= elapsed ->
        Forall2 (fun p p' => set_color p (color p') = p' /\ dimColor (color p'))
                (pointers s) (pointers s') /\
        randomCalls s' = (randomCalls s + length (pointers s))%nat /\
        config s' = config s /\ splatCalls s' = splatCalls s)).
Proof.
  intros Hrand T0 T1 Hd. cbv zeta. unfold updateColors.
  split; intros Hc; rewrite Hc; cbn [negb fst snd]; [split; reflexivity|].
  set (elapsed := timer + dt * COLOR_UPDATE_SPEED (config s)) in *.
  destruct (Qle_bool 1.0 elapsed) eqn:E.
  - apply Qle_bool_iff in E.
    pose proof (recolorPointers_spec random Hrand (pointers s) s) as Hs. cbv zeta in Hs.
    destruct (recolorPointers random (pointers s) s) as [ps' s1]. cbn [fst snd] in *.
    destruct Hs as (Hlen & Hall & Hrc & Hcfg & Hlog & Hps).
    destruct (wrap_unit elapsed) as (W1 & k & Ek).
    split; [exact W1|]. split; [exists k; exact Ek|].
    split; [intro; lra|]. intros _.
    cbn [set_pointers pointers randomCalls config splatCalls].
    repeat split; assumption.
  - assert (E' : elapsed < 1).
    { apply Qnot_le_lt. intro H.
      assert (H' : 1.0 <= elapsed) by lra.
      apply Qle_bool_iff in H'. rewrite H' in E. discriminate. }
    cbn [fst snd].
    split; [split; [unfold elapsed|]; lra|].
    split; [exists 0%Z; change (inject_Z 0) with 0; ring|].
    split; [intros _; split; reflexivity|]. intro; lra.
Qed.

Lemma updateColors_timer_witness :
  let timer' := fst (updateColors (fun _ => 1 # 4) 0.05 0.9 squareState) in
  timer' == 0.4 /\ 0 <= timer' /\ timer' < 1.
Proof.
  cbv zeta.
  pose proof (updateColors_timer (fun _ => 1 # 4) 0.05 0.9 squareState
                ltac:(intro; split; lra) ltac:(lra) ltac:(lra)
                ltac:(vm_compute; discriminate)) as [_ H].
  cbv zeta in H. destruct (H eq_refl) as ((H0 & H1) & _).
  split; [vm_compute; reflexivity|]. split; assumption.
Defined.

(** ** Grid orientation (fluidSimulation.ts) *)






(** ** The checkerboard background (t.ts) *)

Lemma parity_remainder (m : Z) :
  modulo (inject_Z m) 2.0 == (if Z.even m then 0 else 1).
Proof.
  unfold modulo, floor.
  pose proof (Qfloor_le (inject_Z m / 2.0)) as Hl.
  pose proof (Qlt_floor (inject_Z m / 2.0)) as Hu.
  set (k := Qfloor (inject_Z m / 2.0)) in *.
  assert (E : inject_Z m == (inject_Z m / 2.0) * 2) by (field).
  rewrite inject_Z_plus in Hu. change (inject_Z 1) with 1 in Hu.
  assert (B : (2 * k <= m < 2 * k + 2)%Z).
  { split.
    - rewrite Zle_Qle, inject_Z_mult. change (inject_Z 2) with 2. lra.
    - rewrite Zlt_Qlt, inject_Z_plus, inject_Z_mult. change (inject_Z 2) with 2. lra. }
  destruct (Z.even m) eqn:Ev.
  - apply Z.even_spec in Ev. destruct Ev as [h Eh].
    assert (m = 2 * k)%Z by lia. subst m.
    rewrite H at 1. rewrite inject_Z_mult. change (inject_Z 2) with 2. lra.
  - assert (Od : Z.odd m = true) by (rewrite <- Z.negb_even, Ev; reflexivity).
    apply Z.odd_spec in Od. destruct Od as [h Eh].
    assert (m = 2 * k + 1)%Z by lia.
    rewrite H at 1. rewrite inject_Z_plus, inject_Z_mult.
    change (inject_Z 2) with 2. change (inject_Z 1) with 1. lra.
Qed.

(** X6: the checkerboard background.  Every fragment is a grey of 0.8
    or 0.9 with alpha 1: 0.8 where the cell's column plus row is even, 0.9
    where it is odd, with 25 cells over the height and [25 * aspectRatio]
    over the width. *)
Theorem checkerboardShader_two_greys (aspectRatio : Q) (v : Varyings) :
  let c := checkerboardShader aspectRatio v in
  let column := Qfloor (x2 (vUv v) * 25.0 * aspectRatio) in
  let row := Qfloor (y2 (vUv v) * 25.0 * 1.0) in
  r4 c == (if Z.even (column + row) then 0.8 else 0.9) /\
  g4 c = r4 c /\ b4 c = r4 c /\ a4 c = 1.0.
Proof.
  cbv zeta. unfold checkerboardShader, floor2, floor. cbn [x2 y2 r4 g4 b4 a4].
  split; [|repeat split; reflexivity].
  set (column := Qfloor (x2 (vUv v) * 25.0 * aspectRatio)).
  set (row := Qfloor (y2 (vUv v) * 25.0 * 1.0)).
  pose proof (parity_remainder (column + row)) as H.
  assert (E : modulo (inject_Z column + inject_Z row) 2.0
              == modulo (inject_Z (column + row)) 2.0).
  { assert (E1 : inject_Z column + inject_Z row == inject_Z (column + row))
      by (rewrite inject_Z_plus; reflexivity).
    unfold modulo.
    rewrite (floor_comp ((inject_Z column + inject_Z row) / 2.0)
                        (inject_Z (column + row) / 2.0))
      by (rewrite E1; reflexivity).
    rewrite E1. reflexivity. }
  rewrite E, H. destruct (Z.even (column + row)); lra.
Qed.

(** ** Texture units of the display draw (fluidSimulation.ts) *)

(** X7: [drawDisplay] binds each texture it uses to a unit of its own,
    counted from 0, so every sampler reads its own texture: [uTexture] the
    dye; [uBloom] the bloom texture and [uDithering] the dithering texture,
    with [ditherScale] from [getTextureScale], when [BLOOM] is on and both
    exist; [uSunrays] the sunrays texture when [SUNRAYS] is on and it
    exists.  [texelSize] is set to [(1 / width, 1 / height)] under
    [SHADING] and left as it was otherwise; units 4 and above are
    untouched. *)
Theorem drawDisplay_uniforms_units (s : State) (rs : RenderState) (d : IDoubleFBO)
        (program : DisplayProgram) (w h : Q) (units : nat -> sampler2D) :
  let bound := drawDisplay_uniforms s rs d program w h units in
  let p := fst bound in
  let u := snd bound in
  u (uTexture p) = attach (read d) /\
  (forall bl dth,
      BLOOM (config s) = true -> bloom rs = Some bl -> ditheringTexture rs = Some dth ->
      u (uBloom p) = attach bl /\
      u (uDithering p) = wrapperTexture dth /\
      ditherScale p = getTextureScale (Some dth) w h) /\
  (forall sr,
      SUNRAYS (config s) = true -> sunrays rs = Some sr ->
      u (uSunrays p) = attach sr) /\
  (SHADING (config s) = true -> texelSize p = Vec2 (1.0 / w) (1.0 / h)) /\
  (SHADING (config s) = false -> texelSize p = texelSize program) /\
  (forall n, (4 <= n)%nat -> u n = units n).
Proof.
  cbv zeta. unfold drawDisplay_uniforms.
  destruct (BLOOM (config s)) eqn:EB, (bloom rs) as [bl0|] eqn:Ebl,
    (ditheringTexture rs) as [dt0|] eqn:Edt,
    (SUNRAYS (config s)) eqn:ES, (sunrays rs) as [sr0|] eqn:Esr,
    (SHADING (config s)) eqn:ESh;
    cbn [fst snd uTexture uBloom uSunrays uDithering ditherScale texelSize];
    unfold bindUnit; cbn [Nat.eqb];
    (split; [reflexivity|]);
    (split; [intros bl dth H1 H2 H3; try discriminate;
             injection H2 as <-; injection H3 as <-; repeat split; reflexivity|]);
    (split; [intros sr H1 H2; try discriminate; injection H2 as <-; reflexivity|]);
    (split; [intro H; try discriminate; reflexivity|]);
    (split; [intro H; try discriminate; reflexivity|]);
    intros n Hn;
    destruct n as [|[|[|[|n]]]]; try lia; reflexivity.
Qed.

(** ** The bloom chain (fluidSimulation.ts) *)

Lemma ToInt32_inject_Z (z : Z) :
  (0 <= z < 2 ^ 31)%Z -> ToInt32 (inject_Z z) = z.
Proof.
  intro H. unfold ToInt32.
  assert (E : Qltb (inject_Z z) 0 = false).
  { apply Qltb_ge. change 0 with (inject_Z 0). rewrite <- Zle_Qle. lia. }
  rewrite E, Qfloor_Z.
  rewrite Z.mod_small by lia. lia.
Qed.

Lemma bloomChain_halves (n : nat) :
  forall (W H : Z) (k : nat) (wh : Q * Q),
    (0 <= W < 2 ^ 31)%Z -> (0 <= H < 2 ^ 31)%Z ->
    nth_error (bloomChain n (inject_Z W) (inject_Z H)) k = Some wh ->
    wh = (inject_Z (Z.shiftr W (Z.of_nat (S k))), inject_Z (Z.shiftr H (Z.of_nat (S k)))).
Proof.
  induction n as [|n IH]; intros W H k wh HW HH Hk; cbn [bloomChain] in Hk.
  - destruct k; discriminate.
  - rewrite (ToInt32_inject_Z W HW), (ToInt32_inject_Z H HH) in Hk.
    destruct (Qltb (inject_Z (Z.shiftr W 1)) 2 || Qltb (inject_Z (Z.shiftr H 1)) 2).
    + destruct k; discriminate.
    + destruct k as [|k].
      * cbn [nth_error] in Hk. injection Hk as <-. reflexivity.
      * cbn [nth_error] in Hk.
        assert (BW : (0 <= Z.shiftr W 1 < 2 ^ 31)%Z).
        { rewrite Z.shiftr_div_pow2 by lia. change (2 ^ 1)%Z with 2%Z.
          split; [apply Z.div_pos; lia|].
          apply Z.div_lt_upper_bound; lia. }
        assert (BH : (0 <= Z.shiftr H 1 < 2 ^ 31)%Z).
        { rewrite Z.shiftr_div_pow2 by lia. change (2 ^ 1)%Z with 2%Z.
          split; [apply Z.div_pos; lia|].
          apply Z.div_lt_upper_bound; lia. }
        rewrite (IH _ _ k wh BW BH Hk).
        rewrite !Z.shiftr_shiftr by lia.
        replace (1 + Z.of_nat (S k))%Z with (Z.of_nat (S (S k))) by lia.
        reflexivity.
Qed.

(** X8: the bloom chain for a base of [W] by [H] texels (integers
    below 2^31).  The [k]-th buffer has [floor(W / 2^(k+1))] by
    [floor(H / 2^(k+1))] texels, both at least 2; there are at most
    [BLOOM_ITERATIONS] buffers, and fewer only when the next halving would
    leave a side below 2. *)
Theorem bloomChain_sizes (iterations : nat) (W H : Z) :
  (0 <= W < 2 ^ 31)%Z -> (0 <= H < 2 ^ 31)%Z ->
  let chain := bloomChain iterations (inject_Z W) (inject_Z H) in
  (length chain <= iterations)%nat /\
  (forall k wh, nth_error chain k = Some wh ->
     wh = (inject_Z (W / 2 ^ Z.of_nat (S k)), inject_Z (H / 2 ^ Z.of_nat (S k))) /\
     (2 <= W / 2 ^ Z.of_nat (S k))%Z /\ (2 <= H / 2 ^ Z.of_nat (S k))%Z) /\
  (length chain < iterations ->
     (W / 2 ^ Z.of_nat (S (length chain)) < 2)%Z \/
     (H / 2 ^ Z.of_nat (S (length chain)) < 2)%Z)%nat.
Proof.
  intros HW HH. cbv zeta.
  split; [|split].
  - clear HW HH. generalize (inject_Z W) (inject_Z H).
    induction iterations as [|n IH]; intros w h; cbn [bloomChain].
    + cbn. lia.
    + destruct (_ || _); cbn [length]; [lia|].
      match goal with |- (S (length (bloomChain n ?a ?b)) <= _)%nat => specialize (IH a b) end.
      lia.
  - intros k wh Hk.
    pose proof (bloomChain_halves iterations W H k wh HW HH Hk) as E.
    rewrite !Z.shiftr_div_pow2 in E by lia.
    split; [exact E|].
    pose proof (bloomChain_ge_2 iterations (inject_Z W) (inject_Z H)) as Hall.
    rewrite Forall_forall in Hall.
    apply nth_error_In in Hk. specialize (Hall wh Hk). subst wh. cbn [fst snd] in Hall.
    change 2 with (inject_Z 2) in Hall. rewrite <- !Zle_Qle in Hall. exact Hall.
  - revert W H HW HH.
    induction iterations as [|n IH]; intros W H HW HH Hlen; cbn [bloomChain] in *.
    + cbn in Hlen. lia.
    + rewrite (ToInt32_inject_Z W HW), (ToInt32_inject_Z H HH) in *.
      destruct (Qltb (inject_Z (Z.shiftr W 1)) 2) eqn:Ew; cbn [orb] in *.
      * left. cbn [length]. apply Qltb_lt in Ew.
        change 2 with (inject_Z 2) in Ew. rewrite <- Zlt_Qlt in Ew.
        rewrite Z.shiftr_div_pow2 in Ew by lia. exact Ew.
      * destruct (Qltb (inject_Z (Z.shiftr H 1)) 2) eqn:Eh.
        -- right. cbn [length]. apply Qltb_lt in Eh.
           change 2 with (inject_Z 2) in Eh. rewrite <- Zlt_Qlt in Eh.
           rewrite Z.shiftr_div_pow2 in Eh by lia. exact Eh.
        -- cbn [length] in *.
           assert (BW : (0 <= Z.shiftr W 1 < 2 ^ 31)%Z).
           { rewrite Z.shiftr_div_pow2 by lia. change (2 ^ 1)%Z with 2%Z.
             split; [apply Z.div_pos; lia|].
             apply Z.div_lt_upper_bound; lia. }
           assert (BH : (0 <= Z.shiftr H 1 < 2 ^ 31)%Z).
           { rewrite Z.shiftr_div_pow2 by lia. change (2 ^ 1)%Z with 2%Z.
             split; [apply Z.div_pos; lia|].
             apply Z.div_lt_upper_bound; lia. }
           specialize (IH _ _ BW BH ltac:(lia)).
           set (m := length (bloomChain n (inject_Z (Z.shiftr W 1))
                                        (inject_Z (Z.shiftr H 1)))) in *.
           rewrite !Z.shiftr_div_pow2 in IH by lia.
           rewrite !Z.div_div in IH by lia.
           replace (2 ^ 1 * 2 ^ Z.of_nat (S m))%Z with (2 ^ Z.of_nat (S (S m)))%Z in IH.
           ++ exact IH.
           ++ rewrite <- Z.pow_add_r by lia. f_equal. lia.
Qed.

Lemma bloomChain_sizes_witness :
  bloomChain 8 (inject_Z 256) (inject_Z 256)
  = [(inject_Z 128, inject_Z 128); (inject_Z 64, inject_Z 64); (inject_Z 32, inject_Z 32);
     (inject_Z 16, inject_Z 16); (inject_Z 8, inject_Z 8); (inject_Z 4, inject_Z 4);
     (inject_Z 2, inject_Z 2)] /\
  (length (bloomChain 8 (inject_Z 256) (inject_Z 256)) <= 8)%nat.
Proof.
  split; [vm_compute; reflexivity|].
  exact (proj1 (bloomChain_sizes 8 256 256 ltac:(lia) ltac:(lia))).
Defined.

(** ** A drag: press, move, two frames (main.ts, fluidSimulation.ts) *)




(** ** A fluid at rest (fluidSimulation.ts, t.ts) *)

Lemma mix_const (x y t c : Q) : x == c -> y == c -> mix x y t == c.
Proof. intros Hx Hy. unfold mix. rewrite Hx, Hy. ring. Qed.

Lemma r4_mix4 (a b : vec4) (t : Q) : r4 (mix4 a b t) = mix (r4 a) (r4 b) t.
Proof. reflexivity. Qed.

Lemma g4_mix4 (a b : vec4) (t : Q) : g4 (mix4 a b t) = mix (g4 a) (g4 b) t.
Proof. reflexivity. Qed.

(** A sampler returns [c] in a channel when every texel holds it. *)
Lemma sample_red_texels (f : IFBO) (c : Q) :
  (forall i j, r4 (texel f i j) == c) -> uniformRed f c.
Proof.
  intros H uv. unfold texture2D. destruct (param f).
  - apply H.
  - rewrite !r4_mix4. repeat apply mix_const; apply H.
Qed.

Lemma sample_green_texels (f : IFBO) (c : Q) :
  (forall i j, g4 (texel f i j) == c) -> forall uv, g4 (texture2D f uv) == c.
Proof.
  intros H uv. unfold texture2D. destruct (param f).
  - apply H.
  - rewrite !g4_mix4. repeat apply mix_const; apply H.
Qed.

Lemma stored_blit_cases (target : IFBO) clear ts frag (i j : nat) :
  stored (blit target clear ts frag) i j = frag (fragment target ts i j) \/
  stored (blit target clear ts frag) i j = zero4.
Proof.
  destruct (Z_lt_dec (Z.of_nat j) (rows target)) as [Hj|Hj];
    [destruct (Z_lt_dec (Z.of_nat i) (cols target)) as [Hi|Hi]|].
  - left. apply blit_stored; assumption.
  - right. unfold stored, blit, set_pixels. cbn [pixels].
    set (row := fun j0 => map (fun i0 => frag (fragment target ts i0 j0))
                              (seq 0 (Z.to_nat (cols target)))).
    rewrite (nth_indep _ [] (row 0%nat)) by (rewrite length_map, length_seq; lia).
    rewrite (map_nth row), seq_nth by lia. cbn [Nat.add]. unfold row.
    apply nth_overflow. rewrite length_map, length_seq. lia.
  - right. unfold stored, blit, set_pixels. cbn [pixels].
    rewrite (nth_overflow _ []) by (rewrite length_map, length_seq; lia).
    destruct i; reflexivity.
Qed.

(** A pass whose fragments are all zero in the first two channels leaves a
    field that is zero wherever it is sampled. *)
Lemma blit_atRest (target : IFBO) clear ts frag :
  (forall v, r4 (frag v) == 0 /\ g4 (frag v) == 0) ->
  atRest (blit target clear ts frag).
Proof.
  intros H.
  assert (Ht : forall i j, r4 (texel (blit target clear ts frag) i j) == 0 /\
                           g4 (texel (blit target clear ts frag) i j) == 0).
  { intros i j. unfold texel.
    match goal with
    | |- context [stored ?f ?a ?b] =>
        destruct (stored_blit_cases target clear ts frag a b) as [E|E]; rewrite E
    end.
    - destruct (H (fragment target ts (Z.to_nat (clampIndex i (cols (blit target clear ts frag))))
                            (Z.to_nat (clampIndex j (rows (blit target clear ts frag))))))
        as [Hr Hg].
      destruct (format (blit target clear ts frag)); cbn [expand r4 g4];
        split; try assumption; reflexivity.
    - destruct (format (blit target clear ts frag)); cbn; split; reflexivity. }
  intro uv. split.
  - apply sample_red_texels. intros i j. apply Ht.
  - apply sample_green_texels. intros i j. apply Ht.
Qed.

(** A pass whose fragments all hold [c] in the first channel leaves a
    field that returns [c] wherever it is sampled. *)
Lemma blit_uniformRed (W H : Z) (target : IFBO) clear ts frag (c : Q) :
  (0 < W)%Z -> (0 < H)%Z -> grid W H target ->
  (forall v, r4 (frag v) == c) ->
  uniformRed (blit target clear ts frag) c.
Proof.
  intros HW HH (Hw & Hh) Hf. apply sample_red_texels. intros i j.
  unfold texel. rewrite r4_expand.
  destruct (blit_shape target clear ts frag) as (_ & _ & _ & _ & _ & Hc & Hr).
  cbv zeta in Hc, Hr. rewrite Hc, Hr.
  assert (Ec : cols target = W) by (unfold cols; rewrite Hw; apply Qfloor_Z).
  assert (Er : rows target = H) by (unfold rows; rewrite Hh; apply Qfloor_Z).
  pose proof (clampIndex_range i W HW). pose proof (clampIndex_range j H HH).
  rewrite blit_stored by (rewrite ?Ec, ?Er, Z2Nat.id; lia).
  apply Hf.
Qed.

Lemma grid_blit (W H : Z) (f : IFBO) clear ts frag :
  grid W H f -> grid W H (blit f clear ts frag).
Proof. intros (Hw & Hh). split; assumption. Qed.

Section AtRest.

Variable glsl_sqrt : Q -> Q.

Lemma curlShader_atRest (vel : IFBO) (v : Varyings) :
  atRest vel -> r4 (curlShader (attach vel) v) == 0.
Proof.
  intro H. unfold curlShader, attach. cbn [r4].
  rewrite (proj2 (H (vL v))), (proj2 (H (vR v))), (proj1 (H (vT v))), (proj1 (H (vB v))).
  ring.
Qed.

Lemma vorticityShader_atRest (vel cu : IFBO) (curl dt : Q) (v : Varyings) :
  atRest vel -> uniformRed cu 0 ->
  r4 (vorticityShader glsl_sqrt (attach vel) (attach cu) curl dt v) == 0 /\
  g4 (vorticityShader glsl_sqrt (attach vel) (attach cu) curl dt v) == 0.
Proof.
  intros Hv Hc. unfold vorticityShader, attach.
  cbn [r4 g4 xy add2 scale2 vec4_of2 x2 y2].
  rewrite (Hc (vUv v)), (proj1 (Hv (vUv v))), (proj2 (Hv (vUv v))).
  split; ring.
Qed.

Lemma divergenceShader_atRest (vel : IFBO) (v : Varyings) :
  atRest vel -> r4 (divergenceShader (attach vel) v) == 0.
Proof.
  intro H. unfold divergenceShader, attach. cbn [r4 xy x2 y2].
  destruct (Qltb (x2 (vL v)) 0.01), (Qgtb (x2 (vR v)) (1.0 - 0.01)),
    (Qltb (y2 (vB v)) 0.01), (Qgtb (y2 (vT v)) (1.0 - 0.01));
    rewrite ?(proj1 (H (vL v))), ?(proj1 (H (vR v))), ?(proj2 (H (vT v))),
      ?(proj2 (H (vB v))), ?(proj1 (H (vUv v))), ?(proj2 (H (vUv v)));
    ring.
Qed.

Lemma pressureShader_uniform (pr dv : IFBO) (c : Q) (v : Varyings) :
  uniformRed pr c -> uniformRed dv 0 ->
  r4 (pressureShader (attach pr) (attach dv) v) == c.
Proof.
  intros Hp Hd. unfold pressureShader, attach. cbn [r4].
  destruct (Qltb (x2 (vL v)) 0.01), (Qgtb (x2 (vR v)) (1.0 - 0.01)),
    (Qltb (y2 (vB v)) 0.01), (Qgtb (y2 (vT v)) (1.0 - 0.01));
    rewrite ?(Hp (vL v)), ?(Hp (vR v)), ?(Hp (vT v)), ?(Hp (vB v)), (Hd (vUv v));
    ring.
Qed.

Lemma gradientSubtractShader_atRest (pr vel : IFBO) (c : Q) (v : Varyings) :
  uniformRed pr c -> atRest vel ->
  r4 (gradientSubtractShader (attach pr) (attach vel) v) == 0 /\
  g4 (gradientSubtractShader (attach pr) (attach vel) v) == 0.
Proof.
  intros Hp Hv. unfold gradientSubtractShader, attach.
  cbn [r4 g4 xy sub2 scale2 vec4_of2 x2 y2].
  rewrite (Hp (vL v)), (Hp (vR v)), (Hp (vT v)), (Hp (vB v)),
    (proj1 (Hv (vUv v))), (proj2 (Hv (vUv v))).
  split; ring.
Qed.

Lemma advectionShader_atRest (manual : bool) (uVelocity : sampler2D) (src : IFBO)
      (ts dts : vec2) (dt dissipation : Q) (v : Varyings) :
  atRest src ->
  r4 (advectionShader manual uVelocity (attach src) ts dts dt dissipation v) == 0 /\
  g4 (advectionShader manual uVelocity (attach src) ts dts dt dissipation v) == 0.
Proof.
  intro H. unfold advectionShader, attach. cbn [r4 g4].
  destruct manual.
  - unfold bilerp. rewrite !r4_mix4, !g4_mix4.
    split.
    + rewrite (mix_const _ _ _ 0); [ring| |];
        apply mix_const; apply (fun uv => proj1 (H uv)).
    + rewrite (mix_const _ _ _ 0); [ring| |];
        apply mix_const; apply (fun uv => proj2 (H uv)).
  - split.
    + rewrite (proj1 (H _)). ring.
    + rewrite (proj2 (H _)). ring.
Qed.

Lemma pressureLoop_uniform (W H : Z) (ts : vec2) (dv : IFBO) (c : Q) (n : nat) :
  (0 < W)%Z -> (0 < H)%Z -> uniformRed dv 0 ->
  forall p, grid W H (read p) -> grid W H (write p) -> uniformRed (read p) c ->
            uniformRed (read (pressureLoop n ts dv p)) c.
Proof.
  intros HW HH Hdv.
  induction n as [|n IH]; intros p Hr Hw Hu; cbn [pressureLoop]; [exact Hu|].
  apply IH.
  - rewrite (proj1 (drawAndSwap_read _ _ _ _)). apply grid_blit. exact Hw.
  - rewrite (proj2 (drawAndSwap_read _ _ _ _)). exact Hr.
  - rewrite (proj1 (drawAndSwap_read _ _ _ _)).
    apply (blit_uniformRed W H); try assumption.
    intro v. apply pressureShader_uniform; assumption.
Qed.

End AtRest.

Lemma eq4_refl (a : vec4) : eq4 a a.
Proof. repeat split; reflexivity. Qed.

Lemma mix4_zero (a b : vec4) (t : Q) : t == 0 -> eq4 (mix4 a b t) a.
Proof.
  intro H. unfold eq4, mix4, mix. cbn [r4 g4 b4 a4]. rewrite H.
  repeat split; ring.
Qed.

Lemma mix4_zero_eq (a a' b : vec4) (t : Q) : t == 0 -> eq4 a a' -> eq4 (mix4 a b t) a'.
Proof.
  intros H E. apply (eq4_trans _ a); [apply mix4_zero; exact H | exact E].
Qed.

Lemma fract_inject_Z (x : Q) (a : Z) : x == inject_Z a -> fract x == 0.
Proof.
  intro H. rewrite (fract_comp _ _ H). unfold fract, floor. rewrite Qfloor_Z. ring.
Qed.

(** With either filter, a coordinate at the centre of texel [(a, b)] reads
    that texel. *)
Lemma texture2D_at_centre (W H : Z) (f : IFBO) (a b : Z) (uv : vec2) :
  grid W H f -> (0 < W)%Z -> (0 < H)%Z ->
  x2 uv == (inject_Z a + (1 # 2)) / inject_Z W ->
  y2 uv == (inject_Z b + (1 # 2)) / inject_Z H ->
  eq4 (texture2D f uv) (texel f a b).
Proof.
  intros (Hw & Hh) HW HH Hx Hy.
  destruct (param f) eqn:Ep.
  - rewrite (texture2D_centre W H f a b uv (conj Hw (conj Hh Ep)) HW HH Hx Hy).
    apply eq4_refl.
  - unfold texture2D. rewrite Ep.
    assert (Ec : cols f = W) by (unfold cols; rewrite Hw; apply Qfloor_Z).
    assert (Er : rows f = H) by (unfold rows; rewrite Hh; apply Qfloor_Z).
    rewrite Ec, Er.
    pose proof (inject_Z_pos W HW). pose proof (inject_Z_pos H HH).
    assert (Ex : x2 uv * inject_Z W - (1 # 2) == inject_Z a) by (rewrite Hx; field; lra).
    assert (Ey : y2 uv * inject_Z H - (1 # 2) == inject_Z b) by (rewrite Hy; field; lra).
    rewrite (Qfloor_comp _ _ Ex), (Qfloor_comp _ _ Ey), !Qfloor_Z.
    apply mix4_zero_eq; [exact (fract_inject_Z _ _ Ey)|].
    apply mix4_zero. exact (fract_inject_Z _ _ Ex).
Qed.

(** The same for the manual bilinear filter of the advection shader. *)
Lemma bilerp_at_centre (W H : Z) (f : IFBO) (a b : Z) (uv ts : vec2) :
  grid W H f -> (0 < W)%Z -> (0 < H)%Z ->
  x2 ts == 1 / inject_Z W -> y2 ts == 1 / inject_Z H ->
  x2 uv == (inject_Z a + (1 # 2)) / inject_Z W ->
  y2 uv == (inject_Z b + (1 # 2)) / inject_Z H ->
  eq4 (bilerp (texture2D f) uv ts) (texel f a b).
Proof.
  intros Hg HW HH Htx Hty Hx Hy.
  pose proof (inject_Z_pos W HW). pose proof (inject_Z_pos H HH).
  assert (Ex : x2 uv / x2 ts - 0.5 == inject_Z a) by (rewrite Hx, Htx; field; lra).
  assert (Ey : y2 uv / y2 ts - 0.5 == inject_Z b) by (rewrite Hy, Hty; field; lra).
  unfold bilerp. cbv zeta. unfold floor2, fract2. cbn [x2 y2].
  rewrite (floor_comp _ _ Ex), (floor_comp _ _ Ey).
  unfold floor. rewrite !Qfloor_Z.
  apply mix4_zero_eq; [exact (fract_inject_Z _ _ Ey)|].
  apply mix4_zero_eq; [exact (fract_inject_Z _ _ Ex)|].
  apply (texture2D_at_centre W H); try assumption.
  - cbn [mul2 add2 x2 y2]. rewrite Htx. field. lra.
  - cbn [mul2 add2 x2 y2]. rewrite Hty. field. lra.
Qed.

(** X10: a fluid at rest stays at rest.  When the velocity is zero and
    the pressure is [c] wherever they are sampled, then after a step the
    velocity is still zero everywhere, the pressure is [c * PRESSURE]
    everywhere, and every dye texel holds its own value times
    [1 / (1 + DENSITY_DISSIPATION * dt)]: the dye fades in place, with the
    hardware filter as with the manual one. *)
Theorem step_at_rest glsl_sqrt (dt : Q) (s : State) (vel p d : IDoubleFBO)
        (cu dv : IFBO) (c : Q) (Wp Hp Wd Hd : Z) :
  velocity s = Some vel -> curl s = Some cu -> divergence s = Some dv ->
  pressure s = Some p -> dye s = Some d -> glReady s = true ->
  atRest (read vel) -> uniformRed (read p) c ->
  (0 < Wp)%Z -> (0 < Hp)%Z -> grid Wp Hp (read p) -> grid Wp Hp (write p) ->
  (0 < Wd)%Z -> (0 < Hd)%Z -> grid Wd Hd (read d) -> grid Wd Hd (write d) ->
  dtexelSizeX d == 1 / inject_Z Wd -> dtexelSizeY d == 1 / inject_Z Hd ->
  let s' := step glsl_sqrt dt s in
  exists vel' p' d',
    velocity s' = Some vel' /\ pressure s' = Some p' /\ dye s' = Some d' /\
    atRest (read vel') /\
    uniformRed (read p') (c * PRESSURE (config s)) /\
    forall i j : nat,
      (Z.of_nat i < Wd)%Z -> (Z.of_nat j < Hd)%Z ->
      eq4 (stored (read d') i j)
          (scale4 (decayFactor (DENSITY_DISSIPATION (config s)) dt)
                  (texel (read d) (Z.of_nat i) (Z.of_nat j))).
Proof.
  intros Hvel Hcu Hdv Hpr Hdy Hgl Hrest Hunif HWp HHp Gpr Gpw HWd HHd Gdr Gdw Htx Hty.
  cbv zeta. unfold step. rewrite Hvel, Hcu, Hdv, Hpr, Hdy, Hgl. cbn [negb].
  set (ts := Vec2 (dtexelSizeX vel) (dtexelSizeY vel)).
  set (curl1 := blit cu true ts (curlShader (attach (read vel)))).
  set (velocity1 := drawAndSwap vel true ts
                      (vorticityShader glsl_sqrt (attach (read vel)) (attach curl1)
                         (CURL (config s)) dt)).
  set (divergence1 := blit dv true ts (divergenceShader (attach (read velocity1)))).
  set (pressure1 := drawAndSwap p true (Vec2 0 0)
                      (clearShader (attach (read p)) (PRESSURE (config s)))).
  set (pressure2 := pressureLoop (PRESSURE_ITERATIONS (config s)) ts divergence1 pressure1).
  set (velocity2 := drawAndSwap velocity1 true ts
                      (gradientSubtractShader (attach (read pressure2))
                         (attach (read velocity1)))).
  set (manual := negb (supportLinearFiltering s)).
  set (velocity3 := drawAndSwap velocity2 true ts
                      (advectionShader manual (attach (read velocity2))
                         (attach (read velocity2)) ts
                         (if manual then ts else Vec2 0 0) dt
                         (VELOCITY_DISSIPATION (config s)))).
  set (dts := if manual then Vec2 (dtexelSizeX d) (dtexelSizeY d) else Vec2 0 0).
  set (dye1 := drawAndSwap d true ts
                 (advectionShader manual (attach (read velocity3)) (attach (read d))
                    ts dts dt (DENSITY_DISSIPATION (config s)))).
  cbn [set_fields velocity pressure dye].
  exists velocity3, pressure2, dye1.
  split; [reflexivity|]. split; [reflexivity|]. split; [reflexivity|].
  assert (Hc1 : uniformRed curl1 0).
  { apply sample_red_texels. intros i j.
    unfold curl1, texel.
    match goal with
    | |- context [stored ?f ?a ?b] =>
        destruct (stored_blit_cases cu true ts (curlShader (attach (read vel))) a b)
          as [E|E]; rewrite E
    end; rewrite r4_expand; [apply curlShader_atRest; exact Hrest|reflexivity]. }
  assert (Hv1 : atRest (read velocity1)).
  { unfold velocity1. rewrite (proj1 (drawAndSwap_read _ _ _ _)).
    apply blit_atRest. intro v. apply vorticityShader_atRest; assumption. }
  assert (Hd1 : uniformRed divergence1 0).
  { apply sample_red_texels. intros i j. unfold divergence1, texel.
    match goal with
    | |- context [stored ?f ?a ?b] =>
        destruct (stored_blit_cases dv true ts
                    (divergenceShader (attach (read velocity1))) a b)
          as [E|E]; rewrite E
    end; rewrite r4_expand; [apply divergenceShader_atRest; exact Hv1|reflexivity]. }
  assert (Hp1 : uniformRed (read pressure1) (c * PRESSURE (config s))).
  { unfold pressure1. rewrite (proj1 (drawAndSwap_read _ _ _ _)).
    apply (blit_uniformRed Wp Hp); try assumption.
    intro v. unfold clearShader, attach. cbn [r4]. rewrite (Hunif (vUv v)). reflexivity. }
  assert (Hp2 : uniformRed (read pressure2) (c * PRESSURE (config s))).
  { unfold pressure2. apply (pressureLoop_uniform Wp Hp); assumption. }
  assert (Hv2 : atRest (read velocity2)).
  { unfold velocity2. rewrite (proj1 (drawAndSwap_read _ _ _ _)).
    apply blit_atRest. intro v.
    apply (gradientSubtractShader_atRest _ _ (c * PRESSURE (config s))); assumption. }
  assert (Hv3 : atRest (read velocity3)).
  { unfold velocity3. rewrite (proj1 (drawAndSwap_read _ _ _ _)).
    apply blit_atRest. intro v. apply advectionShader_atRest. exact Hv2. }
  split; [exact Hv3|]. split; [exact Hp2|].
  intros i j Hi Hj.
  unfold dye1. rewrite (proj1 (drawAndSwap_read _ _ _ _)).
  destruct Gdw as (Gw & Gh).
  assert (Ec : cols (write d) = Wd) by (unfold cols; rewrite Gw; apply Qfloor_Z).
  assert (Er : rows (write d) = Hd) by (unfold rows; rewrite Gh; apply Qfloor_Z).
  rewrite blit_stored by (rewrite ?Ec, ?Er; assumption).
  destruct (fragment_vUv Wd Hd (write d) ts i j Gw Gh HWd HHd) as [Hux Huy].
  set (v := fragment (write d) ts i j) in *.
  unfold advectionShader.
  set (coord := sub2 (vUv v) (scale2 dt (xy (attach (read velocity3) (vUv v))))).
  assert (Ecx : x2 coord == (inject_Z (Z.of_nat i) + (1 # 2)) / inject_Z Wd).
  { unfold coord, attach. cbn [sub2 scale2 xy x2].
    rewrite (proj1 (Hv3 (vUv v))), Hux. ring. }
  assert (Ecy : y2 coord == (inject_Z (Z.of_nat j) + (1 # 2)) / inject_Z Hd).
  { unfold coord, attach. cbn [sub2 scale2 xy y2].
    rewrite (proj2 (Hv3 (vUv v))), Huy. ring. }
  assert (Hsample : eq4 (if manual then bilerp (attach (read d)) coord dts
                         else attach (read d) coord)
                        (texel (read d) (Z.of_nat i) (Z.of_nat j))).
  { unfold attach, dts. destruct manual.
    - apply (bilerp_at_centre Wd Hd); assumption.
    - apply (texture2D_at_centre Wd Hd); assumption. }
  destruct Hsample as (Sr & Sg & Sb & Sa).
  unfold eq4, scale4, decayFactor. cbn [r4 g4 b4 a4].
  rewrite Sr, Sg, Sb, Sa. repeat split; ring.
Qed.

Lemma step_at_rest_witness :
  exists vel' p' d',
    velocity (step (fun _ => 1) (1 / 60) restState) = Some vel' /\
    pressure (step (fun _ => 1) (1 / 60) restState) = Some p' /\
    dye (step (fun _ => 1) (1 / 60) restState) = Some d' /\
    atRest (read vel') /\
    uniformRed (read p') (1 * 0.8) /\
    eq4 (stored (read d') 0 0) (Vec4 (60 # 61) (30 # 61) 0 (60 # 61)).
Proof.
  assert (Hrest : atRest (textureOf 3 2 2 FormatRG LINEAR (blank 2 2))).
  { assert (Ht : forall i j, texel (textureOf 3 2 2 FormatRG LINEAR (blank 2 2)) i j
                             = Vec4 0 0 0 1).
    { intros i j. unfold texel.
      generalize (Z.to_nat (clampIndex i (cols (textureOf 3 2 2 FormatRG LINEAR (blank 2 2))))).
      generalize (Z.to_nat (clampIndex j (rows (textureOf 3 2 2 FormatRG LINEAR (blank 2 2))))).
      intros b a. destruct a as [|[|[|a]]], b as [|[|[|b]]]; reflexivity. }
    intro uv. split.
    - apply sample_red_texels. intros i j. rewrite Ht. reflexivity.
    - apply sample_green_texels. intros i j. rewrite Ht. reflexivity. }
  assert (Hunif : uniformRed (textureOf 7 2 2 FormatR NEAREST
                                [scalarRow [1; 1]; scalarRow [1; 1]]) 1).
  { apply sample_red_texels. intros i j. unfold texel.
    change (cols (textureOf 7 2 2 FormatR NEAREST [scalarRow [1; 1]; scalarRow [1; 1]]))
      with 2%Z.
    change (rows (textureOf 7 2 2 FormatR NEAREST [scalarRow [1; 1]; scalarRow [1; 1]]))
      with 2%Z.
    pose proof (clampIndex_range i 2 ltac:(lia)) as Hi.
    pose proof (clampIndex_range j 2 ltac:(lia)) as Hj.
    destruct (clampIndex i 2) as [|[a|a|]|a]; try lia;
      destruct (clampIndex j 2) as [|[b|b|]|b]; try lia; reflexivity. }
  destruct (step_at_rest (fun _ => 1) (1 / 60) restState _ _ _ _ _ 1 2 2 2 2
              eq_refl eq_refl eq_refl eq_refl eq_refl eq_refl
              Hrest Hunif
              ltac:(lia) ltac:(lia) (conj eq_refl eq_refl) (conj eq_refl eq_refl)
              ltac:(lia) ltac:(lia) (conj eq_refl eq_refl) (conj eq_refl eq_refl)
              ltac:(reflexivity) ltac:(reflexivity))
    as (vel' & p' & d' & Hv & Hp & Hd & Hr & Hu & Hdye).
  exists vel', p', d'.
  split; [exact Hv|]. split; [exact Hp|]. split; [exact Hd|].
  split; [exact Hr|]. split; [exact Hu|].
  apply (eq4_trans _ _ _ (Hdye 0%nat 0%nat ltac:(lia) ltac:(lia))).
  unfold eq4. vm_compute. repeat split; reflexivity.
Defined.

(** ** The alpha the display draw leaves in the canvas (fluidSimulation.ts) *)







(** ** Sunrays (t.ts) *)

Lemma geometricSum_nonneg (q : Q) (n : nat) : 0 <= q -> 0 <= geometricSum q n.
Proof.
  intro Hq. induction n as [|n IH]; cbn [geometricSum]; [lra|].
  assert (0 <= q * geometricSum q n) by (apply Qmult_le_0_compat; assumption). lra.
Qed.

Lemma sunraysLoop_bounds (uTexture : sampler2D) (weight Decay lo hi : Q)
      (delta : vec2) (n : nat) :
  0 <= weight -> 0 <= Decay ->
  (forall uv, lo <= r4 (uTexture uv) /\ r4 (uTexture uv) <= hi) ->
  forall coord color illum,
    0 <= illum ->
    color + lo * (weight * illum * geometricSum Decay n)
    <= sunraysLoop n uTexture weight Decay delta coord color illum /\
    sunraysLoop n uTexture weight Decay delta coord color illum
    <= color + hi * (weight * illum * geometricSum Decay n).
Proof.
  intros Hw Hd Hs.
  induction n as [|n IH]; intros coord color illum Hi; cbn [sunraysLoop geometricSum].
  - split; ring_simplify; apply Qle_refl.
  - destruct (Hs (sub2 coord delta)) as [Sl Sh].
    set (sample := r4 (uTexture (sub2 coord delta))) in *.
    assert (Hi' : 0 <= illum * Decay) by (apply Qmult_le_0_compat; assumption).
    destruct (IH (sub2 coord delta) (color + sample * illum * weight) (illum * Decay) Hi')
      as [Il Ih].
    set (loopv := sunraysLoop n uTexture weight Decay delta (sub2 coord delta)
                    (color + sample * illum * weight) (illum * Decay)) in *.
    pose proof (geometricSum_nonneg Decay n Hd) as HG.
    set (G := geometricSum Decay n) in *.
    assert (Hwi : 0 <= weight * illum) by (apply Qmult_le_0_compat; assumption).
    assert (P1 : 0 <= (sample - lo) * (weight * illum))
      by (apply Qmult_le_0_compat; lra).
    assert (P2 : 0 <= (hi - sample) * (weight * illum))
      by (apply Qmult_le_0_compat; lra).
    split.
    + apply Qle_trans with (2 := Il).
      setoid_replace (color + lo * (weight * illum * (1 + Decay * G)))
        with (color + lo * (weight * illum) + lo * (weight * (illum * Decay) * G)) by ring.
      lra.
    + apply Qle_trans with (1 := Ih).
      setoid_replace (color + hi * (weight * illum * (1 + Decay * G)))
        with (color + hi * (weight * illum) + hi * (weight * (illum * Decay) * G)) by ring.
      lra.
Qed.

(** X12: the sunrays shaders.  The mask is [1 - clamp(20 br, 0, 0.8)]
    for the brightness [br = max(r, g, b)]: a value in [[0.2, 1]], the same
    in the three colour channels, with alpha 1.  For a weight of at least 0
    and a mask between [lo] and [hi] wherever it is sampled, the sunrays
    shader returns a red channel between [lo * gain] and [hi * gain], where
    [gain = 0.7 (1 + weight (1 + 0.95 + ... + 0.95^15))]; green and blue are
    0 and alpha is 1. *)
Theorem sunrays_bounds (uTexture mask : sampler2D) (weight lo hi : Q) (v : Varyings) :
  0 <= weight ->
  (forall uv, lo <= r4 (mask uv) /\ r4 (mask uv) <= hi) ->
  let m := sunraysMaskShader uTexture v in
  let rays := sunraysShader mask weight v in
  let gain := 0.7 * (1 + weight * geometricSum 0.95 16) in
  ((1 # 5) <= r4 m /\ r4 m <= 1) /\ g4 m = r4 m /\ b4 m = r4 m /\ a4 m = 1.0 /\
  (lo * gain <= r4 rays /\ r4 rays <= hi * gain) /\
  g4 rays = 0.0 /\ b4 rays = 0.0 /\ a4 rays = 1.0.
Proof.
  intros Hw Hs. cbv zeta.
  split.
  { unfold sunraysMaskShader. cbn [r4].
    pose proof (clamp_range
                  (Qmax (r4 (uTexture (vUv v)))
                        (Qmax (g4 (uTexture (vUv v))) (b4 (uTexture (vUv v)))) * 20.0)
                  0.0 0.8 ltac:(lra)) as [C0 C1].
    split; lra. }
  split; [reflexivity|]. split; [reflexivity|]. split; [reflexivity|].
  split; [|repeat split; reflexivity].
  unfold sunraysShader. cbn [r4].
  match goal with
  | |- context [sunraysLoop 16 mask weight 0.95 ?dl ?cd ?col ?il] =>
      destruct (sunraysLoop_bounds mask weight 0.95 lo hi dl 16 Hw ltac:(lra) Hs
                  cd col il ltac:(lra)) as [Bl Bh];
      set (loopv := sunraysLoop 16 mask weight 0.95 dl cd col il) in *
  end.
  destruct (Hs (vUv v)) as [Sl Sh].
  set (c0 := r4 (mask (vUv v))) in *.
  set (G := geometricSum 0.95 16) in *.
  split.
  - setoid_replace (lo * (0.7 * (1 + weight * G)))
      with ((lo + lo * (weight * 1.0 * G)) * 0.7) by ring.
    lra.
  - setoid_replace (hi * (0.7 * (1 + weight * G)))
      with ((hi + hi * (weight * 1.0 * G)) * 0.7) by ring.
    lra.
Qed.

Lemma sunrays_bounds_witness :
  let rays := sunraysShader (fun _ => Vec4 (1 # 2) 0 0 1) 1 midFragment in
  (1 # 5) * (0.7 * (1 + 1 * geometricSum 0.95 16)) <= r4 rays /\
  r4 rays <= 1 * (0.7 * (1 + 1 * geometricSum 0.95 16)).
Proof.
  cbv zeta.
  pose proof (sunrays_bounds (fun _ => zero4) (fun _ => Vec4 (1 # 2) 0 0 1) 1 (1 # 5) 1
                midFragment ltac:(lra) ltac:(intro; cbn [r4]; split; lra))
    as (_ & _ & _ & _ & H & _).
  exact H.
Defined.

(** ** Render-target formats (webglUtils.ts) *)

(** X13: [getSupportedFormat].  A format it returns is supported and
    has at least the channels asked for.  A supported request is returned
    as it is.  An unsupported one yields [null] on a WebGL 1 context; on a
    WebGL 2 context R16F falls back to RG16F and then to RGBA16F, RG16F to
    RGBA16F, and [null] is returned when none of them is supported.  The
    chain of calls is at most three deep. *)
Theorem getSupportedFormat_fallback (support : InternalFormat -> PixelFormat -> Z -> bool)
        (isWebGL2 : bool) (internalFormat : InternalFormat) (format : PixelFormat)
        (type : Z) :
  let result := getSupportedFormat support isWebGL2 internalFormat format type in
  (forall fuel, (3 <= fuel)%nat ->
     getSupportedFormat_calls support isWebGL2 fuel internalFormat format type = result) /\
  (forall r, result = Some r ->
     support (sf_internalFormat r) (sf_format r) type = true /\
     (channels internalFormat <= channels (sf_internalFormat r))%nat) /\
  (support internalFormat format type = true ->
     result = Some (mkSupportedFormat internalFormat format)) /\
  (support internalFormat format type = false -> isWebGL2 = false -> result = None) /\
  (isWebGL2 = true -> internalFormat = R16F ->
     result = if support R16F format type then Some (mkSupportedFormat R16F format)
              else if support RG16F RG type then Some (mkSupportedFormat RG16F RG)
              else if support RGBA16F RGBA type then Some (mkSupportedFormat RGBA16F RGBA)
              else None) /\
  (isWebGL2 = true -> internalFormat = RG16F ->
     result = if support RG16F format type then Some (mkSupportedFormat RG16F format)
              else if support RGBA16F RGBA type then Some (mkSupportedFormat RGBA16F RGBA)
              else None).
Proof.
  cbv zeta. unfold getSupportedFormat.
  split.
  { intros fuel Hf. destruct fuel as [|[|[|fuel]]]; try lia.
    cbn [getSupportedFormat_calls].
    destruct (support internalFormat format type); cbn [negb]; [reflexivity|].
    destruct isWebGL2; [|reflexivity].
    destruct internalFormat; reflexivity. }
  split.
  { intros r. cbn [getSupportedFormat_calls].
    destruct (support internalFormat format type) eqn:E0; cbn [negb].
    - intro H. injection H as <-. cbn. split; [exact E0|lia].
    - destruct isWebGL2; [|discriminate].
      destruct internalFormat; try discriminate.
      + destruct (support RG16F RG type) eqn:E1; cbn [negb].
        * intro H. injection H as <-. cbn. split; [exact E1|lia].
        * destruct (support RGBA16F RGBA type) eqn:E2; cbn [negb]; [|discriminate].
          intro H. injection H as <-. cbn. split; [exact E2|lia].
      + destruct (support RGBA16F RGBA type) eqn:E2; cbn [negb]; [|discriminate].
        intro H. injection H as <-. cbn. split; [exact E2|lia]. }
  split.
  { intro E. cbn [getSupportedFormat_calls]. rewrite E. reflexivity. }
  split.
  { intros E ->. cbn [getSupportedFormat_calls]. rewrite E. reflexivity. }
  split.
  { intros -> ->. cbn [getSupportedFormat_calls].
    destruct (support R16F format type); cbn [negb]; [reflexivity|].
    destruct (support RG16F RG type); cbn [negb]; [reflexivity|].
    destruct (support RGBA16F RGBA type); reflexivity. }
  { intros -> ->. cbn [getSupportedFormat_calls].
    destruct (support RG16F format type); cbn [negb]; [reflexivity|].
    destruct (support RGBA16F RGBA type); reflexivity. }
Qed.
